(** * gentorrent: bencoding codec, piece hashing, Merkle root and metainfo

    A shallow embedding of [src/gentorrent.py] and the properties of its
    codec ([bencode] / [bdecode]), of the piece hasher and Merkle reduction
    in [Metainfo.__init__], of [Metainfo.infohash] and of the way [main]
    writes the metainfo file. *)

From Stdlib Require Import String Ascii.
From Stdlib Require Import Strings.Byte.
From Stdlib Require Import List ZArith NArith Lia Bool.
From Stdlib Require Import Permutation Sorted Arith.
From Equations Require Import Equations.
Import ListNotations.

Local Open Scope list_scope.

(** ** Bytes *)

(** Python [bytes] / [bytearray] values. *)
Abbreviation bytes := (list byte) (only parsing).

(** A bytes literal [b'...']. *)
Definition b (s : string) : bytes := list_byte_of_string s.

Definition byte_val (c : byte) : Z := Z.of_N (Byte.to_N c).

(** [current in b'0123456789'] for a one-byte [current]. *)
Definition is_digit (c : byte) : bool :=
  (48 <=? byte_val c)%Z && (byte_val c <=? 57)%Z.

(** [int(current)] for a one-byte decimal digit. *)
Definition int_of_digit (c : byte) : Z := (byte_val c - 48)%Z.

(** The byte of a decimal digit [0 <= d < 10]. *)
Definition digit_byte (d : N) : byte :=
  match Byte.of_N (48 + d) with Some c => c | None => "0"%byte end.

(** ** Exceptions and results *)

Inductive exn := ValueError | TypeError | KeyError | IndexError | OSError.

(** The outcome of a call: a value, a raised exception, or (for the
    fuelled loops of the model only) exhausted fuel. *)
Inductive result (A : Type) :=
| Ok (a : A)
| Raise (e : exn)
| OutOfFuel.
Arguments Ok {A} a.
Arguments Raise {A} e.
Arguments OutOfFuel {A}.

Definition bind {A B} (r : result A) (k : A -> result B) : result B :=
  match r with
  | Ok a => k a
  | Raise e => Raise e
  | OutOfFuel => OutOfFuel
  end.

Notation "x <- r ;; k" := (bind r (fun x => k))
  (at level 61, r at next level, right associativity).
Notation "' p <- r ;; k" := (bind r (fun p => k))
  (at level 61, p pattern, r at next level, right associativity).

(** ** Values: compositions of bytes, int, dictionary and list *)

(** The hashable objects the program uses as dictionary keys. *)
Inductive key :=
| KBytes (s : bytes)
| KInt (i : Z).

(** A dictionary is kept in insertion order, as Python dicts are; its
    keys are pairwise distinct (see [wf_value]). *)
#[warnings="-register-all"]
Inductive value :=
| Bytes (s : bytes)
| Int (i : Z)
| List (l : list value)
| Dict (d : list (key * value)).

Definition dict := list (key * value).

Definition byte_eq_dec : forall x y : byte, {x = y} + {x <> y} := Byte.byte_eq_dec.

Definition bytes_eq_dec : forall x y : bytes, {x = y} + {x <> y} :=
  list_eq_dec byte_eq_dec.

Definition key_eq_dec (x y : key) : {x = y} + {x <> y}.
Proof. decide equality; [apply bytes_eq_dec | apply Z.eq_dec]. Defined.

Definition key_eqb (x y : key) : bool := if key_eq_dec x y then true else false.

(** [d[k]], [None] standing for a missing key. *)
Fixpoint dict_get {V} (d : list (key * V)) (k : key) : option V :=
  match d with
  | [] => None
  | (k', v) :: d' => if key_eqb k k' then Some v else dict_get d' k
  end.

(** [d[k] = v]: an existing key keeps its position, a new one goes last. *)
Fixpoint dict_set {V} (d : list (key * V)) (k : key) (v : V) : list (key * V) :=
  match d with
  | [] => [(k, v)]
  | (k', v') :: d' =>
      if key_eqb k k' then (k', v) :: d' else (k', v') :: dict_set d' k v
  end.

Definition dict_keys {V} (d : list (key * V)) : list key := map fst d.

(** ** Decimal formatting: ["%d" % n] *)

(** Digits of [n], most significant first; [fuel] bounds the number of
    digits after the first (the binary logarithm of [n] is enough, see
    [fmt_nat_value]). *)
Fixpoint fmt_digits (fuel : nat) (n : N) : bytes :=
  match fuel with
  | O => [digit_byte (n mod 10)]
  | S fuel' =>
      if (n / 10 =? 0)%N then [digit_byte (n mod 10)]
      else fmt_digits fuel' (n / 10) ++ [digit_byte (n mod 10)]
  end.

Definition fmt_nat (n : N) : bytes := fmt_digits (N.to_nat (N.log2 n)) n.

Definition fmt_int (i : Z) : bytes :=
  if (i <? 0)%Z then "-"%byte :: fmt_nat (Z.to_N (- i)) else fmt_nat (Z.to_N i).

(** The decoder's view of a digit string. *)
Definition digit_step (a : Z) (c : byte) : Z := (a * 10 + int_of_digit c)%Z.

(** The number a digit string denotes when read after a prefix worth [n]. *)
Definition digits_value (ds : bytes) (n : Z) : Z := fold_left digit_step ds n.

(** ** Ordering of keys and [sorted] *)

(** [x <= y] on bytes objects: lexicographic on unsigned byte values. *)
Fixpoint bytes_leb (x y : bytes) : bool :=
  match x, y with
  | [], _ => true
  | _ :: _, [] => false
  | a :: x', c :: y' =>
      if (byte_val a <? byte_val c)%Z then true
      else if (byte_val c <? byte_val a)%Z then false
      else bytes_leb x' y'
  end.

(** Comparison of two keys; [None] when Python raises [TypeError]
    (bytes against int). *)
Definition key_leb (x y : key) : option bool :=
  match x, y with
  | KBytes s, KBytes t => Some (bytes_leb s t)
  | KInt i, KInt j => Some (i <=? j)%Z
  | _, _ => None
  end.

Definition is_kbytes (k : key) : bool :=
  match k with KBytes _ => true | KInt _ => false end.

Definition key_le (x y : key) : bool :=
  match key_leb x y with Some c => c | None => false end.

Fixpoint insert_sorted (k : key) (l : list key) : list key :=
  match l with
  | [] => [k]
  | k' :: l' => if key_le k k' then k :: l else k' :: insert_sorted k l'
  end.

Fixpoint insertion_sort (l : list key) : list key :=
  match l with
  | [] => []
  | k :: l' => insert_sorted k (insertion_sort l')
  end.

(** [sorted(keys)].  Python's sort is a stable comparison sort; on a list
    of pairwise distinct keys of one type its result is the only ascending
    arrangement, which insertion sort computes too.  With keys of both
    types some comparison meets a bytes and an int and raises
    [TypeError]. *)
Definition sorted (keys : list key) : result (list key) :=
  if forallb is_kbytes keys || forallb (fun k => negb (is_kbytes k)) keys
  then Ok (insertion_sort keys)
  else Raise TypeError.

(** Keys in ascending order. *)
Definition ascending (l : list key) : Prop :=
  StronglySorted (fun x y => key_le x y = true) l.

Definition all_kbytes (l : list key) : Prop := forallb is_kbytes l = true.

(** ** bencode *)

Definition bencode_key (k : key) : bytes :=
  match k with
  | KBytes s => fmt_int (Z.of_nat (length s)) ++ b ":" ++ s
  | KInt i => b "i" ++ fmt_int i ++ b "e"
  end.

(** Concatenation of the encodings of a list, stopping at the first
    exception. *)
Fixpoint concat_results (l : list (result bytes)) : result bytes :=
  match l with
  | [] => Ok []
  | r :: l' => x <- r ;; rest <- concat_results l' ;; Ok (x ++ rest)
  end.

(** [bencode(data)], the bytes appended to the buffer.  In the mapping
    case the values are encoded where they stand in the dictionary and
    picked up by key in sorted order, which is [bencode(data[key], buf)]
    for each [key in sorted(data.keys())]. *)
Fixpoint bencode (data : value) : result bytes :=
  match data with
  | Bytes s => Ok (fmt_int (Z.of_nat (length s)) ++ b ":" ++ s)
  | Int i => Ok (b "i" ++ fmt_int i ++ b "e")
  | Dict d =>
      let encoded :=
        (fix enc (d : list (key * value)) : list (key * result bytes) :=
           match d with
           | [] => []
           | (k, v) :: d' => (k, bencode v) :: enc d'
           end) d in
      keys <- sorted (dict_keys d) ;;
      body <- concat_results
                (map (fun k =>
                        match dict_get encoded k with
                        | Some r => x <- r ;; Ok (bencode_key k ++ x)
                        | None => Raise KeyError
                        end) keys) ;;
      Ok (b "d" ++ body ++ b "e")
  | List l =>
      body <- concat_results (map bencode l) ;;
      Ok (b "l" ++ body ++ b "e")
  end.

(** [bencode] succeeds on [v]. *)
Definition encodable (v : value) : Prop := exists enc, bencode v = Ok enc.

(** ** bdecode *)

(** [data.read(1)] on the rest of the stream. *)
Definition read1 (data : bytes) : option byte * bytes :=
  match data with
  | [] => (None, [])
  | c :: data' => (Some c, data')
  end.

(** The loop [while current and current in digits: n *= 10; n += int(current);
    current = data.read(1)], entered with a byte in [current]. *)
Fixpoint digits_loop (n : Z) (current : byte) (data : bytes)
  : Z * option byte * bytes :=
  if is_digit current then
    match data with
    | [] => ((n * 10 + int_of_digit current)%Z, None, [])
    | c :: data' => digits_loop (n * 10 + int_of_digit current)%Z c data'
    end
  else (n, Some current, data).

Definition digits_loop_opt (n : Z) (current : option byte) (data : bytes)
  : Z * option byte * bytes :=
  match current with
  | None => (n, None, data)
  | Some c => digits_loop n c data
  end.

Definition is_byte (current : option byte) (c : byte) : bool :=
  match current with
  | Some c' => if byte_eq_dec c' c then true else false
  | None => false
  end.

(** [d[key] = value] needs a hashable key: lists and dicts are not. *)
Definition hashable (v : value) : result key :=
  match v with
  | Bytes s => Ok (KBytes s)
  | Int i => Ok (KInt i)
  | List _ | Dict _ => Raise TypeError
  end.

(** The inner function [aux(data, magic)] of [bdecode], on the unread rest
    of the stream; it returns the decoded object and the new rest.
    [aux] is entered with [magic] already read; [aux_read] is the call
    [aux(data)], which reads it first (at the end of the input [magic] is
    [b''], which [in digits] holds of, and the separator test raises). *)
Fixpoint aux (fuel : nat) (magic : byte) (data : bytes) {struct fuel}
  : result (value * bytes) :=
  match fuel with
  | O => OutOfFuel
  | S fuel =>
      if is_digit magic then
        let '(len, current, data) := digits_loop 0 magic data in
        if negb (is_byte current ":") then Raise ValueError
        else
          let s := firstn (Z.to_nat len) data in
          if negb (Z.of_nat (length s) =? len)%Z then Raise ValueError
          else Ok (Bytes s, skipn (Z.to_nat len) data)
      else if byte_eq_dec magic "i" then
        let '(current, data) := read1 data in
        let '(i, current, data) := digits_loop_opt 0 current data in
        if negb (is_byte current "e") then Raise ValueError
        else Ok (Int i, data)
      else if byte_eq_dec magic "d" then
        let '(current, data) := read1 data in
        dict_loop fuel current [] data
      else if byte_eq_dec magic "l" then
        let '(current, data) := read1 data in
        list_loop fuel current [] data
      else Raise ValueError
  end

with aux_read (fuel : nat) (data : bytes) {struct fuel}
  : result (value * bytes) :=
  match fuel with
  | O => OutOfFuel
  | S fuel =>
      match data with
      | [] => Raise ValueError
      | magic :: data => aux fuel magic data
      end
  end

with dict_loop (fuel : nat) (current : option byte) (d : dict) (data : bytes)
  {struct fuel} : result (value * bytes) :=
  match fuel with
  | O => OutOfFuel
  | S fuel =>
      match current with
      | None => Raise ValueError
      | Some c =>
          if byte_eq_dec c "e" then Ok (Dict d, data)
          else
            '(k, data) <- aux fuel c data ;;
            '(v, data) <- aux_read fuel data ;;
            k <- hashable k ;;
            let '(current, data) := read1 data in
            dict_loop fuel current (dict_set d k v) data
      end
  end

with list_loop (fuel : nat) (current : option byte) (l : list value)
  (data : bytes) {struct fuel} : result (value * bytes) :=
  match fuel with
  | O => OutOfFuel
  | S fuel =>
      match current with
      | None => Raise ValueError
      | Some c =>
          if byte_eq_dec c "e" then Ok (List l, data)
          else
            '(v, data) <- aux fuel c data ;;
            let '(current, data) := read1 data in
            list_loop fuel current (l ++ [v]) data
      end
  end.

(** Fuel that lets [aux_read] run to completion on [data]
    (see [aux_read_enough]). *)
Definition decode_fuel (data : bytes) : nat := 2 * length data + 3.

(** [bdecode(data, offset=0)]: the stream is opened on all of [data] and
    [offset] is not used by the body. *)
Definition bdecode (data : bytes) (offset : Z) : result value :=
  '(v, _) <- aux_read (decode_fuel data) data ;; Ok v.

(** [enc] is read back as [v] by [aux], whatever follows it in the
    stream, given enough fuel. *)
Definition decodes_to (enc : bytes) (v : value) : Prop :=
  exists m cs fuel0,
    enc = m :: cs /\ m <> "e"%byte /\
    forall fuel s, fuel0 <= fuel -> aux fuel m (cs ++ s) = Ok (v, s).

(** [aux] reads all of [data], and nothing more, as [v]. *)
Definition decodes_exactly (data : bytes) (v : value) : Prop :=
  aux_read (decode_fuel data) data = Ok (v, []).

(** ** Values the codec is specified on *)

Fixpoint nodupb (l : list key) : bool :=
  match l with
  | [] => true
  | k :: l' => negb (existsb (key_eqb k) l') && nodupb l'
  end.

(** A value tree as the specification has it: every mapping has bytes
    keys, pairwise distinct. *)
Fixpoint constructible (v : value) : bool :=
  match v with
  | Bytes _ | Int _ => true
  | List l => forallb constructible l
  | Dict d =>
      forallb is_kbytes (dict_keys d) && nodupb (dict_keys d) &&
      forallb (fun kv => constructible (snd kv)) d
  end.

(** No negative integer anywhere in the tree. *)
Fixpoint nonneg (v : value) : bool :=
  match v with
  | Bytes _ => true
  | Int i => (0 <=? i)%Z
  | List l => forallb nonneg l
  | Dict d => forallb (fun kv => nonneg (snd kv)) d
  end.

(** A constructible tree without negative integers. *)
Definition plain (v : value) : Prop :=
  constructible v = true /\ nonneg v = true.

(** [[(key, d[key]) for key in sorted(d.keys())]]. *)
Definition sorted_items {V} (d : list (key * V)) : list (key * V) :=
  flat_map (fun k => match dict_get d k with
                     | Some v => [(k, v)]
                     | None => []
                     end)
           (insertion_sort (dict_keys d)).

(** The same tree with every mapping in ascending key order. *)
Fixpoint canon (v : value) : value :=
  match v with
  | Bytes _ | Int _ => v
  | List l => List (map canon l)
  | Dict d => Dict (sorted_items (map (fun kv => (fst kv, canon (snd kv))) d))
  end.

(** Python's [x == y] on values: dictionaries compare as mappings,
    whatever their insertion order. *)
Fixpoint py_eq (x y : value) : bool :=
  match x, y with
  | Bytes s, Bytes t => if bytes_eq_dec s t then true else false
  | Int i, Int j => (i =? j)%Z
  | List l, List m =>
      (fix go (l m : list value) : bool :=
         match l, m with
         | [], [] => true
         | a :: l', c :: m' => py_eq a c && go l' m'
         | _, _ => false
         end) l m
  | Dict d, Dict e =>
      (length d =? length e) &&
      forallb (fun kv => match dict_get e (fst kv) with
                         | Some w => py_eq (snd kv) w
                         | None => false
                         end) d
  | _, _ => false
  end.

(** [bencode] succeeds on [v] and [aux] reads the result back as [v] with
    its mappings in key order. *)
Definition roundtrips (v : value) : Prop :=
  exists enc, bencode v = Ok enc /\ decodes_to enc (canon v).

(** ** hashlib *)

(** The digests of [hashlib]: [sha1 x] is [sha1(x).digest()], always 20
    bytes, and [md5 x] is [md5(x).digest()]. *)
Class Hashlib := {
  sha1 : bytes -> bytes;
  sha1_length : forall x, length (sha1 x) = 20;
  md5 : bytes -> bytes
}.

Definition hex_digit (n : N) : byte :=
  match Byte.of_N (if (n <? 10)%N then 48 + n else 87 + n) with
  | Some c => c
  | None => "0"%byte
  end.

(** [digest.hex()], the text of [hexdigest()]. *)
Definition hexlify (d : bytes) : bytes :=
  flat_map (fun c => [hex_digit (Byte.to_N c / 16); hex_digit (Byte.to_N c mod 16)]) d.

Definition unhex_digit (c : byte) : N :=
  let n := Byte.to_N c in if (n <? 58)%N then n - 48 else n - 87.

Fixpoint unhexlify (h : bytes) : bytes :=
  match h with
  | hi :: lo :: h' =>
      match Byte.of_N (16 * unhex_digit hi + unhex_digit lo) with
      | Some c => c :: unhexlify h'
      | None => []
      end
  | _ => []
  end.

(** ** The file system *)

(** A file with its content and whether it may be opened for reading, or
    a directory with its entries in the order the system lists them. *)
#[warnings="-register-all"]
Inductive node :=
| File (content : bytes) (readable : bool)
| Dir (entries : list (bytes * node)).

(** A path, as its components below the working directory; the empty
    path is the working directory itself. *)
Definition path := list bytes.

Fixpoint lookup (n : node) (p : path) : option node :=
  match p with
  | [] => Some n
  | name :: p' =>
      match n with
      | File _ _ => None
      | Dir entries =>
          (fix find (entries : list (bytes * node)) : option node :=
             match entries with
             | [] => None
             | (name', child) :: rest =>
                 if bytes_eq_dec name name' then lookup child p' else find rest
             end) entries
      end
  end.

(** [path.getsize] of a file with this content. *)
Definition getsize (content : bytes) : Z := Z.of_nat (length content).

(** The file at [p] gets [content]: an existing file keeps its mode, a
    missing one is created in an existing directory; a directory at [p]
    or a missing parent raises [OSError]. *)
Fixpoint put_file (n : node) (p : path) (content : bytes) : result node :=
  match p with
  | [] =>
      match n with
      | File _ readable => Ok (File content readable)
      | Dir _ => Raise OSError
      end
  | name :: p' =>
      match n with
      | File _ _ => Raise OSError
      | Dir entries =>
          entries' <-
            (fix put (entries : list (bytes * node))
               : result (list (bytes * node)) :=
               match entries with
               | [] =>
                   match p' with
                   | [] => Ok [(name, File content true)]
                   | _ :: _ => Raise OSError
                   end
               | (name', child) :: rest =>
                   if bytes_eq_dec name name'
                   then child' <- put_file child p' content ;;
                        Ok ((name', child') :: rest)
                   else rest' <- put rest ;; Ok ((name', child) :: rest')
               end) entries ;;
          Ok (Dir entries')
      end
  end.

(** [open(p, 'wb')]: the file is created, or truncated. *)
Definition open_wb (fs : node) (p : path) : result node := put_file fs p [].

(** The files [os.walk] visits below a directory, top-down: the files of
    a directory in listing order, then its subdirectories in turn; each
    with its path relative to the top. *)
Fixpoint walk (prefix : path) (n : node) : list (path * (bytes * bool)) :=
  match n with
  | File _ _ => []
  | Dir entries =>
      flat_map (fun e => match snd e with
                         | File content readable =>
                             [(prefix ++ [fst e], (content, readable))]
                         | Dir _ => []
                         end) entries ++
      flat_map (fun e => match snd e with
                         | File _ _ => []
                         | Dir _ => walk (prefix ++ [fst e]) (snd e)
                         end) entries
  end.

(** [path.basename(path.normpath(filename))]. *)
Definition basename (p : path) : bytes := last p (b ".").

(** [filename + b'.torrent']. *)
Definition torrent_name (p : path) : path :=
  match rev p with
  | [] => [b "..torrent"]
  | name :: init => rev init ++ [name ++ b ".torrent"]
  end.

(** Every file of a walk may be opened. *)
Definition all_readable (entries : list (path * (bytes * bool))) : bool :=
  forallb (fun e => snd (snd e)) entries.

(** The logical byte stream of a walk. *)
Definition walk_content (entries : list (path * (bytes * bool))) : bytes :=
  concat (map (fun e => fst (snd e)) entries).

(** ** Hashing the pieces *)

(** [f.read(n)] on the unread rest of a file: the bytes read and the new
    rest.  [n = -1] reads everything; a smaller [n] raises [ValueError]
    (the read length must be non-negative or -1).  Sizes are taken below
    [2^63], beyond which the interpreter raises [OverflowError], and
    memory to suffice for the bytes asked for. *)
Definition read (n : Z) (f : bytes) : result (bytes * bytes) :=
  if (n <? -1)%Z then Raise ValueError
  else if (n <? 0)%Z then Ok (f, [])
  else Ok (firstn (Z.to_nat n) f, skipn (Z.to_nat n) f).

(** A value with the proof that it is what was computed. *)
Definition inspect {A} (a : A) : {x : A | a = x} := exist _ a eq_refl.

Section Hashing.
Context {H : Hashlib}.

(** The read loop of the single-file branch; it returns [pieces] and the
    bytes fed to [md5sum.update]. *)
Equations hash_file_loop (piece_length : Z) (f : bytes) (pieces fed : bytes)
  : result (bytes * bytes) by wf (length f) lt :=
  hash_file_loop piece_length f pieces fed
    with inspect (read piece_length f) := {
    | exist _ (Raise e) _ => Raise e
    | exist _ OutOfFuel _ => OutOfFuel
    | exist _ (Ok (chunk, rest)) Hread with Nat.eq_dec (length chunk) 0 := {
      | left _ => Ok (pieces, fed)
      | right Hne =>
          if (Z.of_nat (length chunk) <? piece_length)%Z
          then Ok (pieces ++ sha1 chunk, fed ++ chunk)
          else hash_file_loop piece_length rest
                              (pieces ++ sha1 chunk) (fed ++ chunk) } }.
Next Obligation.
  unfold read in *. destruct (_ <? -1)%Z; [discriminate|].
  destruct (_ <? 0)%Z; injection Hread as <- <-; simpl in *; [lia|].
  rewrite length_firstn in *. rewrite length_skipn. lia.
Qed.

(** The read loop of the directory branch, for one file; it returns
    [incomplete_chunk], [pieces] and the bytes fed to [md5sum.update]. *)
Equations hash_dir_loop (piece_length : Z) (f : bytes)
  (incomplete_chunk pieces fed : bytes)
  : result (bytes * bytes * bytes) by wf (length f) lt :=
  hash_dir_loop piece_length f incomplete_chunk pieces fed
    with inspect (read (piece_length - Z.of_nat (length incomplete_chunk)) f) := {
    | exist _ (Raise e) _ => Raise e
    | exist _ OutOfFuel _ => OutOfFuel
    | exist _ (Ok (chunk, rest)) Hread with Nat.eq_dec (length chunk) 0 := {
      | left _ => Ok (incomplete_chunk, pieces, fed)
      | right Hne =>
          if (Z.of_nat (length incomplete_chunk + length chunk) <? piece_length)%Z
          then Ok (incomplete_chunk ++ chunk, pieces, fed ++ chunk)
          else hash_dir_loop piece_length rest
                 [] (pieces ++ sha1 (incomplete_chunk ++ chunk))
                 (fed ++ chunk) } }.
Next Obligation.
  unfold read in *. destruct (_ <? -1)%Z; [discriminate|].
  destruct (_ <? 0)%Z; injection Hread as <- <-; simpl in *; [lia|].
  rewrite length_firstn in *. rewrite length_skipn. lia.
Qed.

End Hashing.

(** *** Pieces, as the specification words them *)

(** The [k]-th window of [L] bytes of [data]. *)
Definition window (L : nat) (data : bytes) (k : nat) : bytes :=
  firstn L (skipn (k * L) data).

(** One chunk per [L]-byte window of [data], the last one shorter when
    the length of [data] is not a multiple of [L]. *)
Definition chunks (L : nat) (data : bytes) : list bytes :=
  map (window L data) (seq 0 ((length data + L - 1) / L)).

(** The windows of exactly [L] bytes, and the bytes after them. *)
Definition full_chunks (L : nat) (data : bytes) : list bytes :=
  map (window L data) (seq 0 (length data / L)).

Definition remainder (L : nat) (data : bytes) : bytes :=
  skipn (length data / L * L) data.

(** ** The Merkle root *)

(** [l[i:j]] and [l[i:j] = x] for [0 <= i <= j]. *)
Definition slice (l : bytes) (i j : nat) : bytes := firstn (j - i) (skipn i l).

Definition slice_assign (l : bytes) (i j : nat) (x : bytes) : bytes :=
  firstn i l ++ x ++ skipn j l.

(** [range(0, stop, 20)]. *)
Definition range20 (stop : nat) : list nat :=
  map (fun k => 20 * k) (seq 0 ((stop + 19) / 20)).

(** A [while cond: body] loop with a bound on its rounds; it returns the
    final state and the number of rounds executed. *)
Fixpoint while_loop {S} (cond : S -> bool) (body : S -> S) (fuel : nat) (s : S)
  : result (S * nat) :=
  if cond s then
    match fuel with
    | O => OutOfFuel
    | Datatypes.S fuel' =>
        '(s', rounds) <- while_loop cond body fuel' (body s) ;;
        Ok (s', Datatypes.S rounds)
    end
  else Ok (s, 0).

(** [20 * b"\0"], the padding of the first level. *)
Definition zero_padding : bytes := repeat "000"%byte 20.

(** Every unit is a 20-byte hash. *)
Definition hashes (units : list bytes) : Prop :=
  Forall (fun u => length u = 20) units.

Definition hashesb (units : list bytes) : bool :=
  forallb (fun u => length u =? 20) units.

(** [pieces] is a concatenation of 20-byte hashes. *)
Definition hash_string (pieces : bytes) : Prop :=
  exists units, pieces = concat units /\ hashes units.

(** An odd number of units gets one padding unit. *)
Definition pad_units (units : list bytes) (padding : bytes) : list bytes :=
  if Nat.odd (length units) then units ++ [padding] else units.

Section Merkle.
Context {H : Hashlib}.

(** One round of the reduction loop on [(pieces, padding)]. *)
Definition merkle_round (st : bytes * bytes) : bytes * bytes :=
  let '(pieces, padding) := st in
  let pieces :=
    if Nat.eqb (length pieces mod 40) 0 then pieces else pieces ++ padding in
  let pieces :=
    fold_left (fun pieces i =>
                 slice_assign pieces i (i + 20)
                              (sha1 (slice pieces (2 * i) (2 * i + 40))))
              (range20 (length pieces / 2)) pieces in
  let pieces := firstn (length pieces / 2) pieces in
  (pieces, sha1 (padding ++ padding)).

Definition merkle_cond (st : bytes * bytes) : bool := 20 <? length (fst st).

(** The loop [while len(pieces) > 20], started with [padding = 20 *
    b"\0"] and run for at most [fuel] rounds. *)
Definition merkle_loop (fuel : nat) (pieces : bytes)
  : result (bytes * bytes * nat) :=
  while_loop merkle_cond merkle_round fuel (pieces, zero_padding).

(** The root hash: the loop never needs more rounds than [pieces] has
    bytes (see [merkle_root_total]). *)
Definition merkle_root (pieces : bytes) : result bytes :=
  '(st, _) <- merkle_loop (length pieces) pieces ;; Ok (fst st).

(** *** The reduction as the specification words it *)

(** Each adjacent pair [(a, c)] replaced by [digest(a || c)]. *)
Fixpoint pair_up (units : list bytes) : list bytes :=
  match units with
  | a :: c :: rest => sha1 (a ++ c) :: pair_up rest
  | _ => []
  end.

(** While more than one unit remains: pad an odd count with the level's
    padding value, combine the pairs, and take [digest(padding ||
    padding)] as the next level's padding. *)
Fixpoint tree_reduce (fuel : nat) (units : list bytes) (padding : bytes)
  : list bytes :=
  match fuel with
  | O => units
  | S fuel' =>
      if 1 <? length units then
        let units := if Nat.odd (length units) then units ++ [padding] else units in
        tree_reduce fuel' (pair_up units) (sha1 (padding ++ padding))
      else units
  end.

Definition tree_root (units : list bytes) : list bytes :=
  tree_reduce (length units) units zero_padding.

End Merkle.

(** ** Metainfo *)

(** The keyword arguments of [Metainfo]; an absent list or comment is the
    empty one, which the constructor treats alike. *)
Record options := {
  announce : list (list bytes);
  nodes : list (bytes * Z);
  httpseeds : list bytes;
  url_list : list bytes;
  comment : bytes;
  piece_length : Z;
  private : bool;
  md5sum : bool;
  merkle : bool
}.

(** The dictionary a [Metainfo] object is, and its shortcut attributes. *)
Record metainfo := {
  as_dict : dict;
  info : dict;
  mi_announce : list (list bytes);
  mi_url_list : list bytes;
  mi_name : bytes;
  mi_length : option Z
}.

Definition fullname : bytes := b "gentorrent 1.0".

Definition bytes_list (l : list bytes) : value := List (map Bytes l).

Definition announce_value (a : list (list bytes)) : value :=
  List (map bytes_list a).

(** A node is a tuple [(host, port)].  [bencode] writes a tuple as it
    writes a list, and [value] has one constructor for both; a node
    that [bdecode] reads back is a list, which Python's [==] tells from
    a tuple. *)
Definition nodes_value (n : list (bytes * Z)) : value :=
  List (map (fun hp => List [Bytes (fst hp); Int (snd hp)]) n).

Definition nonempty {A} (l : list A) : bool :=
  match l with [] => false | _ :: _ => true end.

Section Metainfo.
Context {H : Hashlib}.

(** The body of [for filename in filenames] for one file of the walk, on
    the state [(files, incomplete_chunk, pieces)]. *)
Definition hash_walked_file (o : options)
  (st : list value * bytes * bytes) (entry : path * (bytes * bool))
  : result (list value * bytes * bytes) :=
  let '(files, incomplete_chunk, pieces) := st in
  let '(relpath, (content, readable)) := entry in
  let filedict := dict_set [] (KBytes (b "path")) (bytes_list relpath) in
  let filedict := dict_set filedict (KBytes (b "length")) (Int (getsize content)) in
  if negb readable then Raise OSError
  else
    '(incomplete_chunk, pieces, fed) <-
      hash_dir_loop (piece_length o) content incomplete_chunk pieces [] ;;
    let filedict :=
      if md5sum o
      then dict_set filedict (KBytes (b "md5sum")) (Bytes (hexlify (md5 fed)))
      else filedict in
    Ok (files ++ [Dict filedict], incomplete_chunk, pieces).

Fixpoint hash_walk (o : options) (st : list value * bytes * bytes)
  (entries : list (path * (bytes * bool)))
  : result (list value * bytes * bytes) :=
  match entries with
  | [] => Ok st
  | entry :: entries' =>
      st' <- hash_walked_file o st entry ;; hash_walk o st' entries'
  end.

(** The part of [__init__] that fills [info] from the file or directory
    at [filename]: the entries added to [info] and [pieces].  The three
    cases are [path.isfile(filename)], [path.isdir(filename)] and
    neither; opening a file that may not be read raises [OSError], and
    [f.read] raises [ValueError] on a piece length below -1. *)
Definition hash_content (fs : node) (filename : path) (o : options)
  (info : dict) : result (dict * bytes) :=
  match lookup fs filename with
  | Some (File content readable) =>
      let info := dict_set info (KBytes (b "length")) (Int (getsize content)) in
      if negb readable then Raise OSError
      else
        '(pieces, fed) <- hash_file_loop (piece_length o) content [] [] ;;
        let info :=
          if md5sum o
          then dict_set info (KBytes (b "md5sum")) (Bytes (hexlify (md5 fed)))
          else info in
        Ok (info, pieces)
  | Some (Dir entries) =>
      '(files, incomplete_chunk, pieces) <-
        hash_walk o ([], [], []) (walk [] (Dir entries)) ;;
      let info := dict_set info (KBytes (b "files")) (List files) in
      let pieces :=
        if nonempty incomplete_chunk
        then pieces ++ sha1 incomplete_chunk
        else pieces in
      Ok (info, pieces)
  | None => Ok (info, [])
  end.

(** [Metainfo(filename, **o)], run at time [now] on the file system
    [fs].  [self[b"info"]] and [info] are one object, so the dictionary
    holds the finished [info]. *)
Definition Metainfo_init (fs : node) (filename : path) (o : options) (now : Z)
  : result metainfo :=
  self <-
    match announce o with
    | [] => Ok []
    | [] :: _ => Raise IndexError
    | (tracker :: _) :: _ =>
        let self := dict_set [] (KBytes (b "announce")) (Bytes tracker) in
        Ok (if (1 <? length (hd [] (announce o))) || (1 <? length (announce o))
            then dict_set self (KBytes (b "announce-list"))
                          (announce_value (announce o))
            else self)
    end ;;
  let self := if nonempty (nodes o)
              then dict_set self (KBytes (b "nodes")) (nodes_value (nodes o))
              else self in
  let self := if nonempty (httpseeds o)
              then dict_set self (KBytes (b "httpseeds")) (bytes_list (httpseeds o))
              else self in
  let self := if nonempty (url_list o)
              then dict_set self (KBytes (b "url-list")) (bytes_list (url_list o))
              else self in
  let self := dict_set self (KBytes (b "creation date")) (Int now) in
  let self := if nonempty (comment o)
              then dict_set self (KBytes (b "comment")) (Bytes (comment o))
              else self in
  let self := dict_set self (KBytes (b "created by")) (Bytes fullname) in
  let self := dict_set self (KBytes (b "info")) (Dict []) in
  let info := dict_set [] (KBytes (b "piece length")) (Int (piece_length o)) in
  let info := if private o
              then dict_set info (KBytes (b "private")) (Int 1)
              else info in
  let info := dict_set info (KBytes (b "name")) (Bytes (basename filename)) in
  '(info, pieces) <- hash_content fs filename o info ;;
  info <-
    (if merkle o
     then root <- merkle_root pieces ;;
          Ok (dict_set info (KBytes (b "root hash")) (Bytes root))
     else Ok (dict_set info (KBytes (b "pieces")) (Bytes pieces))) ;;
  Ok {| as_dict := dict_set self (KBytes (b "info")) (Dict info);
        info := info;
        mi_announce := announce o;
        mi_url_list := url_list o;
        mi_name := basename filename;
        mi_length := match dict_get info (KBytes (b "length")) with
                     | Some (Int n) => Some n
                     | _ => None
                     end |}.

(** The [infohash] property (its value does not depend on the cache). *)
Definition infohash (m : metainfo) : result bytes :=
  enc <- bencode (Dict (info m)) ;; Ok (hexlify (sha1 enc)).

(** ** main *)

(** The parsed command line. *)
Record cli := {
  cli_filename : path;
  cli_output : option path;
  cli_announce : list (list bytes);
  cli_nodes : list (bytes * Z);
  cli_httpseeds : list bytes;
  cli_url_list : list bytes;
  cli_comment : bytes;
  cli_piece_length : option Z;
  cli_md5sum : bool;
  cli_private : bool;
  cli_merkle : bool
}.

(** [func_args]: an absent or zero [--piece-length] leaves the default. *)
Definition func_args (a : cli) : options :=
  {| announce := cli_announce a;
     nodes := cli_nodes a;
     httpseeds := cli_httpseeds a;
     url_list := cli_url_list a;
     comment := cli_comment a;
     piece_length := match cli_piece_length a with
                     | Some n => if (n =? 0)%Z then 256 * 1024 else n
                     | None => 256 * 1024
                     end;
     private := cli_private a;
     md5sum := cli_md5sum a;
     merkle := cli_merkle a |}.

Definition infoname (a : cli) : path :=
  match cli_output a with
  | Some p => p
  | None => torrent_name (cli_filename a)
  end.

(** The [with open(infoname, 'wb') as infofile] block of [main]: the file
    system it leaves, and how it ended. *)
Definition main (fs : node) (a : cli) (now : Z) : node * result unit :=
  match open_wb fs (infoname a) with
  | Ok fs1 =>
      match (metainfo <- Metainfo_init fs1 (cli_filename a) (func_args a) now ;;
             bencode (Dict (as_dict metainfo))) with
      | Ok data =>
          match put_file fs1 (infoname a) data with
          | Ok fs2 => (fs2, Ok tt)
          | Raise e => (fs1, Raise e)
          | OutOfFuel => (fs1, OutOfFuel)
          end
      | Raise e => (fs1, Raise e)
      | OutOfFuel => (fs1, OutOfFuel)
      end
  | Raise e => (fs, Raise e)
  | OutOfFuel => (fs, OutOfFuel)
  end.

End Metainfo.

(** *** The two halves of the constructor *)

(** The options that reach [info]. *)
Definition same_descriptor_options (o1 o2 : options) : Prop :=
  piece_length o1 = piece_length o2 /\ private o1 = private o2 /\
  md5sum o1 = md5sum o2 /\ merkle o1 = merkle o2.

Section MetainfoParts.
Context {H : Hashlib}.

(** The [info] dictionary [Metainfo_init] builds (see
    [Metainfo_init_inv]). *)
Definition build_info (fs : node) (filename : path) (o : options)
  : result dict :=
  let info := dict_set [] (KBytes (b "piece length")) (Int (piece_length o)) in
  let info := if private o
              then dict_set info (KBytes (b "private")) (Int 1)
              else info in
  let info := dict_set info (KBytes (b "name")) (Bytes (basename filename)) in
  '(info, pieces) <- hash_content fs filename o info ;;
  if merkle o
  then root <- merkle_root pieces ;;
       Ok (dict_set info (KBytes (b "root hash")) (Bytes root))
  else Ok (dict_set info (KBytes (b "pieces")) (Bytes pieces)).

(** The entries of a [Metainfo] before [info]. *)
Definition build_self (o : options) (now : Z) : result dict :=
  self <-
    match announce o with
    | [] => Ok []
    | [] :: _ => Raise IndexError
    | (tracker :: _) :: _ =>
        let self := dict_set [] (KBytes (b "announce")) (Bytes tracker) in
        Ok (if (1 <? length (hd [] (announce o))) || (1 <? length (announce o))
            then dict_set self (KBytes (b "announce-list"))
                          (announce_value (announce o))
            else self)
    end ;;
  let self := if nonempty (nodes o)
              then dict_set self (KBytes (b "nodes")) (nodes_value (nodes o))
              else self in
  let self := if nonempty (httpseeds o)
              then dict_set self (KBytes (b "httpseeds")) (bytes_list (httpseeds o))
              else self in
  let self := if nonempty (url_list o)
              then dict_set self (KBytes (b "url-list")) (bytes_list (url_list o))
              else self in
  let self := dict_set self (KBytes (b "creation date")) (Int now) in
  let self := if nonempty (comment o)
              then dict_set self (KBytes (b "comment")) (Bytes (comment o))
              else self in
  let self := dict_set self (KBytes (b "created by")) (Bytes fullname) in
  Ok (dict_set self (KBytes (b "info")) (Dict [])).

End MetainfoParts.

(** ** Sample data *)

(** A stand-in digest, for running the model on examples: the low bytes
    of a polynomial in the input bytes. *)
Definition poly (x : bytes) : N :=
  fold_left (fun a c => a * 257 + Byte.to_N c + 1)%N x 7%N.

Definition nth_byte (a : N) (j : nat) : byte :=
  match Byte.of_N ((a / 256 ^ N.of_nat j) mod 256)%N with
  | Some c => c
  | None => "000"%byte
  end.

Definition sample_sha1 (x : bytes) : bytes := map (nth_byte (poly x)) (seq 0 20).

Definition sample_hashlib : Hashlib :=
  {| sha1 := sample_sha1;
     sha1_length := fun x => eq_trans (length_map _ _) (length_seq _ _);
     md5 := fun x => map (nth_byte (poly x)) (seq 3 16) |}.

Definition sample_dict : dict :=
  [(KBytes (b "spam"), List [Bytes (b "a"); Bytes (b "b")]);
   (KBytes (b "cow"), Int 30)].

Definition sample_dict_sorted : dict :=
  [(KBytes (b "cow"), Int 30);
   (KBytes (b "spam"), List [Bytes (b "a"); Bytes (b "b")])].

Definition sample_h1 : bytes := repeat "a"%byte 20.
Definition sample_h2 : bytes := repeat "b"%byte 20.
Definition sample_h3 : bytes := repeat "c"%byte 20.

Definition sample_options : options :=
  {| announce := [[b "http://tracker/announce"]];
     nodes := []; httpseeds := []; url_list := []; comment := [];
     piece_length := 4; private := false; md5sum := false; merkle := false |}.

Definition sample_cli (name : bytes) : cli :=
  {| cli_filename := [name]; cli_output := None;
     cli_announce := [[b "http://tracker/announce"]];
     cli_nodes := []; cli_httpseeds := []; cli_url_list := [];
     cli_comment := []; cli_piece_length := Some 4%Z;
     cli_md5sum := false; cli_private := false; cli_merkle := false |}.

Definition sample_album : list (bytes * node) :=
  [(b "a", File (b "ab") true);
   (b "sub", Dir [(b "c", File (b "cdefg") true)]);
   (b "b", File (b "hi") true)].

Definition sample_fs : node :=
  Dir [(b "video", File (b "0123456789") true);
       (b "locked", File (b "secret") false);
       (b "locked.torrent", File (b "an earlier torrent") true);
       (b "album", Dir sample_album)].

Definition sample_options_2 : options :=
  {| announce := [[b "http://a/announce"; b "http://b/announce"]];
     nodes := [(b "router.example.com", 6881%Z)];
     httpseeds := []; url_list := [b "http://mirror/"];
     comment := b "second"; piece_length := 4; private := false;
     md5sum := false; merkle := false |}.

Definition sample_options_3 : options :=
  {| announce := [[b "http://tracker/announce"]];
     nodes := []; httpseeds := []; url_list := []; comment := [];
     piece_length := 5; private := false; md5sum := false; merkle := false |}.

(** The metainfo of [video] in [sample_fs] under [o], built at [now]. *)
Definition sample_build (o : options) (now : Z) : metainfo :=
  match @Metainfo_init sample_hashlib sample_fs [b "video"] o now with
  | Ok m => m
  | _ => {| as_dict := []; info := []; mi_announce := []; mi_url_list := [];
            mi_name := []; mi_length := None |}
  end.

Definition sample_metainfo : metainfo :=
  Eval vm_compute in sample_build sample_options 1000.

Definition sample_metainfo_2 : metainfo :=
  Eval vm_compute in sample_build sample_options_2 2000.

Definition sample_metainfo_3 : metainfo :=
  Eval vm_compute in sample_build sample_options_3 1000.

(** ** bencode on any object *)

(** The objects [bencode] tells apart, in the order of its tests: a
    [str]; a [Bencoded] or [BencodedArray]; a [bytes] or [bytearray]; an
    [int]; a mapping; an iterable; anything else (an object with neither
    [keys] nor [__iter__], such as [None] or a float).  The keys of a
    mapping are bytes or integers, as in [key]. *)
#[warnings="-register-all"]
Inductive obj :=
| OStr (text : bytes)
| OBencoded (raw : bytes)
| OBytes (s : bytes)
| OInt (i : Z)
| ODict (d : list (key * obj))
| OList (l : list obj)
| OOther.

(** [bencode(data)] on any object: the two [TypeError] branches and the
    branch that appends an already encoded string as it is, beside the
    four branches of [bencode] above.  As [bencode] above it stands for
    the call within the limits of the interpreter, which [within_limits]
    below spells out: beyond them ["%d" % data] raises [ValueError] and
    the recursion [RecursionError]. *)
Fixpoint bencode_obj (data : obj) : result bytes :=
  match data with
  | OStr _ => Raise TypeError
  | OBencoded raw => Ok raw
  | OBytes s => Ok (fmt_int (Z.of_nat (length s)) ++ b ":" ++ s)
  | OInt i => Ok (b "i" ++ fmt_int i ++ b "e")
  | ODict d =>
      let encoded :=
        (fix enc (d : list (key * obj)) : list (key * result bytes) :=
           match d with
           | [] => []
           | (k, v) :: d' => (k, bencode_obj v) :: enc d'
           end) d in
      keys <- sorted (dict_keys d) ;;
      body <- concat_results
                (map (fun k =>
                        match dict_get encoded k with
                        | Some r => x <- r ;; Ok (bencode_key k ++ x)
                        | None => Raise KeyError
                        end) keys) ;;
      Ok (b "d" ++ body ++ b "e")
  | OList l =>
      body <- concat_results (map bencode_obj l) ;;
      Ok (b "l" ++ body ++ b "e")
  | OOther => Raise TypeError
  end.

(** A value as an object. *)
Fixpoint obj_of_value (v : value) : obj :=
  match v with
  | Bytes s => OBytes s
  | Int i => OInt i
  | List l => OList (map obj_of_value l)
  | Dict d => ODict (map (fun kv => (fst kv, obj_of_value (snd kv))) d)
  end.

(** No [str] and no other unsupported object anywhere in the tree, and
    no mapping with keys of both types. *)
Fixpoint supported (o : obj) : bool :=
  match o with
  | OStr _ | OOther => false
  | OBencoded _ | OBytes _ | OInt _ => true
  | OList l => forallb supported l
  | ODict d =>
      (forallb is_kbytes (dict_keys d) ||
       forallb (fun k => negb (is_kbytes k)) (dict_keys d)) &&
      forallb (fun kv => supported (snd kv)) d
  end.

(** The keys of every mapping of the tree are pairwise distinct, as
    those of a Python dictionary are. *)
Fixpoint distinct_keys (o : obj) : bool :=
  match o with
  | OList l => forallb distinct_keys l
  | ODict d =>
      nodupb (dict_keys d) && forallb (fun kv => distinct_keys (snd kv)) d
  | _ => true
  end.

(** The limits of the interpreter that [bencode] can meet, at their
    defaults: an integer is written in decimal when it has at most 4300
    digits, and each level of nesting takes one frame of a call stack
    of 1000. *)
Definition int_max_str_digits : Z := 4300.

Definition max_nesting : nat := 900.

Definition printable (i : Z) : bool :=
  (Z.abs i <? 10 ^ int_max_str_digits)%Z.

(** Every integer of the tree, key or value, can be written. *)
Fixpoint ints_printable (o : obj) : bool :=
  match o with
  | OInt i => printable i
  | OList l => forallb ints_printable l
  | ODict d =>
      forallb (fun k => match k with KInt i => printable i | KBytes _ => true end)
              (dict_keys d) &&
      forallb (fun kv => ints_printable (snd kv)) d
  | _ => true
  end.

(** The number of nested lists and mappings. *)
Fixpoint depth (o : obj) : nat :=
  match o with
  | OList l => S (fold_right (fun x n => Nat.max (depth x) n) 0 l)
  | ODict d => S (fold_right (fun kv n => Nat.max (depth (snd kv)) n) 0 d)
  | _ => 0
  end.

Definition within_limits (o : obj) : bool :=
  ints_printable o && (depth o <=? max_nesting).

(** An object replaced by its encoding, marked as encoded. *)
Definition pre_encoded (o : obj) : obj :=
  match bencode_obj o with
  | Ok e => OBencoded e
  | _ => o
  end.

(** A result that is a value or a [TypeError]. *)
Definition ok_or_type_error (r : result bytes) : Prop :=
  (exists e, r = Ok e) \/ r = Raise TypeError.

(** ** Inputs of bdecode that bencode does not write *)

(** The bytes [bencode] produces for [v] (none when it raises). *)
Definition encoding (v : value) : bytes :=
  match bencode v with
  | Ok e => e
  | _ => []
  end.

(** The dictionary the assignments [d[k] = v], made in turn for each
    [(k, v)] of [items], leave from the empty one. *)
Definition assign_all (items : list (bytes * value)) : dict :=
  fold_left (fun d kv => dict_set d (KBytes (fst kv)) (snd kv)) items [].

(** The value of the last pair of [items] whose key is [k]. *)
Definition last_assigned (items : list (bytes * value)) (k : bytes)
  : option value :=
  fold_left (fun r kv => if bytes_eq_dec k (fst kv) then Some (snd kv) else r)
            items None.

(** ** The cases of the constructor *)

(** Whether [announce[0][0]] can be taken when [announce] is not empty. *)
Definition first_tracker_exists (o : options) : bool :=
  match announce o with
  | [] :: _ => false
  | _ => true
  end.


(** The first file that [Metainfo] opens at [filename], when it opens
    one: whether it may be read. *)
Definition first_opened (fs : node) (filename : path) : option bool :=
  match lookup fs filename with
  | Some (File _ readable) => Some readable
  | Some (Dir entries) =>
      match walk [] (Dir entries) with
      | [] => None
      | e :: _ => Some (snd (snd e))
      end
  | None => None
  end.

(** [info] as [__init__] has it before it looks at the content. *)
Definition info_header (filename : path) (o : options) : dict :=
  let info := dict_set [] (KBytes (b "piece length")) (Int (piece_length o)) in
  let info := if private o
              then dict_set info (KBytes (b "private")) (Int 1)
              else info in
  dict_set info (KBytes (b "name")) (Bytes (basename filename)).

(** The key under which the hashes go. *)
Definition hashes_key (o : options) : key :=
  KBytes (if merkle o then b "root hash" else b "pieces").

Section FileEntry.
Context {H : Hashlib}.

(** The entry of [info[b"files"]] for one file of the walk, when the
    whole file is fed to its MD5 sum. *)
Definition file_entry (o : options) (e : path * (bytes * bool)) : value :=
  let filedict := dict_set [] (KBytes (b "path")) (bytes_list (fst e)) in
  let filedict :=
    dict_set filedict (KBytes (b "length")) (Int (getsize (fst (snd e)))) in
  Dict (if md5sum o
        then dict_set filedict (KBytes (b "md5sum"))
                      (Bytes (hexlify (md5 (fst (snd e)))))
        else filedict).

(** The digest of a file read in one piece; nothing for an empty file. *)
Definition whole_file_digest (content : bytes) : bytes :=
  if nonempty content then sha1 content else [].

End FileEntry.

(** ** The magnet link *)

(** A value of the [params] dictionary of [magnet]: a bytes object, a
    string, or a list of bytes objects. *)
Inductive param :=
| PBytes (v : bytes)
| PStr (v : bytes)
| PSeq (l : list bytes).

(** [urlencode(params, doseq=True)] of [urllib.parse], on the items of
    [params] in insertion order. *)
Class Urllib := {
  urlencode : list (bytes * param) -> bytes
}.

Section Magnet.
Context {H : Hashlib} {U : Urllib}.

(** The items of [params] when [magnet] has filled it; its keys are
    pairwise distinct, so each assignment adds an item at the end. *)
Definition magnet_params (m : metainfo) : result (list (bytes * param)) :=
  let params := [(b "dn", PBytes (mi_name m))] in
  let params :=
    match mi_length m with
    | Some n => if (n =? 0)%Z then params
                else params ++ [(b "xl", PBytes (fmt_int n))]
    | None => params
    end in
  xt <- infohash m ;;
  let params := params ++ [(b "xt", PStr xt)] in
  let params := params ++ [(b "tr", PSeq (concat (mi_announce m)))] in
  let params := params ++ [(b "as", PSeq (mi_url_list m))] in
  Ok params.

(** [Metainfo.magnet()]. *)
Definition magnet (m : metainfo) : result bytes :=
  params <- magnet_params m ;; Ok (b "magnet:?" ++ urlencode params).

End Magnet.

(** ** Further sample data *)


Definition sample_options_md5 : options :=
  {| announce := [];
     nodes := [(b "router.example.com", 6881%Z)];
     httpseeds := []; url_list := []; comment := [];
     piece_length := 4; private := true; md5sum := true; merkle := false |}.

Definition sample_options_merkle : options :=
  {| announce := [[b "http://tracker/announce"]];
     nodes := []; httpseeds := []; url_list := []; comment := [];
     piece_length := 4; private := false; md5sum := false; merkle := true |}.

Definition sample_options_zero : options :=
  {| announce := [[b "http://tracker/announce"]];
     nodes := []; httpseeds := []; url_list := []; comment := [];
     piece_length := 0; private := false; md5sum := false; merkle := false |}.

Definition sample_options_negative : options :=
  {| announce := [[b "http://tracker/announce"]];
     nodes := []; httpseeds := []; url_list := []; comment := [];
     piece_length := -1; private := false; md5sum := false; merkle := false |}.

Definition sample_options_below : options :=
  {| announce := [[b "http://tracker/announce"]];
     nodes := []; httpseeds := []; url_list := []; comment := [];
     piece_length := -2; private := false; md5sum := false; merkle := false |}.

Definition sample_options_default : options :=
  {| announce := [[b "http://tracker/announce"]];
     nodes := []; httpseeds := []; url_list := []; comment := [];
     piece_length := 256 * 1024; private := false; md5sum := false;
     merkle := false |}.

(** The metainfo of [name] in [sample_fs] under [o], built at [now]. *)
Definition sample_build_of (name : bytes) (o : options) (now : Z) : metainfo :=
  match @Metainfo_init sample_hashlib sample_fs [name] o now with
  | Ok m => m
  | _ => {| as_dict := []; info := []; mi_announce := []; mi_url_list := [];
            mi_name := []; mi_length := None |}
  end.

Definition sample_metainfo_md5 : metainfo :=
  Eval vm_compute in sample_build_of (b "video") sample_options_md5 1000.

Definition sample_metainfo_merkle : metainfo :=
  Eval vm_compute in sample_build_of (b "video") sample_options_merkle 1000.

Definition sample_metainfo_album : metainfo :=
  Eval vm_compute in sample_build_of (b "album") sample_options_md5 1000.

Definition sample_metainfo_zero : metainfo :=
  Eval vm_compute in sample_build_of (b "album") sample_options_zero 1000.

Definition sample_metainfo_negative : metainfo :=
  Eval vm_compute in sample_build_of (b "album") sample_options_negative 1000.

Definition sample_metainfo_below : metainfo :=
  Eval vm_compute in sample_build_of (b "nothing") sample_options_below 1000.

(** A stand-in for [urlencode], for running the model on examples: the
    items joined as they are. *)
Definition sample_urllib : Urllib :=
  {| urlencode := fun params =>
       concat (map (fun kv =>
                      match snd kv with
                      | PBytes v | PStr v => b "&" ++ fst kv ++ b "=" ++ v
                      | PSeq l =>
                          concat (map (fun v => b "&" ++ fst kv ++ b "=" ++ v) l)
                      end) params) |}.



(** [sample_fs] once [nothing.torrent] has been opened for writing. *)
Definition sample_fs_opened : node :=
  Eval vm_compute in
    match open_wb sample_fs [b "nothing.torrent"] with
    | Ok fs1 => fs1
    | _ => sample_fs
    end.

(** A lighter stand-in digest, for long inputs: the first byte, twenty
    times. *)
Definition sample_hashlib_light : Hashlib :=
  {| sha1 := fun x => repeat (hd "000"%byte x) 20;
     sha1_length := fun x => repeat_length _ 20;
     md5 := fun x => [] |}.

(** A file of 600000 bytes. *)
Definition sample_big : bytes := repeat "a"%byte (Z.to_nat 600000).

Definition sample_fs_big : node := Dir [(b "big", File sample_big true)].

Definition sample_metainfo_big : metainfo :=
  Eval vm_compute in
    match @Metainfo_init sample_hashlib_light sample_fs_big [b "big"]
                         sample_options_default 1000 with
    | Ok m => m
    | _ => {| as_dict := []; info := []; mi_announce := []; mi_url_list := [];
              mi_name := []; mi_length := None |}
    end.
(** ** Fuel of the decoder *)

Lemma bind_Ok {A B} (r : result A) (k : A -> result B) a :
  r = Ok a -> bind r k = k a.
Proof. intros ->. reflexivity. Qed.

Lemma bind_not_out {A B} (r : result A) (k : A -> result B) :
  bind r k <> OutOfFuel -> r <> OutOfFuel.
Proof. destruct r; simpl; congruence. Qed.

Lemma dict_loop_S fuel current d data :
  dict_loop (S fuel) current d data =
  match current with
  | None => Raise ValueError
  | Some c =>
      if byte_eq_dec c "e" then Ok (Dict d, data)
      else
        '(k, data) <- aux fuel c data ;;
        '(v, data) <- aux_read fuel data ;;
        k <- hashable k ;;
        let '(current, data) := read1 data in
        dict_loop fuel current (dict_set d k v) data
  end.
Proof. reflexivity. Qed.

Lemma list_loop_S fuel current l data :
  list_loop (S fuel) current l data =
  match current with
  | None => Raise ValueError
  | Some c =>
      if byte_eq_dec c "e" then Ok (List l, data)
      else
        '(v, data) <- aux fuel c data ;;
        let '(current, data) := read1 data in
        list_loop fuel current (l ++ [v]) data
  end.
Proof. reflexivity. Qed.

Lemma aux_read_S fuel data :
  aux_read (S fuel) data =
  match data with
  | [] => Raise ValueError
  | magic :: data => aux fuel magic data
  end.
Proof. reflexivity. Qed.

Lemma aux_S fuel magic data :
  aux (S fuel) magic data =
  if is_digit magic then
    let '(len, current, data) := digits_loop 0 magic data in
    if negb (is_byte current ":") then Raise ValueError
    else
      let s := firstn (Z.to_nat len) data in
      if negb (Z.of_nat (length s) =? len)%Z then Raise ValueError
      else Ok (Bytes s, skipn (Z.to_nat len) data)
  else if byte_eq_dec magic "i" then
    let '(current, data) := read1 data in
    let '(i, current, data) := digits_loop_opt 0 current data in
    if negb (is_byte current "e") then Raise ValueError
    else Ok (Int i, data)
  else if byte_eq_dec magic "d" then
    let '(current, data) := read1 data in
    dict_loop fuel current [] data
  else if byte_eq_dec magic "l" then
    let '(current, data) := read1 data in
    list_loop fuel current [] data
  else Raise ValueError.
Proof. reflexivity. Qed.

(** One more unit of fuel does not change a run that completed. *)
Lemma fuel_mono_step fuel :
  (forall m d, aux fuel m d <> OutOfFuel -> aux (S fuel) m d = aux fuel m d) /\
  (forall d, aux_read fuel d <> OutOfFuel ->
             aux_read (S fuel) d = aux_read fuel d) /\
  (forall c acc d, dict_loop fuel c acc d <> OutOfFuel ->
                   dict_loop (S fuel) c acc d = dict_loop fuel c acc d) /\
  (forall c acc d, list_loop fuel c acc d <> OutOfFuel ->
                   list_loop (S fuel) c acc d = list_loop fuel c acc d).
Proof.
  induction fuel as [|fuel (IHa & IHr & IHd & IHl)].
  - repeat split; intros; simpl in *; congruence.
  - repeat split.
    + intros m d H. rewrite (aux_S (S fuel)). rewrite aux_S in H |- *.
      destruct (is_digit m); [reflexivity|].
      destruct (byte_eq_dec m "i"); [reflexivity|].
      destruct (byte_eq_dec m "d").
      { destruct (read1 d) as [c d']. apply IHd, H. }
      destruct (byte_eq_dec m "l"); [|reflexivity].
      destruct (read1 d) as [c d']. apply IHl, H.
    + intros d H. rewrite (aux_read_S (S fuel)). rewrite aux_read_S in H |- *.
      destruct d as [|m d]; [reflexivity|]. apply IHa, H.
    + intros c acc d H. rewrite (dict_loop_S (S fuel)).
      rewrite dict_loop_S in H |- *.
      destruct c as [c|]; [|reflexivity].
      destruct (byte_eq_dec c "e"); [reflexivity|].
      pose proof (bind_not_out _ _ H) as Hk. rewrite (IHa _ _ Hk).
      destruct (aux fuel c d) as [[k d1]| |]; simpl in *; try congruence.
      pose proof (bind_not_out _ _ H) as Hv. rewrite (IHr _ Hv).
      destruct (aux_read fuel d1) as [[v d2]| |]; simpl in *; try congruence.
      destruct (hashable k) as [k'| |]; simpl in *; try congruence.
      destruct (read1 d2) as [c' d3]. apply IHd, H.
    + intros c acc d H. rewrite (list_loop_S (S fuel)).
      rewrite list_loop_S in H |- *.
      destruct c as [c|]; [|reflexivity].
      destruct (byte_eq_dec c "e"); [reflexivity|].
      pose proof (bind_not_out _ _ H) as Hk. rewrite (IHa _ _ Hk).
      destruct (aux fuel c d) as [[v d1]| |]; simpl in *; try congruence.
      destruct (read1 d1) as [c' d2]. apply IHl, H.
Qed.

Lemma aux_read_fuel_mono fuel fuel' d :
  fuel <= fuel' -> aux_read fuel d <> OutOfFuel ->
  aux_read fuel' d = aux_read fuel d.
Proof.
  induction 1 as [|fuel' Hle IH]; intros H; [reflexivity|].
  specialize (IH H). destruct (fuel_mono_step fuel') as (_ & Hr & _).
  rewrite Hr; congruence.
Qed.

Lemma aux_fuel_mono fuel fuel' m d :
  fuel <= fuel' -> aux fuel m d <> OutOfFuel ->
  aux fuel' m d = aux fuel m d.
Proof.
  induction 1 as [|fuel' Hle IH]; intros H; [reflexivity|].
  specialize (IH H). destruct (fuel_mono_step fuel') as (Ha & _).
  rewrite Ha; congruence.
Qed.

Lemma dict_loop_fuel_mono fuel fuel' c acc d :
  fuel <= fuel' -> dict_loop fuel c acc d <> OutOfFuel ->
  dict_loop fuel' c acc d = dict_loop fuel c acc d.
Proof.
  induction 1 as [|fuel' Hle IH]; intros H; [reflexivity|].
  specialize (IH H). destruct (fuel_mono_step fuel') as (_ & _ & Hd & _).
  rewrite Hd; congruence.
Qed.

Lemma list_loop_fuel_mono fuel fuel' c acc d :
  fuel <= fuel' -> list_loop fuel c acc d <> OutOfFuel ->
  list_loop fuel' c acc d = list_loop fuel c acc d.
Proof.
  induction 1 as [|fuel' Hle IH]; intros H; [reflexivity|].
  specialize (IH H). destruct (fuel_mono_step fuel') as (_ & _ & _ & Hl).
  rewrite Hl; congruence.
Qed.

(** ** What a successful decode has read *)

Lemma digits_loop_stop n c d :
  is_digit c = false -> digits_loop n c d = (n, Some c, d).
Proof. intros H. destruct d; simpl; rewrite H; reflexivity. Qed.

Lemma digits_loop_ext d : forall n c v c' rest,
  digits_loop n c d = (v, Some c', rest) ->
  exists cs, d = cs ++ rest /\
             forall s, digits_loop n c (cs ++ s) = (v, Some c', s).
Proof.
  induction d as [|x d IH]; intros n c v c' rest H; simpl in H.
  - destruct (is_digit c) eqn:Hc; [discriminate|].
    injection H as <- <- <-. exists []. split; [reflexivity|].
    intros s. apply digits_loop_stop, Hc.
  - destruct (is_digit c) eqn:Hc.
    + destruct (IH _ _ _ _ _ H) as (cs & -> & Hs).
      exists (x :: cs). split; [reflexivity|].
      intros s. simpl. rewrite Hc. apply Hs.
    + injection H as <- <- <-. exists []. split; [reflexivity|].
      intros s. apply digits_loop_stop, Hc.
Qed.

Lemma is_byte_true current c : is_byte current c = true -> current = Some c.
Proof.
  destruct current as [c'|]; simpl; [|discriminate].
  destruct (byte_eq_dec c' c); congruence.
Qed.

Lemma is_byte_refl c : is_byte (Some c) c = true.
Proof. simpl. destruct (byte_eq_dec c c); congruence. Qed.

Lemma dict_loop_None fuel acc d v rest :
  dict_loop fuel None acc d <> Ok (v, rest).
Proof. destruct fuel; simpl; discriminate. Qed.

Lemma list_loop_None fuel acc d v rest :
  list_loop fuel None acc d <> Ok (v, rest).
Proof. destruct fuel; simpl; discriminate. Qed.

Lemma firstn_exact_app {A} n (l s : list A) :
  length (firstn n l) = n ->
  firstn n (firstn n l ++ s) = firstn n l /\ skipn n (firstn n l ++ s) = s.
Proof.
  intros H. split.
  - rewrite firstn_app, H, Nat.sub_diag, firstn_O, app_nil_r.
    rewrite <- H at 1. apply firstn_all.
  - rewrite skipn_app, H, Nat.sub_diag. simpl.
    rewrite <- H at 1. rewrite skipn_all. reflexivity.
Qed.

(** A successful call has read a prefix [cs] of the stream, and reads the
    same prefix whatever follows it. *)
Lemma decode_ext fuel :
  (forall m d v rest, aux fuel m d = Ok (v, rest) ->
     exists cs, d = cs ++ rest /\
                forall s, aux fuel m (cs ++ s) = Ok (v, s)) /\
  (forall d v rest, aux_read fuel d = Ok (v, rest) ->
     exists cs, d = cs ++ rest /\ cs <> [] /\
                forall s, aux_read fuel (cs ++ s) = Ok (v, s)) /\
  (forall c acc d v rest, dict_loop fuel c acc d = Ok (v, rest) ->
     exists cs, d = cs ++ rest /\
                forall s, dict_loop fuel c acc (cs ++ s) = Ok (v, s)) /\
  (forall c acc d v rest, list_loop fuel c acc d = Ok (v, rest) ->
     exists cs, d = cs ++ rest /\
                forall s, list_loop fuel c acc (cs ++ s) = Ok (v, s)).
Proof.
  induction fuel as [|fuel (IHa & IHr & IHd & IHl)].
  - repeat split; intros; simpl in *; discriminate.
  - repeat split.
    + intros m d v rest H. rewrite aux_S in H.
      destruct (is_digit m) eqn:Hm.
      { destruct (digits_loop 0 m d) as [[len cur] d1] eqn:Hdl.
        destruct (is_byte cur ":") eqn:Hcur; simpl in H; [|discriminate].
        apply is_byte_true in Hcur. subst cur.
        destruct (Z.of_nat (length (firstn (Z.to_nat len) d1)) =? len)%Z eqn:Hlen;
          simpl in H; [|discriminate].
        injection H as <- <-.
        destruct (digits_loop_ext _ _ _ _ _ _ Hdl) as (cs & -> & Hs).
        apply Z.eqb_eq in Hlen.
        assert (Hn : length (firstn (Z.to_nat len) d1) = Z.to_nat len) by lia.
        exists (cs ++ firstn (Z.to_nat len) d1). split.
        - rewrite <- app_assoc, firstn_skipn. reflexivity.
        - intros s. rewrite aux_S, Hm, <- app_assoc, Hs, is_byte_refl. simpl.
          destruct (firstn_exact_app _ d1 s Hn) as [-> ->].
          rewrite Hn, Z2Nat.id by lia.
          rewrite Z.eqb_refl. reflexivity. }
      destruct (byte_eq_dec m "i") as [Hi|Hi].
      { destruct d as [|c0 d0]; simpl in H; [discriminate|].
        destruct (digits_loop 0 c0 d0) as [[i cur] d1] eqn:Hdl.
        destruct (is_byte cur "e") eqn:Hcur; simpl in H; [|discriminate].
        apply is_byte_true in Hcur. subst cur. injection H as <- <-.
        destruct (digits_loop_ext _ _ _ _ _ _ Hdl) as (cs & -> & Hs).
        exists (c0 :: cs). split; [reflexivity|].
        intros s. rewrite aux_S, Hm.
        destruct (byte_eq_dec m "i"); [|contradiction].
        simpl. rewrite Hs, is_byte_refl. reflexivity. }
      destruct (byte_eq_dec m "d") as [Hd|Hd].
      { destruct d as [|c0 d0]; simpl in H.
        - exfalso. eapply dict_loop_None, H.
        - destruct (IHd _ _ _ _ _ H) as (cs & -> & Hs).
          exists (c0 :: cs). split; [reflexivity|].
          intros s. rewrite aux_S, Hm.
          destruct (byte_eq_dec m "i"); [contradiction|].
          destruct (byte_eq_dec m "d"); [|contradiction].
          simpl. apply Hs. }
      destruct (byte_eq_dec m "l") as [Hl|Hl]; [|discriminate].
      destruct d as [|c0 d0]; simpl in H.
      * exfalso. eapply list_loop_None, H.
      * destruct (IHl _ _ _ _ _ H) as (cs & -> & Hs).
        exists (c0 :: cs). split; [reflexivity|].
        intros s. rewrite aux_S, Hm.
        destruct (byte_eq_dec m "i"); [contradiction|].
        destruct (byte_eq_dec m "d"); [contradiction|].
        destruct (byte_eq_dec m "l"); [|contradiction].
        simpl. apply Hs.
    + intros d v rest H. rewrite aux_read_S in H.
      destruct d as [|m d]; [discriminate|].
      destruct (IHa _ _ _ _ H) as (cs & -> & Hs).
      exists (m :: cs). split; [reflexivity|]. split; [discriminate|].
      intros s. rewrite aux_read_S. simpl. apply Hs.
    + intros c acc d v rest H. rewrite dict_loop_S in H.
      destruct c as [c|]; [|discriminate].
      destruct (byte_eq_dec c "e") as [He|He].
      { injection H as <- <-. exists []. split; [reflexivity|].
        intros s. rewrite dict_loop_S.
        destruct (byte_eq_dec c "e"); [reflexivity|contradiction]. }
      destruct (aux fuel c d) as [[k d1]| |] eqn:Hk; simpl in H; try discriminate.
      destruct (aux_read fuel d1) as [[v' d2]| |] eqn:Hv; simpl in H;
        try discriminate.
      destruct (hashable k) as [k'| |] eqn:Hh; simpl in H; try discriminate.
      destruct d2 as [|x d3]; simpl in H.
      { exfalso. eapply dict_loop_None, H. }
      destruct (IHa _ _ _ _ Hk) as (c1 & -> & H1).
      destruct (IHr _ _ _ Hv) as (c2 & -> & _ & H2).
      destruct (IHd _ _ _ _ _ H) as (c3 & -> & H3).
      exists (c1 ++ c2 ++ x :: c3). split.
      * rewrite <- !app_assoc. reflexivity.
      * intros s. rewrite dict_loop_S.
        destruct (byte_eq_dec c "e"); [contradiction|].
        rewrite <- app_assoc, H1. simpl.
        rewrite <- app_assoc, H2. simpl. rewrite Hh. simpl. apply H3.
    + intros c acc d v rest H. rewrite list_loop_S in H.
      destruct c as [c|]; [|discriminate].
      destruct (byte_eq_dec c "e") as [He|He].
      { injection H as <- <-. exists []. split; [reflexivity|].
        intros s. rewrite list_loop_S.
        destruct (byte_eq_dec c "e"); [reflexivity|contradiction]. }
      destruct (aux fuel c d) as [[v' d1]| |] eqn:Hk; simpl in H; try discriminate.
      destruct d1 as [|x d2]; simpl in H.
      { exfalso. eapply list_loop_None, H. }
      destruct (IHa _ _ _ _ Hk) as (c1 & -> & H1).
      destruct (IHl _ _ _ _ _ H) as (c2 & -> & H2).
      exists (c1 ++ x :: c2). split.
      * rewrite <- !app_assoc. reflexivity.
      * intros s. rewrite list_loop_S.
        destruct (byte_eq_dec c "e"); [contradiction|].
        rewrite <- app_assoc, H1. simpl. apply H2.
Qed.

Lemma aux_rest_length fuel m d v rest :
  aux fuel m d = Ok (v, rest) -> length rest <= length d.
Proof.
  intros H. destruct (decode_ext fuel) as (Ha & _).
  destruct (Ha _ _ _ _ H) as (cs & -> & _). rewrite length_app. lia.
Qed.

Lemma aux_read_rest_length fuel d v rest :
  aux_read fuel d = Ok (v, rest) -> length rest < length d.
Proof.
  intros H. destruct (decode_ext fuel) as (_ & Hr & _).
  destruct (Hr _ _ _ H) as (cs & -> & Hne & _). rewrite length_app.
  destruct cs; [congruence|simpl; lia].
Qed.

(** The decoder never runs out of fuel when given twice the length of the
    input (and a little more). *)
Lemma decode_total fuel :
  (forall m d, 2 * length d + 2 <= fuel -> aux fuel m d <> OutOfFuel) /\
  (forall d, 2 * length d + 1 <= fuel -> aux_read fuel d <> OutOfFuel) /\
  (forall c acc d, (c = None /\ 1 <= fuel) \/ 2 * length d + 3 <= fuel ->
                   dict_loop fuel c acc d <> OutOfFuel) /\
  (forall c acc d, (c = None /\ 1 <= fuel) \/ 2 * length d + 3 <= fuel ->
                   list_loop fuel c acc d <> OutOfFuel).
Proof.
  induction fuel as [|fuel (IHa & IHr & IHd & IHl)].
  - repeat split; intros; simpl in *; lia.
  - repeat split.
    + intros m d Hf. rewrite aux_S.
      destruct (is_digit m).
      { destruct (digits_loop 0 m d) as [[len cur] d1].
        destruct (negb (is_byte cur ":")); [discriminate|]. simpl.
        destruct (negb _); discriminate. }
      destruct (byte_eq_dec m "i").
      { destruct (read1 d) as [c d0].
        destruct (digits_loop_opt 0 c d0) as [[i cur] d1].
        destruct (negb _); discriminate. }
      destruct (byte_eq_dec m "d").
      { destruct d as [|c0 d0]; simpl in *; apply IHd; [left|right];
          split || idtac; try reflexivity; lia. }
      destruct (byte_eq_dec m "l"); [|discriminate].
      destruct d as [|c0 d0]; simpl in *; apply IHl; [left|right];
        split || idtac; try reflexivity; lia.
    + intros d Hf. rewrite aux_read_S.
      destruct d as [|m d]; [discriminate|]. apply IHa. simpl in Hf. lia.
    + intros c acc d Hf. rewrite dict_loop_S.
      destruct c as [c|]; [|discriminate].
      destruct Hf as [[? _]|Hf]; [discriminate|].
      destruct (byte_eq_dec c "e"); [discriminate|].
      assert (Hk : aux fuel c d <> OutOfFuel) by (apply IHa; lia).
      destruct (aux fuel c d) as [[k d1]| |] eqn:Ek; simpl;
        try congruence.
      apply aux_rest_length in Ek.
      assert (Hv : aux_read fuel d1 <> OutOfFuel) by (apply IHr; lia).
      destruct (aux_read fuel d1) as [[v d2]| |] eqn:Ev; simpl;
        try congruence.
      apply aux_read_rest_length in Ev.
      destruct (hashable k) as [k'| |] eqn:Eh; simpl; try discriminate.
      { destruct d2 as [|x d3]; simpl in *; apply IHd; [left|right];
          split || idtac; try reflexivity; lia. }
      destruct k; discriminate.
    + intros c acc d Hf. rewrite list_loop_S.
      destruct c as [c|]; [|discriminate].
      destruct Hf as [[? _]|Hf]; [discriminate|].
      destruct (byte_eq_dec c "e"); [discriminate|].
      assert (Hk : aux fuel c d <> OutOfFuel) by (apply IHa; lia).
      destruct (aux fuel c d) as [[v d1]| |] eqn:Ek; simpl;
        try congruence.
      apply aux_rest_length in Ek.
      destruct d1 as [|x d2]; simpl in *; apply IHl; [left|right];
        split || idtac; try reflexivity; lia.
Qed.

Lemma aux_read_enough data : aux_read (decode_fuel data) data <> OutOfFuel.
Proof.
  destruct (decode_total (decode_fuel data)) as (_ & Hr & _).
  apply Hr. unfold decode_fuel. lia.
Qed.

(** [bdecode] always returns or raises. *)
Lemma bdecode_total data offset : bdecode data offset <> OutOfFuel.
Proof.
  unfold bdecode. pose proof (aux_read_enough data) as H.
  destruct (aux_read (decode_fuel data) data) as [[v rest]| |];
    simpl; congruence.
Qed.

(** A run of [aux_read] with any fuel that completes gives the result of
    [bdecode]. *)
Lemma bdecode_of_aux_read fuel data offset v rest :
  aux_read fuel data = Ok (v, rest) -> bdecode data offset = Ok v.
Proof.
  intros H. unfold bdecode.
  pose proof (aux_read_enough data) as Hn.
  assert (E : aux_read (Nat.max fuel (decode_fuel data)) data = Ok (v, rest)).
  { rewrite (aux_read_fuel_mono fuel); [exact H|lia|congruence]. }
  rewrite (aux_read_fuel_mono (decode_fuel data)) in E; [|lia|exact Hn].
  rewrite E. reflexivity.
Qed.

Lemma bdecode_Ok_inv data offset v :
  bdecode data offset = Ok v ->
  exists rest, aux_read (decode_fuel data) data = Ok (v, rest).
Proof.
  unfold bdecode. destruct (aux_read _ data) as [[v' rest]| |]; simpl;
    try discriminate.
  intros [= ->]. eauto.
Qed.

(** ** Decimal digits: formatting and reading back *)

Lemma digit_byte_spec d :
  (d < 10)%N ->
  is_digit (digit_byte d) = true /\ int_of_digit (digit_byte d) = Z.of_N d.
Proof.
  intros H.
  assert (E : (d = 0 \/ d = 1 \/ d = 2 \/ d = 3 \/ d = 4 \/ d = 5 \/ d = 6 \/
               d = 7 \/ d = 8 \/ d = 9)%N) by lia.
  repeat (destruct E as [->|E]; [split; reflexivity|]).
  subst d. split; reflexivity.
Qed.

Lemma fmt_digits_digits fuel : forall n,
  Forall (fun c => is_digit c = true) (fmt_digits fuel n).
Proof.
  assert (Hd : forall n, is_digit (digit_byte (n mod 10)) = true).
  { intros n. apply digit_byte_spec. apply N.mod_lt. lia. }
  induction fuel as [|fuel IH]; intros n; simpl.
  - constructor; [apply Hd|constructor].
  - destruct (n / 10 =? 0)%N.
    + constructor; [apply Hd|constructor].
    + apply Forall_app. split; [apply IH|].
      constructor; [apply Hd|constructor].
Qed.

Lemma fmt_digits_nonempty fuel n : fmt_digits fuel n <> [].
Proof.
  destruct fuel; simpl; [discriminate|].
  destruct (n / 10 =? 0)%N; [discriminate|].
  intros H. apply app_eq_nil in H. destruct H; discriminate.
Qed.

Lemma fmt_digits_value fuel : forall n,
  (n < 2 ^ N.of_nat (S fuel))%N ->
  digits_value (fmt_digits fuel n) 0 = Z.of_N n.
Proof.
  assert (Hd : forall n, int_of_digit (digit_byte (n mod 10)) = Z.of_N (n mod 10)).
  { intros n. apply digit_byte_spec. apply N.mod_lt. lia. }
  induction fuel as [|fuel IH]; intros n Hn.
  - simpl. unfold digits_value, digit_step. simpl. rewrite Hd.
    change (2 ^ N.of_nat 1)%N with 2%N in Hn.
    rewrite N.mod_small by lia. reflexivity.
  - simpl fmt_digits. destruct (n / 10 =? 0)%N eqn:E.
    + apply N.eqb_eq in E. unfold digits_value, digit_step. simpl. rewrite Hd.
      rewrite N.mod_small; [reflexivity|].
      pose proof (N.div_mod n 10). pose proof (N.mod_lt n 10). lia.
    + apply N.eqb_neq in E.
      assert (Hq : (n / 10 < 2 ^ N.of_nat (S fuel))%N).
      { rewrite (Nat2N.inj_succ (S fuel)), N.pow_succ_r' in Hn.
        assert (n / 10 <= n / 2)%N by (apply N.div_le_compat_l; lia).
        assert (n / 2 < 2 ^ N.of_nat (S fuel))%N
          by (apply N.Div0.div_lt_upper_bound; lia).
        lia. }
      specialize (IH _ Hq). unfold digits_value in *.
      rewrite fold_left_app, IH. simpl. unfold digit_step. rewrite Hd.
      pose proof (N.div_mod n 10). lia.
Qed.

Lemma fmt_nat_value n : digits_value (fmt_nat n) 0 = Z.of_N n.
Proof.
  unfold fmt_nat. apply fmt_digits_value.
  rewrite Nat2N.inj_succ, N2Nat.id.
  destruct n as [|p]; [reflexivity|].
  apply N.log2_spec. lia.
Qed.

Lemma digits_loop_app ds : forall n c c' rest,
  is_digit c = true ->
  Forall (fun x => is_digit x = true) ds ->
  is_digit c' = false ->
  digits_loop n c (ds ++ c' :: rest) = (digits_value (c :: ds) n, Some c', rest).
Proof.
  induction ds as [|x ds IH]; intros n c c' rest Hc Hds Hc'; simpl.
  - rewrite Hc. apply digits_loop_stop, Hc'.
  - rewrite Hc. inversion Hds; subst. rewrite IH; auto.
Qed.

(** The decoder's digit loop reads back what ["%d"] wrote for a natural
    number, when a non-digit follows. *)
Lemma digits_loop_fmt_nat n c' rest :
  is_digit c' = false ->
  exists c ds, fmt_nat n = c :: ds /\ is_digit c = true /\
               digits_loop 0 c (ds ++ c' :: rest) = (Z.of_N n, Some c', rest).
Proof.
  intros Hc'. pose proof (fmt_nat_value n) as Hv.
  pose proof (fmt_digits_digits (N.to_nat (N.log2 n)) n) as Hd.
  pose proof (fmt_digits_nonempty (N.to_nat (N.log2 n)) n) as Hne.
  fold (fmt_nat n) in Hd, Hne.
  destruct (fmt_nat n) as [|c ds]; [congruence|].
  inversion Hd; subst. exists c, ds. repeat split; auto.
  rewrite digits_loop_app; auto. rewrite Hv. reflexivity.
Qed.

(** ** Order on bytes and [sorted] *)

Lemma byte_val_inj x y : byte_val x = byte_val y -> x = y.
Proof.
  unfold byte_val. intros H. apply N2Z.inj in H.
  assert (E : Byte.of_N (Byte.to_N x) = Byte.of_N (Byte.to_N y)) by congruence.
  rewrite !Byte.of_to_N in E. congruence.
Qed.

Lemma bytes_leb_refl x : bytes_leb x x = true.
Proof.
  induction x as [|a x IH]; simpl; [reflexivity|].
  rewrite Z.ltb_irrefl. exact IH.
Qed.

Lemma bytes_leb_total x : forall y, bytes_leb x y = true \/ bytes_leb y x = true.
Proof.
  induction x as [|a x IH]; intros [|c y]; simpl; auto.
  destruct (Z.ltb_spec (byte_val a) (byte_val c)); auto.
  destruct (Z.ltb_spec (byte_val c) (byte_val a)); auto.
Qed.

Lemma bytes_leb_antisym x : forall y,
  bytes_leb x y = true -> bytes_leb y x = true -> x = y.
Proof.
  induction x as [|a x IH]; intros [|c y]; simpl; try discriminate; auto.
  destruct (Z.ltb_spec (byte_val a) (byte_val c));
    destruct (Z.ltb_spec (byte_val c) (byte_val a));
    try discriminate; try lia.
  intros H1 H2. f_equal; [apply byte_val_inj; lia|auto].
Qed.

Lemma bytes_leb_trans x : forall y z,
  bytes_leb x y = true -> bytes_leb y z = true -> bytes_leb x z = true.
Proof.
  induction x as [|a x IH]; intros [|c y] [|e z]; simpl; try discriminate; auto.
  destruct (Z.ltb_spec (byte_val a) (byte_val c));
    destruct (Z.ltb_spec (byte_val c) (byte_val a));
    destruct (Z.ltb_spec (byte_val c) (byte_val e));
    destruct (Z.ltb_spec (byte_val e) (byte_val c));
    destruct (Z.ltb_spec (byte_val a) (byte_val e));
    destruct (Z.ltb_spec (byte_val e) (byte_val a));
    try discriminate; try lia; auto.
  apply IH.
Qed.

Lemma insert_sorted_perm k l : Permutation (insert_sorted k l) (k :: l).
Proof.
  induction l as [|k' l IH]; simpl; [reflexivity|].
  destruct (key_le k k'); [reflexivity|].
  rewrite IH. apply perm_swap.
Qed.

Lemma insertion_sort_perm l : Permutation (insertion_sort l) l.
Proof.
  induction l as [|k l IH]; simpl; [reflexivity|].
  rewrite insert_sorted_perm. constructor. exact IH.
Qed.

Lemma all_kbytes_perm l l' : Permutation l l' -> all_kbytes l -> all_kbytes l'.
Proof.
  unfold all_kbytes. rewrite !forallb_forall. intros P H x Hx.
  apply H. eapply Permutation_in; [symmetry; exact P|exact Hx].
Qed.

Lemma key_le_total_kbytes x y :
  is_kbytes x = true -> is_kbytes y = true ->
  key_le x y = true \/ key_le y x = true.
Proof.
  destruct x, y; simpl; try discriminate. intros _ _.
  unfold key_le; simpl. apply bytes_leb_total.
Qed.

Lemma key_le_trans x y z :
  key_le x y = true -> key_le y z = true -> key_le x z = true.
Proof.
  destruct x, y, z; unfold key_le; simpl; try discriminate.
  - apply bytes_leb_trans.
  - intros. apply Z.leb_le. apply Z.leb_le in H, H0. lia.
Qed.

Lemma key_le_antisym x y : key_le x y = true -> key_le y x = true -> x = y.
Proof.
  destruct x, y; unfold key_le; simpl; try discriminate.
  - intros. f_equal. apply bytes_leb_antisym; assumption.
  - intros. f_equal. apply Z.leb_le in H, H0. lia.
Qed.

Lemma insert_sorted_ascending k l :
  all_kbytes (k :: l) -> ascending l -> ascending (insert_sorted k l).
Proof.
  unfold ascending. intros Hb Hs.
  induction Hs as [|k' l Hs IH Hall]; simpl.
  - repeat constructor.
  - unfold all_kbytes in Hb. simpl in Hb.
    apply andb_true_iff in Hb as [Hk Hb]. apply andb_true_iff in Hb as [Hk' Hb].
    destruct (key_le k k') eqn:E.
    + constructor; [constructor; assumption|].
      constructor; [exact E|].
      eapply Forall_impl; [|exact Hall]. intros z Hz.
      eapply key_le_trans; eassumption.
    + constructor.
      * apply IH. unfold all_kbytes. simpl. rewrite Hk, Hb. reflexivity.
      * assert (E' : key_le k' k = true).
        { destruct (key_le_total_kbytes k k' Hk Hk'); congruence. }
        eapply Permutation_Forall; [symmetry; apply insert_sorted_perm|].
        constructor; assumption.
Qed.

Lemma insertion_sort_ascending l :
  all_kbytes l -> ascending (insertion_sort l).
Proof.
  induction l as [|k l IH]; intros Hb; simpl.
  - constructor.
  - assert (Hl : all_kbytes l).
    { unfold all_kbytes in *. simpl in Hb. apply andb_true_iff in Hb. tauto. }
    apply insert_sorted_ascending; [|auto].
    eapply all_kbytes_perm; [|exact Hb].
    constructor. symmetry. apply insertion_sort_perm.
Qed.

(** Two ascending arrangements of the same keys are the same list. *)
Lemma ascending_unique l1 : forall l2,
  ascending l1 -> ascending l2 -> Permutation l1 l2 -> l1 = l2.
Proof.
  unfold ascending.
  induction l1 as [|a l1 IH]; intros l2 H1 H2 P.
  - apply Permutation_nil in P. congruence.
  - destruct l2 as [|c l2].
    { symmetry in P. apply Permutation_nil in P. discriminate. }
    inversion H1 as [|? ? Hs1 Ha]; subst.
    inversion H2 as [|? ? Hs2 Hc]; subst.
    assert (E : a = c).
    { assert (Hin1 : In a (c :: l2))
        by (eapply Permutation_in; [exact P|left; reflexivity]).
      assert (Hin2 : In c (a :: l1))
        by (eapply Permutation_in; [symmetry; exact P|left; reflexivity]).
      destruct Hin1 as [->|Hin1]; [reflexivity|].
      destruct Hin2 as [->|Hin2]; [reflexivity|].
      rewrite Forall_forall in Ha, Hc.
      apply key_le_antisym; auto. }
    subst c. f_equal. apply IH; auto.
    eapply Permutation_cons_inv. exact P.
Qed.

Lemma insertion_sort_perm_eq l1 l2 :
  all_kbytes l1 -> Permutation l1 l2 -> insertion_sort l1 = insertion_sort l2.
Proof.
  intros Hb P. apply ascending_unique.
  - apply insertion_sort_ascending, Hb.
  - apply insertion_sort_ascending. eapply all_kbytes_perm; eassumption.
  - rewrite !insertion_sort_perm. exact P.
Qed.

Lemma sorted_kbytes l : all_kbytes l -> sorted l = Ok (insertion_sort l).
Proof. unfold sorted, all_kbytes. intros ->. reflexivity. Qed.

(** ** Reading back what [bencode] wrote *)

Lemma fmt_int_nonneg i : (0 <= i)%Z -> fmt_int i = fmt_nat (Z.to_N i).
Proof.
  intros H. unfold fmt_int. destruct (Z.ltb_spec i 0); [lia|reflexivity].
Qed.

Lemma is_digit_not_e c : is_digit c = true -> c <> "e"%byte.
Proof. intros H ->. discriminate. Qed.

Lemma decodes_bytes s :
  decodes_to (fmt_int (Z.of_nat (length s)) ++ b ":" ++ s) (Bytes s).
Proof.
  rewrite fmt_int_nonneg by lia.
  destruct (digits_loop_fmt_nat (Z.to_N (Z.of_nat (length s))) ":"%byte s
              eq_refl) as (c & ds & E & Hc & _).
  exists c, (ds ++ b ":" ++ s), 1. rewrite E. split; [reflexivity|].
  split; [apply is_digit_not_e, Hc|].
  intros fuel t Hf. destruct fuel as [|fuel]; [lia|].
  rewrite aux_S, Hc.
  destruct (digits_loop_fmt_nat (Z.to_N (Z.of_nat (length s))) ":"%byte
              (s ++ t) eq_refl) as (c' & ds' & E' & _ & Hl).
  rewrite E in E'. injection E' as <- <-.
  change (b ":" ++ s) with (":"%byte :: s). rewrite <- app_assoc. simpl app.
  rewrite Hl, is_byte_refl. simpl negb. cbv iota zeta.
  rewrite Z2N.id, Nat2Z.id by lia.
  rewrite firstn_app, firstn_all, Nat.sub_diag, firstn_O, app_nil_r.
  rewrite Z.eqb_refl. simpl negb. cbv iota.
  rewrite skipn_app, skipn_all, Nat.sub_diag. reflexivity.
Qed.

Lemma decodes_int i :
  (0 <= i)%Z -> decodes_to (b "i" ++ fmt_int i ++ b "e") (Int i).
Proof.
  intros Hi. rewrite fmt_int_nonneg by lia.
  exists "i"%byte, (fmt_nat (Z.to_N i) ++ b "e"), 1.
  split; [reflexivity|]. split; [discriminate|].
  intros fuel t Hf. destruct fuel as [|fuel]; [lia|].
  rewrite aux_S. change (is_digit "i") with false. cbv iota.
  destruct (byte_eq_dec "i" "i"); [|congruence].
  destruct (digits_loop_fmt_nat (Z.to_N i) "e"%byte t eq_refl)
    as (c & ds & E & _ & Hl).
  rewrite E. change (b "e") with ["e"%byte]. rewrite <- app_assoc. simpl.
  rewrite Hl. rewrite Z2N.id by lia.
  destruct (byte_eq_dec "e" "e"); [reflexivity|congruence].
Qed.

Lemma list_loop_items encs : forall vs,
  Forall2 decodes_to encs vs ->
  exists fuel0, forall fuel s acc c data,
    fuel0 <= fuel ->
    c :: data = concat encs ++ "e"%byte :: s ->
    list_loop fuel (Some c) acc data = Ok (List (acc ++ vs), s).
Proof.
  induction encs as [|enc encs IH]; intros vs H; inversion H; subst.
  - exists 1. intros fuel s acc c data Hf E. simpl in E. injection E as -> ->.
    destruct fuel as [|fuel]; [lia|]. rewrite list_loop_S, app_nil_r.
    destruct (byte_eq_dec "e" "e"); [reflexivity|congruence].
  - destruct (IH _ H4) as (f1 & H1).
    destruct H2 as (m & cs & f2 & -> & Hm & H2).
    exists (S (Nat.max f1 f2)). intros fuel s acc c data Hf E.
    simpl in E. injection E as -> ->.
    destruct fuel as [|fuel]; [lia|]. rewrite list_loop_S.
    destruct (byte_eq_dec m "e"); [contradiction|].
    rewrite <- app_assoc, H2 by lia. simpl.
    destruct (concat encs ++ "e"%byte :: s) as [|c' data'] eqn:E.
    { apply app_eq_nil in E. destruct E; discriminate. }
    simpl. rewrite (H1 fuel s (acc ++ [y]) c' data') by (lia || auto).
    rewrite <- app_assoc. reflexivity.
Qed.

Lemma decodes_list encs vs :
  Forall2 decodes_to encs vs ->
  decodes_to (b "l" ++ concat encs ++ b "e") (List vs).
Proof.
  intros H. destruct (list_loop_items _ _ H) as (f0 & H0).
  exists "l"%byte, (concat encs ++ b "e"), (S f0).
  split; [reflexivity|]. split; [discriminate|].
  intros fuel s Hf. destruct fuel as [|fuel]; [lia|].
  rewrite aux_S. change (is_digit "l") with false. cbv iota.
  destruct (byte_eq_dec "l" "i"); [discriminate|].
  destruct (byte_eq_dec "l" "d"); [discriminate|].
  destruct (byte_eq_dec "l" "l"); [|congruence].
  rewrite <- app_assoc. change (b "e" ++ s) with ("e"%byte :: s).
  destruct (concat encs ++ "e"%byte :: s) as [|c data] eqn:E.
  { apply app_eq_nil in E. destruct E; discriminate. }
  simpl. rewrite (H0 fuel s [] c data) by (lia || auto). reflexivity.
Qed.

Lemma aux_read_decodes enc v :
  decodes_to enc v ->
  exists fuel0, forall fuel s, fuel0 <= fuel ->
                               aux_read fuel (enc ++ s) = Ok (v, s).
Proof.
  intros (m & cs & f0 & -> & _ & H). exists (S f0). intros fuel s Hf.
  destruct fuel as [|fuel]; [lia|]. rewrite aux_read_S. simpl.
  apply H. lia.
Qed.

Lemma dict_loop_items (items : list (bytes * (bytes * value))) :
  Forall (fun it => decodes_to (fst (snd it)) (snd (snd it))) items ->
  exists fuel0, forall fuel s acc c data,
    fuel0 <= fuel ->
    c :: data =
      concat (map (fun it => bencode_key (KBytes (fst it)) ++ fst (snd it))
                  items) ++ "e"%byte :: s ->
    dict_loop fuel (Some c) acc data =
    Ok (Dict (fold_left (fun a it => dict_set a (KBytes (fst it)) (snd (snd it)))
                        items acc), s).
Proof.
  induction 1 as [|[ks [e v]] items Hit _ IH].
  - exists 1. intros fuel s acc c data Hf E. simpl in E. injection E as -> ->.
    destruct fuel as [|fuel]; [lia|]. rewrite dict_loop_S.
    destruct (byte_eq_dec "e" "e"); [reflexivity|congruence].
  - destruct IH as (f1 & H1). simpl in Hit.
    destruct (decodes_bytes ks) as (m & cs & f2 & Ek & Hm & H2).
    destruct (aux_read_decodes _ _ Hit) as (f3 & H3).
    exists (S (Nat.max f1 (Nat.max f2 f3))).
    intros fuel s acc c data Hf E.
    cbn [map concat fst snd bencode_key] in E. rewrite Ek in E.
    simpl in E. injection E as -> ->.
    destruct fuel as [|fuel]; [lia|]. rewrite dict_loop_S.
    destruct (byte_eq_dec m "e"); [contradiction|].
    rewrite <- !app_assoc, H2 by lia. simpl.
    rewrite H3 by lia. simpl.
    destruct (concat _ ++ "e"%byte :: s) as [|c' data'] eqn:E.
    { apply app_eq_nil in E. destruct E; discriminate. }
    simpl. apply H1; [lia|auto].
Qed.

Lemma decodes_dict (items : list (bytes * (bytes * value))) :
  Forall (fun it => decodes_to (fst (snd it)) (snd (snd it))) items ->
  decodes_to
    (b "d" ++
     concat (map (fun it => bencode_key (KBytes (fst it)) ++ fst (snd it))
                 items) ++ b "e")
    (Dict (fold_left (fun a it => dict_set a (KBytes (fst it)) (snd (snd it)))
                     items [])).
Proof.
  intros H. destruct (dict_loop_items _ H) as (f0 & H0).
  eexists "d"%byte, _, (S f0).
  split; [reflexivity|]. split; [discriminate|].
  intros fuel s Hf. destruct fuel as [|fuel]; [lia|].
  rewrite aux_S. change (is_digit "d") with false. cbv iota.
  destruct (byte_eq_dec "d" "i"); [discriminate|].
  destruct (byte_eq_dec "d" "d"); [|congruence].
  rewrite <- app_assoc. change (b "e" ++ s) with ("e"%byte :: s).
  destruct (concat _ ++ "e"%byte :: s) as [|c data] eqn:E.
  { apply app_eq_nil in E. destruct E; discriminate. }
  simpl. apply H0; [lia|auto].
Qed.

(** ** Dictionaries *)

Lemma value_ind' (P : value -> Prop) :
  (forall s, P (Bytes s)) ->
  (forall i, P (Int i)) ->
  (forall l, Forall P l -> P (List l)) ->
  (forall d, Forall (fun kv => P (snd kv)) d -> P (Dict d)) ->
  forall v, P v.
Proof.
  intros HB HI HL HD. fix IH 1. intros [s|i|l|d].
  - apply HB.
  - apply HI.
  - apply HL. induction l as [|x l IHl]; constructor; [apply IH|exact IHl].
  - apply HD. induction d as [|[k x] d IHd]; constructor; [apply IH|exact IHd].
Qed.

Lemma key_eqb_refl k : key_eqb k k = true.
Proof. unfold key_eqb. destruct (key_eq_dec k k); congruence. Qed.

Lemma key_eqb_eq k k' : key_eqb k k' = true <-> k = k'.
Proof. unfold key_eqb. destruct (key_eq_dec k k'); split; congruence. Qed.

Lemma key_eqb_neq k k' : key_eqb k k' = false <-> k <> k'.
Proof. unfold key_eqb. destruct (key_eq_dec k k'); split; congruence. Qed.

Lemma nodupb_NoDup l : nodupb l = true <-> NoDup l.
Proof.
  induction l as [|k l IH]; simpl.
  - split; [constructor|reflexivity].
  - rewrite andb_true_iff, negb_true_iff, IH. split.
    + intros [Hk Hl]. constructor; [|exact Hl]. intros Hin.
      assert (E : existsb (key_eqb k) l = true).
      { apply existsb_exists. exists k. split; [exact Hin|apply key_eqb_refl]. }
      congruence.
    + intros H. inversion H as [|? ? Hk Hl]; subst. split; [|exact Hl].
      destruct (existsb (key_eqb k) l) eqn:E; [|reflexivity].
      apply existsb_exists in E as (x & Hx & Ex).
      apply key_eqb_eq in Ex. subst x. contradiction.
Qed.

Lemma dict_get_map {V W} (g : V -> W) (d : list (key * V)) k :
  dict_get (map (fun kv => (fst kv, g (snd kv))) d) k =
  option_map g (dict_get d k).
Proof.
  induction d as [|[k' v] d IH]; simpl; [reflexivity|].
  destruct (key_eqb k k'); [reflexivity|exact IH].
Qed.

Lemma dict_get_in {V} (d : list (key * V)) k :
  In k (dict_keys d) -> exists v, dict_get d k = Some v /\ In (k, v) d.
Proof.
  induction d as [|[k' v] d IH]; simpl; [contradiction|].
  intros Hin. destruct (key_eqb k k') eqn:E.
  - apply key_eqb_eq in E. subst k'. exists v. auto.
  - apply key_eqb_neq in E. destruct Hin as [->|Hin]; [congruence|].
    destruct (IH Hin) as (w & Hw & Hi). exists w. auto.
Qed.

Lemma dict_get_not_in {V} (d : list (key * V)) k :
  ~ In k (dict_keys d) -> dict_get d k = None.
Proof.
  induction d as [|[k' v] d IH]; simpl; [reflexivity|].
  intros Hin. destruct (key_eqb k k') eqn:E.
  - apply key_eqb_eq in E. subst k'. tauto.
  - apply IH. tauto.
Qed.

Lemma dict_get_NoDup_in {V} (d : list (key * V)) k v :
  NoDup (dict_keys d) -> In (k, v) d -> dict_get d k = Some v.
Proof.
  induction d as [|[k' v'] d IH]; simpl; [contradiction|].
  intros Hnd Hin. inversion Hnd as [|? ? Hk Hd]; subst.
  destruct Hin as [[= -> ->]|Hin].
  - rewrite key_eqb_refl. reflexivity.
  - destruct (key_eqb k k') eqn:E.
    + apply key_eqb_eq in E. subst k'. exfalso. apply Hk.
      unfold dict_keys. apply in_map_iff. exists (k, v). auto.
    + auto.
Qed.

Lemma dict_set_fresh {V} (d : list (key * V)) k v :
  ~ In k (dict_keys d) -> dict_set d k v = d ++ [(k, v)].
Proof.
  induction d as [|[k' v'] d IH]; simpl; [reflexivity|].
  intros Hin. destruct (key_eqb k k') eqn:E.
  - apply key_eqb_eq in E. subst k'. tauto.
  - rewrite IH by tauto. reflexivity.
Qed.

Lemma fold_dict_set_fresh (items : list (bytes * (bytes * value))) :
  forall acc,
  NoDup (dict_keys acc ++ map (fun it => KBytes (fst it)) items) ->
  fold_left (fun a it => dict_set a (KBytes (fst it)) (snd (snd it))) items acc =
  acc ++ map (fun it => (KBytes (fst it), snd (snd it))) items.
Proof.
  induction items as [|[ks [e v]] items IH]; intros acc Hnd; simpl.
  - rewrite app_nil_r. reflexivity.
  - simpl in Hnd. rewrite dict_set_fresh.
    + rewrite IH.
      * rewrite <- app_assoc. reflexivity.
      * unfold dict_keys in *. rewrite map_app, <- app_assoc. exact Hnd.
    + apply NoDup_remove_2 in Hnd. intros Hin. apply Hnd.
      apply in_or_app. left. exact Hin.
Qed.

Lemma bencode_Dict d :
  bencode (Dict d) =
  (keys <- sorted (dict_keys d) ;;
   body <- concat_results
             (map (fun k =>
                     match dict_get (map (fun kv => (fst kv, bencode (snd kv))) d)
                                    k with
                     | Some r => x <- r ;; Ok (bencode_key k ++ x)
                     | None => Raise KeyError
                     end) keys) ;;
   Ok (b "d" ++ body ++ b "e")).
Proof.
  assert (E : (fix enc (d : list (key * value)) : list (key * result bytes) :=
                 match d with
                 | [] => []
                 | (k, v) :: d' => (k, bencode v) :: enc d'
                 end) d = map (fun kv => (fst kv, bencode (snd kv))) d).
  { induction d as [|[k v] d IH]; simpl; [reflexivity|]. rewrite IH. reflexivity. }
  simpl. rewrite E. reflexivity.
Qed.

(** ** Round trip on trees without negative integers *)

Lemma concat_results_list l :
  Forall roundtrips l ->
  exists encs, concat_results (map bencode l) = Ok (concat encs) /\
               Forall2 decodes_to encs (map canon l).
Proof.
  induction 1 as [|v l (enc & Hb & Hd) _ (encs & Hc & Hf)].
  - exists []. split; [reflexivity|constructor].
  - exists (enc :: encs). split.
    + simpl. rewrite Hb, Hc. reflexivity.
    + simpl. constructor; assumption.
Qed.

Lemma dict_keys_map {V W} (g : V -> W) (d : list (key * V)) :
  dict_keys (map (fun kv => (fst kv, g (snd kv))) d) = dict_keys d.
Proof. unfold dict_keys. rewrite map_map. reflexivity. Qed.

Lemma dict_items_exist d :
  Forall (fun kv => roundtrips (snd kv)) d ->
  forall ks, incl ks (dict_keys d) -> all_kbytes ks ->
  exists items : list (bytes * (bytes * value)),
    map (fun it => KBytes (fst it)) items = ks /\
    concat_results
      (map (fun k =>
              match dict_get (map (fun kv => (fst kv, bencode (snd kv))) d) k with
              | Some r => x <- r ;; Ok (bencode_key k ++ x)
              | None => Raise KeyError
              end) ks) =
    Ok (concat (map (fun it => bencode_key (KBytes (fst it)) ++ fst (snd it))
                    items)) /\
    flat_map (fun k =>
                match dict_get (map (fun kv => (fst kv, canon (snd kv))) d) k with
                | Some v => [(k, v)]
                | None => []
                end) ks =
    map (fun it => (KBytes (fst it), snd (snd it))) items /\
    Forall (fun it => decodes_to (fst (snd it)) (snd (snd it))) items.
Proof.
  intros Hd. induction ks as [|k ks IH]; intros Hincl Hkb.
  - exists []. repeat split; constructor.
  - unfold all_kbytes in Hkb. simpl in Hkb.
    apply andb_true_iff in Hkb as [Hk Hkb].
    destruct IH as (items & Hks & Hc & Hf & Hdec).
    { intros x Hx. apply Hincl. right. exact Hx. }
    { exact Hkb. }
    destruct (dict_get_in d k) as (v & Hv & Hin).
    { apply Hincl. left. reflexivity. }
    rewrite Forall_forall in Hd. destruct (Hd _ Hin) as (enc & Hb & Hdv).
    simpl in Hb, Hdv. destruct k as [s|i]; [|discriminate].
    exists ((s, (enc, canon v)) :: items). repeat split.
    + simpl. rewrite Hks. reflexivity.
    + simpl map. simpl concat_results.
      rewrite (dict_get_map bencode), Hv. simpl option_map. cbv iota.
      rewrite Hb, Hc. reflexivity.
    + simpl flat_map. rewrite (dict_get_map canon), Hv. simpl. rewrite Hf.
      reflexivity.
    + constructor; assumption.
Qed.

Lemma forallb_Forall_snd (p : value -> bool) (P : value -> Prop)
      (d : list (key * value)) :
  Forall (fun kv => p (snd kv) = true -> P (snd kv)) d ->
  forallb (fun kv => p (snd kv)) d = true ->
  Forall (fun kv => P (snd kv)) d.
Proof.
  induction 1 as [|kv d H _ IH]; simpl; intros Hb; constructor;
    apply andb_true_iff in Hb as [? ?]; auto.
Qed.

(** Every constructible tree without a negative integer is encoded, and
    its encoding is read back as the same tree in key order. *)
Lemma roundtrip_main v :
  constructible v = true -> nonneg v = true -> roundtrips v.
Proof.
  induction v as [s|i|l IH|d IH] using value_ind'; intros Hc Hn.
  - exists (fmt_int (Z.of_nat (length s)) ++ b ":" ++ s).
    split; [reflexivity|apply decodes_bytes].
  - exists (b "i" ++ fmt_int i ++ b "e").
    split; [reflexivity|]. apply decodes_int. simpl in Hn.
    apply Z.leb_le in Hn. exact Hn.
  - assert (Hl : Forall roundtrips l).
    { simpl in Hc, Hn. rewrite forallb_forall in Hc, Hn.
      rewrite Forall_forall in IH |- *. intros x Hx. apply IH; auto. }
    destruct (concat_results_list l Hl) as (encs & Hcr & Hf).
    exists (b "l" ++ concat encs ++ b "e"). split.
    + simpl bencode. rewrite Hcr. reflexivity.
    + simpl canon. apply decodes_list, Hf.
  - simpl in Hc, Hn.
    apply andb_true_iff in Hc as [Hc Hcv]. apply andb_true_iff in Hc as [Hkb Hnd].
    apply nodupb_NoDup in Hnd.
    assert (Hd : Forall (fun kv => roundtrips (snd kv)) d).
    { rewrite forallb_forall in Hcv, Hn.
      rewrite Forall_forall in IH |- *. intros x Hx. apply IH; auto. }
    destruct (dict_items_exist d Hd (insertion_sort (dict_keys d)))
      as (items & Hks & Hcr & Hf & Hdec).
    { intros x Hx. eapply Permutation_in; [apply insertion_sort_perm|exact Hx]. }
    { eapply all_kbytes_perm; [symmetry; apply insertion_sort_perm|exact Hkb]. }
    eexists. split.
    + rewrite bencode_Dict, (sorted_kbytes _ Hkb). simpl bind.
      rewrite Hcr. reflexivity.
    + simpl canon. unfold sorted_items. rewrite dict_keys_map, Hf.
      pose proof (fold_dict_set_fresh items []) as E. simpl in E.
      rewrite <- E.
      * apply decodes_dict, Hdec.
      * rewrite Hks. eapply Permutation_NoDup; [|exact Hnd].
        symmetry. apply insertion_sort_perm.
Qed.

(** ** The decoded tree equals the encoded one *)

Lemma flat_map_get_length {V} (d : list (key * V)) ks :
  incl ks (dict_keys d) ->
  length (flat_map (fun k => match dict_get d k with
                             | Some v => [(k, v)]
                             | None => []
                             end) ks) = length ks.
Proof.
  induction ks as [|k ks IH]; intros Hincl; simpl; [reflexivity|].
  destruct (dict_get_in d k) as (v & Hv & _).
  { apply Hincl. left. reflexivity. }
  rewrite length_app, Hv, IH; [reflexivity|].
  intros x Hx. apply Hincl. right. exact Hx.
Qed.

Lemma sorted_items_length {V} (d : list (key * V)) :
  length (sorted_items d) = length d.
Proof.
  unfold sorted_items. rewrite flat_map_get_length.
  - rewrite (Permutation_length (insertion_sort_perm _)).
    unfold dict_keys. apply length_map.
  - intros x Hx. eapply Permutation_in; [apply insertion_sort_perm|exact Hx].
Qed.

Lemma sorted_items_in {V} (d : list (key * V)) k v :
  In (k, v) (sorted_items d) -> dict_get d k = Some v.
Proof.
  unfold sorted_items. rewrite in_flat_map. intros (k' & _ & Hin).
  destruct (dict_get d k') as [w|] eqn:E; simpl in Hin; [|contradiction].
  destruct Hin as [[= <- <-]|[]]. exact E.
Qed.

Lemma py_eq_canon v : py_eq (canon v) v = true.
Proof.
  induction v as [s|i|l IH|d IH] using value_ind'; simpl.
  - destruct (bytes_eq_dec s s); congruence.
  - apply Z.eqb_refl.
  - induction IH as [|x l Hx _ IHl]; simpl; [reflexivity|].
    rewrite Hx. exact IHl.
  - rewrite sorted_items_length, length_map, Nat.eqb_refl. simpl.
    apply forallb_forall. intros [k v'] Hin. simpl.
    apply sorted_items_in in Hin. rewrite (dict_get_map canon) in Hin.
    destruct (dict_get d k) as [w|] eqn:E; simpl in Hin; [|discriminate].
    injection Hin as <-.
    assert (Hw : exists k', In (k', w) d).
    { clear IH. induction d as [|[k0 w0] d IHd]; simpl in E; [discriminate|].
      destruct (key_eqb k k0).
      - injection E as ->. exists k0. left. reflexivity.
      - destruct (IHd E) as (k' & Hk'). exists k'. right. exact Hk'. }
    destruct Hw as (k' & Hk'). rewrite Forall_forall in IH.
    apply (IH _ Hk').
Qed.

(** [bdecode] of an encoding followed by anything gives the encoded tree. *)
Lemma bdecode_bencode_ext v :
  constructible v = true -> nonneg v = true ->
  exists enc, bencode v = Ok enc /\
              forall s offset, bdecode (enc ++ s) offset = Ok (canon v).
Proof.
  intros Hc Hn. destruct (roundtrip_main v Hc Hn) as (enc & Hb & Hd).
  exists enc. split; [exact Hb|]. intros s offset.
  destruct (aux_read_decodes _ _ Hd) as (f0 & H0).
  eapply bdecode_of_aux_read. apply (H0 f0 s). lia.
Qed.

(** ** The encoder on constructible trees *)

Lemma bencode_dict_items d :
  Forall (fun kv => encodable (snd kv)) d ->
  forall ks, incl ks (dict_keys d) ->
  exists items : list (key * bytes),
    map fst items = ks /\
    concat_results
      (map (fun k =>
              match dict_get (map (fun kv => (fst kv, bencode (snd kv))) d) k with
              | Some r => x <- r ;; Ok (bencode_key k ++ x)
              | None => Raise KeyError
              end) ks) =
    Ok (concat (map (fun it => bencode_key (fst it) ++ snd it) items)) /\
    forall k e, In (k, e) items ->
                exists v, dict_get d k = Some v /\ bencode v = Ok e.
Proof.
  intros Hd. induction ks as [|k ks IH]; intros Hincl.
  - exists []. split; [reflexivity|]. split; [reflexivity|intros k e []].
  - destruct IH as (items & Hks & Hc & Hin).
    { intros x Hx. apply Hincl. right. exact Hx. }
    destruct (dict_get_in d k) as (v & Hv & Hi).
    { apply Hincl. left. reflexivity. }
    rewrite Forall_forall in Hd. destruct (Hd _ Hi) as (enc & Hb).
    simpl in Hb. exists ((k, enc) :: items). split; [|split].
    + simpl. rewrite Hks. reflexivity.
    + simpl map. simpl concat_results.
      rewrite (dict_get_map bencode), Hv. simpl option_map. cbv iota.
      rewrite Hb, Hc. reflexivity.
    + intros k' e' [E|Hin']; [injection E as <- <-; exists v; auto|auto].
Qed.

(** Every constructible tree is encoded (negative integers included). *)
Lemma bencode_ok v : constructible v = true -> encodable v.
Proof.
  induction v as [s|i|l IH|d IH] using value_ind'; intros Hc.
  - eexists. reflexivity.
  - eexists. reflexivity.
  - simpl in Hc. rewrite forallb_forall in Hc. rewrite Forall_forall in IH.
    assert (H : exists body, concat_results (map bencode l) = Ok body).
    { induction l as [|x l IHl]; [exists []; reflexivity|].
      destruct (IH x) as (e & He); [left; reflexivity|apply Hc; left; reflexivity|].
      destruct IHl as (body & Hb);
        try first [ intros y Hy Hcy; apply IH; [right; exact Hy|exact Hcy]
                  | intros y Hy; apply Hc; right; exact Hy ].
      exists (e ++ body). simpl. rewrite He, Hb. reflexivity. }
    destruct H as (body & Hb). eexists. simpl. rewrite Hb. reflexivity.
  - simpl in Hc.
    apply andb_true_iff in Hc as [Hc Hcv]. apply andb_true_iff in Hc as [Hkb _].
    assert (Hd : Forall (fun kv => encodable (snd kv)) d).
    { rewrite forallb_forall in Hcv. rewrite Forall_forall in IH |- *.
      intros x Hx. apply IH; auto. }
    destruct (bencode_dict_items d Hd (insertion_sort (dict_keys d)))
      as (items & _ & Hcr & _).
    { intros x Hx. eapply Permutation_in; [apply insertion_sort_perm|exact Hx]. }
    eexists. rewrite bencode_Dict, (sorted_kbytes _ Hkb). simpl bind.
    rewrite Hcr. reflexivity.
Qed.

Lemma dict_get_perm {V} (d1 d2 : list (key * V)) k :
  NoDup (dict_keys d1) -> Permutation d1 d2 -> dict_get d1 k = dict_get d2 k.
Proof.
  intros Hnd P.
  assert (Hnd2 : NoDup (dict_keys d2)).
  { eapply Permutation_NoDup; [|exact Hnd]. apply Permutation_map, P. }
  destruct (in_dec key_eq_dec k (dict_keys d1)) as [Hin|Hin].
  - destruct (dict_get_in d1 k Hin) as (v & Hv & Hi). rewrite Hv. symmetry.
    apply dict_get_NoDup_in; [exact Hnd2|].
    eapply Permutation_in; [exact P|exact Hi].
  - rewrite !dict_get_not_in; [reflexivity| |exact Hin].
    intros Hin2. apply Hin. eapply Permutation_in; [|exact Hin2].
    apply Permutation_map. symmetry. exact P.
Qed.

(** Two dictionaries with the same entries, inserted in any two orders,
    have the same encoding. *)
Lemma bencode_Dict_perm d1 d2 :
  all_kbytes (dict_keys d1) -> NoDup (dict_keys d1) -> Permutation d1 d2 ->
  bencode (Dict d1) = bencode (Dict d2).
Proof.
  intros Hkb Hnd P. rewrite !bencode_Dict.
  assert (Pk : Permutation (dict_keys d1) (dict_keys d2))
    by (apply Permutation_map, P).
  rewrite (sorted_kbytes _ Hkb).
  rewrite (sorted_kbytes (dict_keys d2)) by (eapply all_kbytes_perm; eassumption).
  rewrite <- (insertion_sort_perm_eq _ _ Hkb Pk). simpl bind.
  f_equal. f_equal. apply map_ext. intros k.
  rewrite (dict_get_perm
             (map (fun kv => (fst kv, bencode (snd kv))) d1)
             (map (fun kv => (fst kv, bencode (snd kv))) d2)).
  - reflexivity.
  - rewrite dict_keys_map. exact Hnd.
  - apply Permutation_map, P.
Qed.

Lemma aux_read_minus fuel rest :
  aux_read (S (S fuel)) ("i"%byte :: "-"%byte :: rest) = Raise ValueError.
Proof.
  rewrite aux_read_S, aux_S. change (is_digit "i") with false. cbv iota.
  destruct (byte_eq_dec "i" "i"); [|congruence].
  simpl read1. cbv iota. unfold digits_loop_opt.
  rewrite digits_loop_stop by reflexivity. reflexivity.
Qed.

(** A negative integer is written with a sign that [bdecode] refuses. *)
Lemma bdecode_negative_int i offset :
  (i < 0)%Z ->
  exists enc, bencode (Int i) = Ok enc /\ bdecode enc offset = Raise ValueError.
Proof.
  intros Hi. eexists. split; [reflexivity|].
  unfold fmt_int. destruct (Z.ltb_spec i 0); [|lia].
  unfold bdecode, decode_fuel.
  match goal with
  | |- context [aux_read ?f _] => replace f with (S (S (f - 2))) by lia
  end.
  simpl app. rewrite aux_read_minus. reflexivity.
Qed.

(** ** Trailing bytes *)

(** Bytes after a decoded object do not change the result. *)
Lemma bdecode_app data v s offset :
  bdecode data offset = Ok v -> bdecode (data ++ s) offset = Ok v.
Proof.
  intros H. apply bdecode_Ok_inv in H as (rest & H).
  destruct (decode_ext (decode_fuel data)) as (_ & Hr & _).
  destruct (Hr _ _ _ H) as (cs & E & _ & Hs).
  apply (bdecode_of_aux_read (decode_fuel data) _ _ _ (rest ++ s)).
  rewrite E at 2. rewrite <- app_assoc. apply Hs.
Qed.

(** ** The piece hasher *)

Lemma read_shorter n f chunk rest :
  read n f = Ok (chunk, rest) -> length chunk <> 0 -> length rest < length f.
Proof.
  unfold read. destruct (n <? -1)%Z; [discriminate|].
  destruct (n <? 0)%Z; intros [= <- <-] Hne; simpl in *; [lia|].
  rewrite length_firstn in Hne. rewrite length_skipn. lia.
Qed.

Lemma read_outcome n f :
  match read n f with
  | Ok _ => (-1 <= n)%Z
  | Raise e => e = ValueError /\ (n < -1)%Z
  | OutOfFuel => False
  end.
Proof.
  unfold read. destruct (Z.ltb_spec n (-1)); [split; [reflexivity|lia]|].
  destruct (n <? 0)%Z; lia.
Qed.

Section HashingFacts.
Context {H : Hashlib}.

Lemma hash_file_loop_eq L f pieces fed :
  hash_file_loop L f pieces fed =
  '(chunk, rest) <- read L f ;;
  if Nat.eqb (length chunk) 0 then Ok (pieces, fed)
  else if (Z.of_nat (length chunk) <? L)%Z
       then Ok (pieces ++ sha1 chunk, fed ++ chunk)
       else hash_file_loop L rest (pieces ++ sha1 chunk) (fed ++ chunk).
Proof.
  simp hash_file_loop. generalize (inspect (read L f)). intros [r Hr].
  (etransitivity; [|rewrite Hr; reflexivity]).
  destruct r as [[chunk rest]| |]; simp hash_file_loop;
    cbn [bind]; try reflexivity.
  destruct (Nat.eq_dec (length chunk) 0) as [E|E]; simpl.
  - rewrite E. reflexivity.
  - apply Nat.eqb_neq in E. rewrite E. reflexivity.
Qed.

Lemma hash_dir_loop_eq L f inc pieces fed :
  hash_dir_loop L f inc pieces fed =
  '(chunk, rest) <- read (L - Z.of_nat (length inc)) f ;;
  if Nat.eqb (length chunk) 0 then Ok (inc, pieces, fed)
  else if (Z.of_nat (length inc + length chunk) <? L)%Z
       then Ok (inc ++ chunk, pieces, fed ++ chunk)
       else hash_dir_loop L rest [] (pieces ++ sha1 (inc ++ chunk))
                          (fed ++ chunk).
Proof.
  simp hash_dir_loop.
  generalize (inspect (read (L - Z.of_nat (length inc)) f)). intros [r Hr].
  (etransitivity; [|rewrite Hr; reflexivity]).
  destruct r as [[chunk rest]| |]; simp hash_dir_loop;
    cbn [bind]; try reflexivity.
  destruct (Nat.eq_dec (length chunk) 0) as [E|E]; simpl.
  - rewrite E. reflexivity.
  - apply Nat.eqb_neq in E. rewrite E. reflexivity.
Qed.

End HashingFacts.

(** ** Windows of a byte stream *)

Lemma window_shift L data k :
  window L data (S k) = window L (skipn L data) k.
Proof.
  unfold window. rewrite skipn_skipn. f_equal. f_equal. simpl. lia.
Qed.

Lemma map_window_shift L data m :
  map (window L data) (seq 1 m) = map (window L (skipn L data)) (seq 0 m).
Proof.
  rewrite <- seq_shift, map_map. apply map_ext. intros k. apply window_shift.
Qed.

Lemma ceil_div_step n L :
  0 < L -> 0 < n -> (n + L - 1) / L = S ((n - L + L - 1) / L).
Proof.
  intros HL Hn. destruct (Nat.le_gt_cases n L) as [Hle|Hgt].
  - replace (n - L) with 0 by lia. simpl.
    rewrite (Nat.div_small (L - 1)) by lia.
    symmetry. apply (Nat.div_unique _ _ 1 (n - 1)); lia.
  - replace (n + L - 1) with (n - L + L - 1 + 1 * L) by lia.
    rewrite Nat.div_add by lia. lia.
Qed.

Lemma chunks_nil L : 0 < L -> chunks L [] = [].
Proof.
  intros HL. unfold chunks. simpl. rewrite Nat.div_small by lia. reflexivity.
Qed.

Lemma chunks_cons L data :
  0 < L -> data <> [] ->
  chunks L data = firstn L data :: chunks L (skipn L data).
Proof.
  intros HL Hd. unfold chunks.
  assert (Hn : 0 < length data) by (destruct data; simpl; [congruence|lia]).
  rewrite (ceil_div_step (length data) L HL Hn).
  rewrite length_skipn. simpl seq. simpl map. f_equal.
  apply map_window_shift.
Qed.

Lemma full_chunks_short L data :
  length data < L -> full_chunks L data = [] /\ remainder L data = data.
Proof.
  intros Hlt. unfold full_chunks, remainder.
  rewrite Nat.div_small by lia. split; reflexivity.
Qed.

Lemma full_chunks_cons L data :
  0 < L -> L <= length data ->
  full_chunks L data = firstn L data :: full_chunks L (skipn L data) /\
  remainder L data = remainder L (skipn L data).
Proof.
  intros HL Hle. unfold full_chunks, remainder. rewrite length_skipn.
  assert (E : length data / L = S ((length data - L) / L)).
  { replace (length data) with (length data - L + 1 * L) at 1 by lia.
    rewrite Nat.div_add by lia. lia. }
  rewrite E. split.
  - simpl seq. simpl map. f_equal. apply map_window_shift.
  - rewrite skipn_skipn. f_equal. lia.
Qed.

Lemma remainder_length L data : 0 < L -> length (remainder L data) < L.
Proof.
  intros HL. unfold remainder. rewrite length_skipn.
  pose proof (Nat.div_mod_eq (length data) L).
  pose proof (Nat.mod_upper_bound (length data) L). lia.
Qed.

(** The chunks are the full windows, and then the remainder if any. *)
Lemma chunks_full_remainder L : 0 < L -> forall data,
  chunks L data =
  full_chunks L data ++
  (if nonempty (remainder L data) then [remainder L data] else []).
Proof.
  intros HL data. remember (length data) as n eqn:En. revert data En.
  induction n as [n IH] using lt_wf_ind. intros data En.
  destruct data as [|x data'] eqn:Ed.
  - rewrite chunks_nil by exact HL.
    destruct (full_chunks_short L []) as [-> ->]; [simpl; lia|reflexivity].
  - rewrite <- Ed in *. assert (Hne : data <> []) by (rewrite Ed; discriminate).
    rewrite chunks_cons by assumption.
    destruct (Nat.le_gt_cases L (length data)) as [Hle|Hgt].
    + destruct (full_chunks_cons L data HL Hle) as [-> ->].
      rewrite (IH (length (skipn L data))); [reflexivity| |reflexivity].
      rewrite length_skipn. lia.
    + destruct (full_chunks_short L data Hgt) as [-> ->].
      rewrite firstn_all2, skipn_all2 by lia. rewrite chunks_nil by exact HL.
      rewrite Ed. reflexivity.
Qed.

(** The full windows of a stream can be taken piecewise, carrying the
    remainder over. *)
Lemma full_chunks_app L : 0 < L -> forall X Y,
  full_chunks L (X ++ Y) =
    full_chunks L X ++ full_chunks L (remainder L X ++ Y) /\
  remainder L (X ++ Y) = remainder L (remainder L X ++ Y).
Proof.
  intros HL X. remember (length X) as n eqn:En. revert X En.
  induction n as [n IH] using lt_wf_ind. intros X En Y.
  destruct (Nat.le_gt_cases L (length X)) as [Hle|Hgt].
  - destruct (full_chunks_cons L X HL Hle) as [-> ->].
    destruct (full_chunks_cons L (X ++ Y) HL) as [-> ->].
    { rewrite length_app. lia. }
    rewrite firstn_app, skipn_app.
    replace (L - length X) with 0 by lia. simpl firstn. simpl skipn.
    rewrite app_nil_r.
    destruct (IH (length (skipn L X))) with (X := skipn L X) (Y := Y)
      as [-> ->]; [rewrite length_skipn; lia|reflexivity|].
    split; reflexivity.
  - destruct (full_chunks_short L X Hgt) as [-> ->]. split; reflexivity.
Qed.

Lemma concat_chunks L : 0 < L -> forall data, concat (chunks L data) = data.
Proof.
  intros HL data. remember (length data) as n eqn:En. revert data En.
  induction n as [n IH] using lt_wf_ind. intros data En.
  destruct data as [|x data'] eqn:Ed.
  - rewrite chunks_nil by exact HL. reflexivity.
  - rewrite <- Ed in *. assert (Hne : data <> []) by (rewrite Ed; discriminate).
    rewrite chunks_cons by assumption. simpl.
    rewrite (IH (length (skipn L data))); [apply firstn_skipn| |reflexivity].
    rewrite length_skipn. subst n. rewrite Ed. cbn [length]. lia.
Qed.

Lemma length_chunks L data : length (chunks L data) = (length data + L - 1) / L.
Proof. unfold chunks. rewrite length_map, length_seq. reflexivity. Qed.

Lemma window_length L data k :
  length (window L data k) = Nat.min L (length data - k * L).
Proof. unfold window. rewrite length_firstn, length_skipn. reflexivity. Qed.

(** ** The read loops compute the chunks *)

Section HasherCorrect.
Context {H : Hashlib}.

Lemma read_pos n f :
  (0 <= n)%Z -> read n f = Ok (firstn (Z.to_nat n) f, skipn (Z.to_nat n) f).
Proof.
  intros Hn. unfold read.
  destruct (Z.ltb_spec n (-1)); [lia|].
  destruct (Z.ltb_spec n 0); [lia|reflexivity].
Qed.

Lemma hash_file_loop_spec L : (0 < L)%Z -> forall f pieces fed,
  hash_file_loop L f pieces fed =
  Ok (pieces ++ concat (map sha1 (chunks (Z.to_nat L) f)), fed ++ f).
Proof.
  intros HL f. remember (length f) as n eqn:En. revert f En.
  induction n as [n IH] using lt_wf_ind. intros f En pieces fed.
  rewrite hash_file_loop_eq, read_pos by lia. cbn [bind].
  assert (HL' : 0 < Z.to_nat L) by lia.
  destruct (Nat.eqb_spec (length (firstn (Z.to_nat L) f)) 0) as [E|E].
  - rewrite length_firstn in E.
    assert (f = []) by (destruct f; [reflexivity|simpl in E; lia]). subst f.
    rewrite chunks_nil by exact HL'. simpl. rewrite !app_nil_r. reflexivity.
  - assert (Hne : f <> []) by (intros ->; rewrite firstn_nil in E; auto).
    rewrite (chunks_cons _ f HL' Hne). simpl map. simpl concat.
    destruct (Z.ltb_spec (Z.of_nat (length (firstn (Z.to_nat L) f))) L) as [Hlt|Hge].
    + rewrite length_firstn in Hlt.
      rewrite (skipn_all2 f) by lia. rewrite (firstn_all2 f) by lia.
      rewrite chunks_nil by exact HL'. simpl. rewrite app_nil_r. reflexivity.
    + rewrite (IH (length (skipn (Z.to_nat L) f))); [| |reflexivity].
      * rewrite <- !app_assoc, firstn_skipn. reflexivity.
      * rewrite length_skipn. rewrite length_firstn in E. lia.
Qed.

Lemma hash_dir_loop_spec L : (0 < L)%Z -> forall f inc pieces fed,
  length inc < Z.to_nat L ->
  hash_dir_loop L f inc pieces fed =
  Ok (remainder (Z.to_nat L) (inc ++ f),
      pieces ++ concat (map sha1 (full_chunks (Z.to_nat L) (inc ++ f))),
      fed ++ f).
Proof.
  intros HL f. remember (length f) as n eqn:En. revert f En.
  induction n as [n IH] using lt_wf_ind. intros f En inc pieces fed Hinc.
  rewrite hash_dir_loop_eq, read_pos by lia. cbn [bind].
  assert (HL' : 0 < Z.to_nat L) by lia.
  replace (Z.to_nat (L - Z.of_nat (length inc))) with (Z.to_nat L - length inc)
    by lia.
  set (k := Z.to_nat L - length inc).
  destruct (Nat.eqb_spec (length (firstn k f)) 0) as [E|E].
  - rewrite length_firstn in E.
    assert (f = []) by (destruct f; [reflexivity|simpl in E; lia]). subst f.
    rewrite !app_nil_r.
    destruct (full_chunks_short (Z.to_nat L) inc Hinc) as [-> ->].
    simpl. rewrite app_nil_r. reflexivity.
  - destruct (Z.ltb_spec (Z.of_nat (length inc + length (firstn k f))) L)
      as [Hlt|Hge].
    + rewrite length_firstn in Hlt.
      rewrite (firstn_all2 f) by lia.
      destruct (full_chunks_short (Z.to_nat L) (inc ++ f)) as [-> ->].
      { rewrite length_app. lia. }
      simpl. rewrite app_nil_r. reflexivity.
    + rewrite length_firstn in Hge, E.
      assert (Hk : k <= length f) by lia.
      rewrite (IH (length (skipn k f))); [| |reflexivity|simpl; lia].
      * destruct (full_chunks_cons (Z.to_nat L) (inc ++ f) HL') as [-> ->].
        { rewrite length_app. lia. }
        rewrite firstn_app, skipn_app.
        rewrite (firstn_all2 inc), (skipn_all2 inc) by lia.
        fold k. simpl app. simpl map. simpl concat.
        rewrite <- !app_assoc, firstn_skipn. reflexivity.
      * rewrite length_skipn. lia.
Qed.

End HasherCorrect.

Section WalkCorrect.
Context {H : Hashlib}.

Lemma hash_walk_spec (o : options) :
  (0 < piece_length o)%Z ->
  forall entries files inc pieces,
  all_readable entries = true ->
  length inc < Z.to_nat (piece_length o) ->
  exists files',
    hash_walk o (files, inc, pieces) entries =
    Ok (files',
        remainder (Z.to_nat (piece_length o)) (inc ++ walk_content entries),
        pieces ++
        concat (map sha1 (full_chunks (Z.to_nat (piece_length o))
                                      (inc ++ walk_content entries)))).
Proof.
  intros HL. assert (HL' : 0 < Z.to_nat (piece_length o)) by lia.
  induction entries as [|[relpath [content readable]] entries IH];
    intros files inc pieces Hr Hinc.
  - exists files. simpl. unfold walk_content. simpl. rewrite app_nil_r.
    destruct (full_chunks_short _ inc Hinc) as [-> ->].
    simpl. rewrite app_nil_r. reflexivity.
  - unfold all_readable in Hr. simpl in Hr.
    apply andb_true_iff in Hr as [Hre Hr]. subst readable.
    cbn [hash_walk hash_walked_file negb].
    rewrite (hash_dir_loop_spec _ HL) by exact Hinc. cbn [bind].
    match goal with
    | |- context [hash_walk o (?fs, ?i, ?p) entries] =>
        destruct (IH fs i p Hr (remainder_length _ _ HL')) as (files' & E)
    end.
    exists files'. etransitivity; [apply E|]. f_equal.
    unfold walk_content. cbn [map concat fst snd]. fold (walk_content entries).
    rewrite (app_assoc inc content).
    destruct (full_chunks_app _ HL' (inc ++ content) (walk_content entries))
      as [-> ->].
    rewrite map_app, concat_app, <- app_assoc. reflexivity.
Qed.

Lemma hash_content_file (fs : node) (filename : path) (o : options)
      (info0 : dict) content :
  (0 < piece_length o)%Z ->
  lookup fs filename = Some (File content true) ->
  exists info',
    hash_content fs filename o info0 =
    Ok (info', concat (map sha1 (chunks (Z.to_nat (piece_length o)) content))).
Proof.
  intros HL E. unfold hash_content. rewrite E. cbv beta iota. cbn [negb].
  rewrite (hash_file_loop_spec _ HL). eexists. reflexivity.
Qed.

Lemma hash_content_dir (fs : node) (filename : path) (o : options)
      (info0 : dict) entries :
  (0 < piece_length o)%Z ->
  lookup fs filename = Some (Dir entries) ->
  all_readable (walk [] (Dir entries)) = true ->
  exists info',
    hash_content fs filename o info0 =
    Ok (info',
        concat (map sha1 (chunks (Z.to_nat (piece_length o))
                                 (walk_content (walk [] (Dir entries)))))).
Proof.
  intros HL E Hr. assert (HL' : 0 < Z.to_nat (piece_length o)) by lia.
  unfold hash_content. rewrite E. cbv beta iota.
  destruct (hash_walk_spec o HL (walk [] (Dir entries)) [] [] [] Hr)
    as (files & E'); [simpl; lia|].
  eexists. etransitivity; [apply (bind_Ok _ _ _ E')|].
  cbv beta iota. cbn [app]. f_equal. f_equal.
  rewrite (chunks_full_remainder _ HL'), map_app, concat_app.
  destruct (nonempty (remainder _ _)); simpl; rewrite ?app_nil_r; reflexivity.
Qed.

End WalkCorrect.

(** *** The three sizes of the specification *)

Lemma chunks_three L data :
  0 < L -> length data = 3 * L ->
  chunks L data = [window L data 0; window L data 1; window L data 2] /\
  length (window L data 0) = L /\ length (window L data 1) = L /\
  length (window L data 2) = L.
Proof.
  intros HL Hn. unfold chunks.
  replace ((length data + L - 1) / L) with 3
    by (apply (Nat.div_unique _ _ 3 (L - 1)); lia).
  split; [reflexivity|]. rewrite !window_length. lia.
Qed.

Lemma chunks_three_and_one L data :
  0 < L -> length data = 3 * L + 1 ->
  chunks L data =
    [window L data 0; window L data 1; window L data 2; window L data 3] /\
  length (window L data 0) = L /\ length (window L data 1) = L /\
  length (window L data 2) = L /\ length (window L data 3) = 1.
Proof.
  intros HL Hn. unfold chunks.
  replace ((length data + L - 1) / L) with 4
    by (apply (Nat.div_unique _ _ 4 0); lia).
  split; [reflexivity|]. rewrite !window_length. lia.
Qed.

Lemma chunks_two_halves L (f1 f2 : bytes) :
  2 <= L -> length f1 = L / 2 -> length f2 = L / 2 ->
  chunks L (f1 ++ f2) = [f1 ++ f2].
Proof.
  intros HL H1 H2.
  pose proof (Nat.div_mod_eq L 2) as Hd.
  pose proof (Nat.mod_upper_bound L 2) as Hm.
  assert (Hh : 1 <= L / 2) by (apply Nat.div_le_lower_bound; lia).
  unfold chunks. rewrite length_app, H1, H2.
  replace ((L / 2 + L / 2 + L - 1) / L) with 1.
  - simpl. unfold window. simpl. rewrite firstn_all2; [reflexivity|].
    rewrite length_app. lia.
  - apply (Nat.div_unique _ _ 1 (L / 2 + L / 2 - 1)); lia.
Qed.

(** ** The Merkle reduction *)

Section MerkleFacts.
Context {H : Hashlib}.

Lemma length_concat_hashes units :
  hashes units -> length (concat units) = 20 * length units.
Proof.
  induction 1 as [|u units Hu _ IH]; simpl; [reflexivity|].
  rewrite length_app, Hu, IH. lia.
Qed.

Lemma range20_exact m : range20 (20 * m) = map (fun k => 20 * k) (seq 0 m).
Proof.
  unfold range20. f_equal. f_equal.
  symmetry. apply (Nat.div_unique _ _ m 19); lia.
Qed.

Lemma pair_up_hashes units : hashes (pair_up units).
Proof.
  unfold hashes. revert units. fix IH 1. intros [|a [|c rest]]; simpl.
  - constructor.
  - constructor.
  - constructor; [apply sha1_length|apply IH].
Qed.

Lemma pair_up_length units : length (pair_up units) = length units / 2.
Proof.
  revert units. fix IH 1. intros [|a [|c rest]]; simpl length.
  - reflexivity.
  - reflexivity.
  - rewrite IH.
    replace (S (S (length rest))) with (length rest + 1 * 2) by lia.
    rewrite Nat.div_add by lia. lia.
Qed.

(** The in-place loop [for i in range(0, len(pieces) // 2, 20)]: having
    written [j] digests ([done]) over the first units, the [2*j] units
    read so far leave [20*j] stale bytes ([mid]) before the units still
    to read. *)
Lemma inplace_pairs k : forall rest j done mid,
  length rest = 2 * k -> hashes rest ->
  length done = 20 * j -> length mid = 20 * j ->
  exists mid',
    length mid' = 20 * (j + k) /\
    fold_left (fun pieces i =>
                 slice_assign pieces i (i + 20)
                              (sha1 (slice pieces (2 * i) (2 * i + 40))))
              (map (fun k => 20 * k) (seq j k))
              (done ++ mid ++ concat rest) =
    done ++ concat (pair_up rest) ++ mid'.
Proof.
  induction k as [|k IH]; intros rest j done mid Hlen Hh Hd Hm.
  - destruct rest; [|discriminate]. exists mid. simpl.
    rewrite app_nil_r. split; [lia|reflexivity].
  - destruct rest as [|a [|c rest]]; simpl in Hlen; try lia.
    inversion Hh as [|? ? Ha Hh']; subst. inversion Hh' as [|? ? Hc Hr]; subst.
    cbn [seq map fold_left concat pair_up].
    set (x := sha1 (a ++ c)).
    assert (Es : slice (done ++ mid ++ a ++ c ++ concat rest)
                       (2 * (20 * j)) (2 * (20 * j) + 40) = a ++ c).
    { unfold slice. rewrite app_assoc.
      rewrite skipn_app, skipn_all2 by (rewrite length_app; lia).
      rewrite length_app.
      replace (2 * (20 * j) - (length done + length mid)) with 0 by lia.
      replace (2 * (20 * j) + 40 - 2 * (20 * j)) with 40 by lia.
      simpl skipn. simpl app. rewrite app_assoc.
      rewrite firstn_app, firstn_all2 by (rewrite length_app; lia).
      rewrite length_app. replace (40 - (length a + length c)) with 0 by lia.
      rewrite firstn_O, app_nil_r. reflexivity. }
    rewrite Es. fold x.
    assert (Ea : slice_assign (done ++ mid ++ a ++ c ++ concat rest)
                              (20 * j) (20 * j + 20) x =
                 (done ++ x) ++ skipn 20 (mid ++ a ++ c) ++ concat rest).
    { unfold slice_assign.
      rewrite firstn_app, firstn_all2 by lia.
      replace (20 * j - length done) with 0 by lia.
      rewrite firstn_O, app_nil_r.
      rewrite skipn_app, skipn_all2 by lia.
      replace (20 * j + 20 - length done) with 20 by lia.
      rewrite app_nil_l, <- app_assoc. f_equal. f_equal.
      rewrite (app_assoc mid), (app_assoc (mid ++ a)).
      rewrite skipn_app, <- !app_assoc.
      replace (20 - length (mid ++ a ++ c)) with 0
        by (rewrite !length_app; lia).
      reflexivity. }
    rewrite Ea.
    destruct (IH rest (S j) (done ++ x) (skipn 20 (mid ++ a ++ c)))
      as (mid' & Hm' & E).
    + lia.
    + exact Hr.
    + rewrite length_app. unfold x. rewrite sha1_length. lia.
    + rewrite length_skipn, !length_app. lia.
    + exists mid'. split; [lia|]. rewrite E.
      rewrite <- !app_assoc. reflexivity.
Qed.

Lemma pad_units_even units padding :
  exists k, length (pad_units units padding) = 2 * k /\
            k = (length units + 1) / 2.
Proof.
  unfold pad_units. destruct (Nat.odd (length units)) eqn:E.
  - apply Nat.odd_spec in E. destruct E as (m & E).
    exists (S m). rewrite length_app, E. simpl length. split; [lia|].
    replace (2 * m + 1 + 1) with (0 + (m + 1) * 2) by lia.
    rewrite Nat.div_add by lia. simpl. lia.
  - assert (E' : Nat.even (length units) = true).
    { rewrite <- Nat.negb_odd, E. reflexivity. }
    apply Nat.even_spec in E'. destruct E' as (m & E').
    exists m. split; [exact E'|]. rewrite E'.
    apply (Nat.div_unique _ _ m 1); lia.
Qed.

Lemma pad_units_hashes units padding :
  hashes units -> length padding = 20 -> hashes (pad_units units padding).
Proof.
  intros Hu Hp. unfold pad_units. destruct (Nat.odd _); [|exact Hu].
  apply Forall_app. split; [exact Hu|]. constructor; [exact Hp|constructor].
Qed.

(** One round of the loop pairs up the units, padded to an even count. *)
Lemma merkle_round_units units padding :
  hashes units -> length padding = 20 ->
  merkle_round (concat units, padding) =
  (concat (pair_up (pad_units units padding)), sha1 (padding ++ padding)).
Proof.
  intros Hu Hp. unfold merkle_round. cbv beta iota zeta. f_equal.
  assert (Epad : (if length (concat units) mod 40 =? 0
                  then concat units else concat units ++ padding) =
                 concat (pad_units units padding)).
  { rewrite (length_concat_hashes units Hu). unfold pad_units.
    destruct (Nat.odd (length units)) eqn:E.
    - apply Nat.odd_spec in E. destruct E as (m & E). rewrite E.
      replace (20 * (2 * m + 1)) with (20 + m * 40) by lia.
      rewrite Nat.Div0.mod_add. simpl. rewrite concat_app. simpl.
      rewrite app_nil_r. reflexivity.
    - assert (E' : Nat.even (length units) = true).
      { rewrite <- Nat.negb_odd, E. reflexivity. }
      apply Nat.even_spec in E'. destruct E' as (m & E'). rewrite E'.
      replace (20 * (2 * m)) with (0 + m * 40) by lia.
      rewrite Nat.Div0.mod_add. reflexivity. }
  rewrite Epad.
  destruct (pad_units_even units padding) as (k & Hk & _).
  pose proof (pad_units_hashes units padding Hu Hp) as Hh.
  rewrite (length_concat_hashes _ Hh), Hk.
  replace (20 * (2 * k) / 2) with (20 * k)
    by (apply (Nat.div_unique _ _ _ 0); lia).
  rewrite range20_exact.
  destruct (inplace_pairs k (pad_units units padding) 0 [] [] Hk Hh
              eq_refl eq_refl) as (mid' & Hm & E).
  simpl app in E. rewrite E.
  assert (Hl : length (concat (pair_up (pad_units units padding))) = 20 * k).
  { rewrite length_concat_hashes by apply pair_up_hashes.
    rewrite pair_up_length, Hk.
    replace (2 * k / 2) with k by (apply (Nat.div_unique _ _ k 0); lia).
    reflexivity. }
  rewrite length_app, Hl, Hm.
  replace ((20 * k + 20 * (0 + k)) / 2) with (20 * k)
    by (apply (Nat.div_unique _ _ _ 0); lia).
  rewrite firstn_app, firstn_all2 by lia.
  rewrite Hl, Nat.sub_diag, firstn_O, app_nil_r. reflexivity.
Qed.

End MerkleFacts.

Lemma while_loop_eq {S} (cond : S -> bool) (body : S -> S) fuel s :
  while_loop cond body fuel s =
  if cond s then
    match fuel with
    | O => OutOfFuel
    | Datatypes.S fuel' =>
        '(s', rounds) <- while_loop cond body fuel' (body s) ;;
        Ok (s', Datatypes.S rounds)
    end
  else Ok (s, 0).
Proof. destruct fuel; reflexivity. Qed.

Section MerkleLoop.
Context {H : Hashlib}.

(** The loop computes the reduction of the specification, and stops on a
    single hash. *)
Lemma merkle_loop_units n : forall units padding fuel1 fuel2,
  length units <= n -> n <= fuel1 -> n <= fuel2 ->
  units <> [] -> hashes units -> length padding = 20 ->
  exists padding' rounds root,
    while_loop merkle_cond merkle_round fuel1 (concat units, padding) =
      Ok ((concat (tree_reduce fuel2 units padding), padding'), rounds) /\
    tree_reduce fuel2 units padding = [root] /\
    length root = 20 /\
    (length units = 1 -> rounds = 0 /\ units = [root]).
Proof.
  induction n as [|n IH]; intros units padding fuel1 fuel2 Hn H1 H2 Hne Hu Hp.
  - destruct units; [congruence|simpl in Hn; lia].
  - rewrite while_loop_eq. unfold merkle_cond at 1. cbn [fst].
    rewrite (length_concat_hashes units Hu).
    destruct (Nat.ltb_spec 20 (20 * length units)) as [Hgt|Hle].
    + destruct fuel1 as [|fuel1]; [lia|]. destruct fuel2 as [|fuel2]; [lia|].
      rewrite (merkle_round_units units padding Hu Hp).
      destruct (pad_units_even units padding) as (k & Hk & Hk').
      assert (Hlen : length (pair_up (pad_units units padding)) = k).
      { rewrite pair_up_length, Hk.
        apply eq_sym, (Nat.div_unique _ _ k 0); lia. }
      assert (Hk2 : k <= n /\ 1 <= k).
      { pose proof (Nat.div_mod_eq (length units + 1) 2).
        pose proof (Nat.mod_upper_bound (length units + 1) 2). lia. }
      destruct (IH (pair_up (pad_units units padding)) (sha1 (padding ++ padding))
                   fuel1 fuel2) as (p' & r & root & E & Et & Hr & _);
        try lia.
      * intros E. rewrite E in Hlen. simpl in Hlen. lia.
      * apply pair_up_hashes.
      * apply sha1_length.
      * exists p', (S r), root. rewrite E. cbn [bind].
        assert (Etr : tree_reduce (S fuel2) units padding =
                      tree_reduce fuel2 (pair_up (pad_units units padding))
                                  (sha1 (padding ++ padding))).
        { cbn [tree_reduce].
          destruct (Nat.ltb_spec 1 (length units)); [reflexivity|lia]. }
        rewrite Etr. repeat split; auto; lia.
    + assert (E1 : length units = 1).
      { destruct units; [congruence|simpl in *; lia]. }
      destruct units as [|u [|u' units]]; try discriminate.
      exists padding, 0, u. inversion Hu; subst.
      assert (Etr : tree_reduce fuel2 [u] padding = [u])
        by (destruct fuel2; reflexivity).
      rewrite Etr. repeat split; auto.
Qed.

Lemma merkle_root_units units :
  units <> [] -> hashes units ->
  exists padding rounds root,
    merkle_loop (length (concat units)) (concat units) =
      Ok ((root, padding), rounds) /\
    merkle_root (concat units) = Ok root /\
    tree_root units = [root] /\
    length root = 20 /\
    (length units = 1 -> rounds = 0 /\ units = [root]).
Proof.
  intros Hne Hu.
  destruct (merkle_loop_units (length units) units zero_padding
              (length (concat units)) (length units))
    as (p' & r & root & E & Et & Hr & H1);
    [lia|rewrite (length_concat_hashes units Hu); lia|lia|exact Hne|exact Hu
    |apply repeat_length|].
  exists p', r, root. unfold merkle_root, merkle_loop, tree_root.
  rewrite E, Et. simpl. rewrite app_nil_r. auto.
Qed.

End MerkleLoop.

Lemma hashesb_hashes units : hashesb units = true -> hashes units.
Proof.
  unfold hashesb, hashes. rewrite forallb_forall, Forall_forall.
  intros Hb u Hu. apply Nat.eqb_eq, Hb, Hu.
Qed.

Lemma nonempty_ne {A} (l : list A) : nonempty l = true -> l <> [].
Proof. destruct l; [discriminate|discriminate]. Qed.

(** ** Building dictionaries *)

Lemma dict_get_set {V} (d : list (key * V)) k v k' :
  dict_get (dict_set d k v) k' = if key_eqb k' k then Some v else dict_get d k'.
Proof.
  induction d as [|[k0 v0] d IH]; simpl.
  - reflexivity.
  - destruct (key_eqb k k0) eqn:E; simpl.
    + apply key_eqb_eq in E. subst k0.
      destruct (key_eqb k' k); reflexivity.
    + rewrite IH. destruct (key_eqb k' k0) eqn:E0; [|reflexivity].
      apply key_eqb_eq in E0. subst k0.
      destruct (key_eqb k' k) eqn:E1; [|reflexivity].
      apply key_eqb_eq in E1. subst k'. rewrite key_eqb_refl in E. discriminate.
Qed.

Lemma dict_set_keys {V} (d : list (key * V)) k v :
  dict_keys (dict_set d k v) =
  if existsb (key_eqb k) (dict_keys d) then dict_keys d else dict_keys d ++ [k].
Proof.
  induction d as [|[k0 v0] d IH]; simpl; [reflexivity|].
  destruct (key_eqb k k0) eqn:E; simpl; [reflexivity|].
  rewrite IH. destruct (existsb _ _); reflexivity.
Qed.

Lemma dict_set_values {V} (P : V -> Prop) (d : list (key * V)) k v :
  Forall (fun kv => P (snd kv)) d -> P v ->
  Forall (fun kv => P (snd kv)) (dict_set d k v).
Proof.
  induction 1 as [|[k0 v0] d Hk Hd IH]; intros Hv; simpl.
  - constructor; [exact Hv|constructor].
  - destruct (key_eqb k k0); constructor; auto.
Qed.

Lemma NoDup_snoc (l : list key) k :
  NoDup l -> ~ In k l -> NoDup (l ++ [k]).
Proof.
  intros Hl Hk. apply NoDup_app; [exact Hl|repeat constructor; intros []|].
  intros x Hx [<-|[]]. contradiction.
Qed.

Lemma plain_Dict d :
  plain (Dict d) <->
  all_kbytes (dict_keys d) /\ NoDup (dict_keys d) /\
  Forall (fun kv => plain (snd kv)) d.
Proof.
  unfold plain. simpl. rewrite !andb_true_iff, nodupb_NoDup, !forallb_forall.
  rewrite Forall_forall. unfold all_kbytes. rewrite forallb_forall.
  split.
  - intros [[[Hk Hn] Hc] Hv]. repeat split; auto.
  - intros (Hk & Hn & Hv). repeat split; auto; intros x Hx; apply Hv, Hx.
Qed.

(** [d[k] = v] keeps a dictionary plain. *)
Lemma plain_dict_set d s v :
  plain (Dict d) -> plain v -> plain (Dict (dict_set d (KBytes s) v)).
Proof.
  rewrite !plain_Dict. intros (Hk & Hn & Hv) Hp. rewrite dict_set_keys.
  destruct (existsb (key_eqb (KBytes s)) (dict_keys d)) eqn:E.
  - repeat split; auto. apply dict_set_values; assumption.
  - repeat split.
    + unfold all_kbytes in *. rewrite forallb_app, Hk. reflexivity.
    + apply NoDup_snoc; [exact Hn|]. intros Hin.
      assert (E' : existsb (key_eqb (KBytes s)) (dict_keys d) = true).
      { apply existsb_exists. exists (KBytes s). split; [exact Hin|].
        apply key_eqb_refl. }
      congruence.
    + apply dict_set_values; assumption.
Qed.

Lemma plain_empty : plain (Dict []).
Proof. split; reflexivity. Qed.

Lemma plain_Bytes s : plain (Bytes s).
Proof. split; reflexivity. Qed.

Lemma plain_Int i : (0 <= i)%Z -> plain (Int i).
Proof. intros Hi. split; [reflexivity|]. apply Z.leb_le, Hi. Qed.

Lemma plain_List l : Forall plain l -> plain (List l).
Proof.
  unfold plain. simpl. rewrite !forallb_forall, Forall_forall.
  intros Hl. split; intros x Hx; apply Hl, Hx.
Qed.

Lemma plain_bytes_list l : plain (bytes_list l).
Proof.
  apply plain_List. apply Forall_forall. intros x Hx.
  apply in_map_iff in Hx as (s & <- & _). apply plain_Bytes.
Qed.

(** Constructible dictionaries keep being so without the sign condition. *)
Lemma constructible_dict_set d s v :
  constructible (Dict d) = true -> constructible v = true ->
  constructible (Dict (dict_set d (KBytes s) v)) = true.
Proof.
  simpl. rewrite !andb_true_iff, !nodupb_NoDup, !forallb_forall.
  intros [[Hk Hn] Hv] Hc. rewrite dict_set_keys.
  assert (Hvals : forall x, In x (dict_set d (KBytes s) v) ->
                            constructible (snd x) = true).
  { apply Forall_forall.
    apply (dict_set_values (fun v => constructible v = true)); [|exact Hc].
    apply Forall_forall. exact Hv. }
  destruct (existsb (key_eqb (KBytes s)) (dict_keys d)) eqn:E.
  - repeat split; auto.
  - repeat split; auto.
    + intros x Hx. apply in_app_or in Hx as [Hx|[<-|[]]]; auto.
    + apply NoDup_snoc; [exact Hn|]. intros Hin.
      assert (E' : existsb (key_eqb (KBytes s)) (dict_keys d) = true).
      { apply existsb_exists. exists (KBytes s). split; [exact Hin|].
        apply key_eqb_refl. }
      congruence.
Qed.

(** ** The parts of a Metainfo *)

Section MetainfoFacts.
Context {H : Hashlib}.

Lemma Metainfo_init_inv fs filename o now m :
  Metainfo_init fs filename o now = Ok m ->
  exists self,
    build_self o now = Ok self /\
    build_info fs filename o = Ok (info m) /\
    as_dict m = dict_set self (KBytes (b "info")) (Dict (info m)).
Proof.
  unfold Metainfo_init, build_self, build_info.
  destruct (match announce o with
            | [] => Ok []
            | [] :: _ => Raise IndexError
            | (tracker :: _) :: _ => _
            end) as [self0| |]; cbn [bind]; try discriminate.
  cbv zeta.
  destruct (hash_content fs filename o _) as [[info1 pieces]| |];
    cbn [bind]; try discriminate.
  destruct (merkle o).
  - destruct (merkle_root pieces) as [root| |]; cbn [bind]; try discriminate.
    intros [= <-]. eexists. cbn [info as_dict]. repeat split.
  - cbn [bind]. intros [= <-]. eexists. cbn [info as_dict]. repeat split.
Qed.

Lemma Metainfo_init_raises_inv fs filename o now e :
  Metainfo_init fs filename o now = Raise e ->
  build_self o now = Raise e \/ build_info fs filename o = Raise e.
Proof.
  unfold Metainfo_init, build_self, build_info.
  destruct (match announce o with
            | [] => Ok []
            | [] :: _ => Raise IndexError
            | (tracker :: _) :: _ => _
            end) as [self0| |]; cbn [bind]; try discriminate;
    [|intros [= ->]; left; reflexivity].
  cbv zeta.
  destruct (hash_content fs filename o _) as [[info1 pieces]| |];
    cbn [bind]; try discriminate; [|intros [= ->]; right; reflexivity].
  destruct (merkle o).
  - destruct (merkle_root pieces) as [root| |]; cbn [bind]; try discriminate.
    intros [= ->]. right. reflexivity.
  - cbn [bind]. discriminate.
Qed.

Lemma hash_walk_options o1 o2 entries : forall st,
  piece_length o1 = piece_length o2 -> md5sum o1 = md5sum o2 ->
  hash_walk o1 st entries = hash_walk o2 st entries.
Proof.
  induction entries as [|[relpath [content readable]] entries IH];
    intros [[files inc] pieces] HL Hm; [reflexivity|].
  cbn [hash_walk]. unfold hash_walked_file. rewrite HL, Hm.
  destruct (negb readable); [reflexivity|].
  destruct (hash_dir_loop _ _ _ _ _) as [[[inc' pieces'] fed]| |];
    cbn [bind]; [|reflexivity..].
  apply IH; assumption.
Qed.

Lemma hash_content_options fs filename o1 o2 info0 :
  piece_length o1 = piece_length o2 -> md5sum o1 = md5sum o2 ->
  hash_content fs filename o1 info0 = hash_content fs filename o2 info0.
Proof.
  intros HL Hm. unfold hash_content.
  destruct (lookup fs filename) as [[content readable|entries]|];
    [|rewrite (hash_walk_options o1 o2 _ _ HL Hm)|]; rewrite ?HL, ?Hm;
    reflexivity.
Qed.

(** [info] is a function of the content and of the descriptor options. *)
Lemma build_info_options fs filename o1 o2 :
  same_descriptor_options o1 o2 ->
  build_info fs filename o1 = build_info fs filename o2.
Proof.
  intros (HL & Hp & Hm & Hk). unfold build_info.
  rewrite (hash_content_options fs filename o1 o2 _ HL Hm), HL, Hp, Hk.
  reflexivity.
Qed.

End MetainfoFacts.

(** *** Shapes of the values a Metainfo holds *)

Section Shapes.
Context {H : Hashlib}.
Variable P : value -> Prop.
Hypothesis P_bytes : forall s, P (Bytes s).
Hypothesis P_int : forall i, (0 <= i)%Z -> P (Int i).
Hypothesis P_list : forall l, Forall P l -> P (List l).
Hypothesis P_empty : P (Dict []).
Hypothesis P_set :
  forall d s v, P (Dict d) -> P v -> P (Dict (dict_set d (KBytes s) v)).

Lemma P_bytes_list l : P (bytes_list l).
Proof.
  apply P_list, Forall_forall. intros x Hx.
  apply in_map_iff in Hx as (s & <- & _). apply P_bytes.
Qed.

Lemma hash_walk_shape o entries : forall files inc pieces files' inc' pieces',
  Forall P files ->
  hash_walk o (files, inc, pieces) entries = Ok (files', inc', pieces') ->
  Forall P files'.
Proof.
  induction entries as [|[relpath [content readable]] entries IH];
    intros files inc pieces files' inc' pieces' Hf E.
  - simpl in E. injection E as <- <- <-. exact Hf.
  - cbn [hash_walk] in E. unfold hash_walked_file in E.
    destruct (negb readable); [discriminate|].
    destruct (hash_dir_loop _ _ _ _ _) as [[[inc1 pieces1] fed]| |];
      cbn [bind] in E; try discriminate.
    eapply IH; [|exact E].
    apply Forall_app. split; [exact Hf|]. constructor; [|constructor].
    assert (Hd : P (Dict (dict_set (dict_set [] (KBytes (b "path"))
                                             (bytes_list relpath))
                                   (KBytes (b "length"))
                                   (Int (getsize content))))).
    { apply P_set; [apply P_set; [apply P_empty|apply P_bytes_list]|].
      apply P_int. unfold getsize. lia. }
    destruct (md5sum o); [apply P_set; [exact Hd|apply P_bytes]|exact Hd].
Qed.

Lemma hash_content_shape fs filename o info0 info1 pieces :
  P (Dict info0) ->
  hash_content fs filename o info0 = Ok (info1, pieces) ->
  P (Dict info1).
Proof.
  intros H0. unfold hash_content.
  destruct (lookup fs filename) as [[content readable|entries]|].
  - destruct (negb readable); [discriminate|].
    destruct (hash_file_loop _ _ _ _) as [[pieces1 fed]| |];
      cbn [bind]; try discriminate.
    intros [= <- _].
    assert (Hd : P (Dict (dict_set info0 (KBytes (b "length"))
                                   (Int (getsize content))))).
    { apply P_set; [exact H0|]. apply P_int. unfold getsize. lia. }
    destruct (md5sum o); [apply P_set; [exact Hd|apply P_bytes]|exact Hd].
  - destruct (hash_walk o _ _) as [[[files inc] pieces1]| |] eqn:E;
      cbn [bind]; try discriminate.
    intros [= <- _]. apply P_set; [exact H0|]. apply P_list.
    eapply hash_walk_shape; [|exact E]. constructor.
  - intros [= <- _]. exact H0.
Qed.

Lemma build_info_shape fs filename o info1 :
  P (Int (piece_length o)) ->
  build_info fs filename o = Ok info1 ->
  P (Dict info1).
Proof.
  intros HL. unfold build_info. cbv zeta.
  destruct (hash_content fs filename o _) as [[info0 pieces]| |] eqn:E;
    cbn [bind]; try discriminate.
  apply hash_content_shape in E.
  - destruct (merkle o).
    + destruct (merkle_root pieces) as [root| |]; cbn [bind]; try discriminate.
      intros [= <-]. apply P_set; [exact E|apply P_bytes].
    + intros [= <-]. apply P_set; [exact E|apply P_bytes].
  - apply P_set; [|apply P_bytes].
    assert (Hd : P (Dict (dict_set [] (KBytes (b "piece length"))
                                   (Int (piece_length o)))))
      by (apply P_set; [apply P_empty|exact HL]).
    destruct (private o); [apply P_set; [exact Hd|apply P_int; lia]|exact Hd].
Qed.

Lemma build_self_shape o now self :
  P (Int now) ->
  Forall (fun hp => P (Int (snd hp))) (nodes o) ->
  build_self o now = Ok self ->
  P (Dict self).
Proof.
  intros Hnow Hnodes. unfold build_self.
  assert (Hann : P (announce_value (announce o))).
  { apply P_list, Forall_forall. intros x Hx.
    apply in_map_iff in Hx as (l & <- & _). apply P_bytes_list. }
  assert (Hnv : P (nodes_value (nodes o))).
  { apply P_list, Forall_forall. intros x Hx.
    apply in_map_iff in Hx as (hp & <- & Hin). apply P_list.
    rewrite Forall_forall in Hnodes.
    constructor; [apply P_bytes|constructor; [apply Hnodes, Hin|constructor]]. }
  destruct (match announce o with
            | [] => Ok []
            | [] :: _ => Raise IndexError
            | (tracker :: _) :: _ => _
            end) as [self0| |] eqn:E; cbn [bind]; try discriminate.
  assert (H0 : P (Dict self0)).
  { destruct (announce o) as [|[|tracker tier] tiers].
    - injection E as <-. apply P_empty.
    - discriminate.
    - cbv zeta in E. injection E as <-.
      assert (Hd : P (Dict (dict_set [] (KBytes (b "announce")) (Bytes tracker))))
        by (apply P_set; [apply P_empty|apply P_bytes]).
      destruct (_ || _); [|exact Hd].
      apply (P_set (dict_set [] (KBytes (b "announce")) (Bytes tracker))
                   (b "announce-list") _ Hd Hann). }
  cbv zeta. intros [= <-].
  apply P_set; [|apply P_empty].
  apply P_set; [|apply P_bytes].
  assert (H1 : P (Dict (if nonempty (nodes o)
                        then dict_set self0 (KBytes (b "nodes"))
                                      (nodes_value (nodes o))
                        else self0)))
    by (destruct (nonempty (nodes o)); [apply P_set|]; assumption).
  match type of H1 with P (Dict ?d1) =>
    assert (H2 : P (Dict (if nonempty (httpseeds o)
                          then dict_set d1 (KBytes (b "httpseeds"))
                                        (bytes_list (httpseeds o))
                          else d1)))
      by (destruct (nonempty (httpseeds o));
          [apply P_set; [exact H1|apply P_bytes_list]|exact H1])
  end.
  match type of H2 with P (Dict ?d2) =>
    assert (H3 : P (Dict (if nonempty (url_list o)
                          then dict_set d2 (KBytes (b "url-list"))
                                        (bytes_list (url_list o))
                          else d2)))
      by (destruct (nonempty (url_list o));
          [apply P_set; [exact H2|apply P_bytes_list]|exact H2])
  end.
  destruct (nonempty (comment o)).
  - apply P_set; [|apply P_bytes]. apply P_set; [exact H3|exact Hnow].
  - apply P_set; [exact H3|exact Hnow].
Qed.

Lemma Metainfo_shape fs filename o now m :
  P (Int now) -> P (Int (piece_length o)) ->
  Forall (fun hp => P (Int (snd hp))) (nodes o) ->
  Metainfo_init fs filename o now = Ok m ->
  P (Dict (info m)) /\ P (Dict (as_dict m)).
Proof.
  intros Hnow HL Hnodes E.
  destruct (Metainfo_init_inv _ _ _ _ _ E) as (self & Es & Ei & ->).
  pose proof (build_info_shape _ _ _ _ HL Ei) as Hi.
  split; [exact Hi|].
  apply P_set; [|exact Hi]. exact (build_self_shape o now self Hnow Hnodes Es).
Qed.

End Shapes.

(** ** What the encodings of two dictionaries can share *)

Lemma flat_map_get_keys {V} (d : list (key * V)) ks :
  incl ks (dict_keys d) ->
  dict_keys (flat_map (fun k => match dict_get d k with
                                | Some v => [(k, v)]
                                | None => []
                                end) ks) = ks.
Proof.
  induction ks as [|k ks IH]; intros Hincl; simpl; [reflexivity|].
  destruct (dict_get_in d k) as (v & Hv & _).
  { apply Hincl. left. reflexivity. }
  unfold dict_keys in *. rewrite map_app, Hv, IH; [reflexivity|].
  intros x Hx. apply Hincl. right. exact Hx.
Qed.

Lemma sorted_items_keys {V} (d : list (key * V)) :
  dict_keys (sorted_items d) = insertion_sort (dict_keys d).
Proof.
  unfold sorted_items. apply flat_map_get_keys.
  intros x Hx. eapply Permutation_in; [apply insertion_sort_perm|exact Hx].
Qed.

Lemma dict_get_sorted_items {V} (d : list (key * V)) k :
  NoDup (dict_keys d) -> dict_get (sorted_items d) k = dict_get d k.
Proof.
  intros Hnd.
  assert (Hnd' : NoDup (dict_keys (sorted_items d))).
  { rewrite sorted_items_keys. eapply Permutation_NoDup; [|exact Hnd].
    symmetry. apply insertion_sort_perm. }
  destruct (in_dec key_eq_dec k (dict_keys d)) as [Hin|Hin].
  - destruct (dict_get_in d k Hin) as (v & Hv & _). rewrite Hv.
    apply dict_get_NoDup_in; [exact Hnd'|].
    unfold sorted_items. apply in_flat_map. exists k. split.
    + eapply Permutation_in; [symmetry; apply insertion_sort_perm|exact Hin].
    + rewrite Hv. left. reflexivity.
  - rewrite (dict_get_not_in d k Hin). apply dict_get_not_in.
    rewrite sorted_items_keys. intros Hin'. apply Hin.
    eapply Permutation_in; [apply insertion_sort_perm|exact Hin'].
Qed.

(** Two plain dictionaries that differ at a key have different
    encodings. *)
Lemma bencode_Dict_differs d1 d2 k e1 e2 :
  plain (Dict d1) -> plain (Dict d2) ->
  option_map canon (dict_get d1 k) <> option_map canon (dict_get d2 k) ->
  bencode (Dict d1) = Ok e1 -> bencode (Dict d2) = Ok e2 ->
  e1 <> e2.
Proof.
  intros [Hc1 Hn1] [Hc2 Hn2] Hk E1 E2 <-.
  destruct (bdecode_bencode_ext _ Hc1 Hn1) as (x1 & Ex1 & Hd1).
  destruct (bdecode_bencode_ext _ Hc2 Hn2) as (x2 & Ex2 & Hd2).
  rewrite E1 in Ex1. rewrite E2 in Ex2.
  injection Ex1 as <-. injection Ex2 as <-.
  specialize (Hd1 [] 0%Z). specialize (Hd2 [] 0%Z).
  rewrite Hd1 in Hd2. simpl in Hd2. injection Hd2 as Hs.
  apply Hk.
  assert (Hnd : forall d, constructible (Dict d) = true -> NoDup (dict_keys d)).
  { intros d Hc. simpl in Hc. apply andb_true_iff in Hc as [Hc _].
    apply andb_true_iff in Hc as [_ Hc]. apply nodupb_NoDup, Hc. }
  rewrite <- !(dict_get_map canon).
  rewrite <- (dict_get_sorted_items (map _ d1))
    by (rewrite dict_keys_map; auto).
  rewrite <- (dict_get_sorted_items (map _ d2))
    by (rewrite dict_keys_map; auto).
  rewrite Hs. reflexivity.
Qed.

(** ** Hexadecimal text *)

Lemma unhex_hex_byte c :
  Byte.of_N (16 * unhex_digit (hex_digit (Byte.to_N c / 16)) +
             unhex_digit (hex_digit (Byte.to_N c mod 16))) = Some c.
Proof. destruct c; reflexivity. Qed.

Lemma unhexlify_hexlify d : unhexlify (hexlify d) = d.
Proof.
  induction d as [|c d IH]; [reflexivity|].
  unfold hexlify in *. cbn [flat_map app unhexlify].
  rewrite unhex_hex_byte, IH. reflexivity.
Qed.

Lemma hexlify_inj d1 d2 : hexlify d1 = hexlify d2 -> d1 = d2.
Proof.
  intros E. rewrite <- (unhexlify_hexlify d1), <- (unhexlify_hexlify d2), E.
  reflexivity.
Qed.

(** ** The info dictionary *)

Section InfoFacts.
Context {H : Hashlib}.

Lemma build_info_plain fs filename o info1 :
  (0 <= piece_length o)%Z ->
  build_info fs filename o = Ok info1 -> plain (Dict info1).
Proof.
  intros HL. apply (build_info_shape plain).
  - apply plain_Bytes.
  - apply plain_Int.
  - apply plain_List.
  - apply plain_empty.
  - apply plain_dict_set.
  - apply plain_Int, HL.
Qed.

Lemma constructible_List l :
  Forall (fun v => constructible v = true) l -> constructible (List l) = true.
Proof.
  intros Hl. simpl. apply forallb_forall. rewrite Forall_forall in Hl. exact Hl.
Qed.

(** Everything [Metainfo] puts in its dictionary can be encoded. *)
Lemma Metainfo_constructible fs filename o now m :
  Metainfo_init fs filename o now = Ok m ->
  constructible (Dict (info m)) = true /\
  constructible (Dict (as_dict m)) = true.
Proof.
  apply (Metainfo_shape (fun v => constructible v = true)).
  - reflexivity.
  - reflexivity.
  - apply constructible_List.
  - reflexivity.
  - apply constructible_dict_set.
  - reflexivity.
  - reflexivity.
  - apply Forall_forall. reflexivity.
Qed.

Lemma hash_content_piece_length fs filename o info0 info1 pieces :
  hash_content fs filename o info0 = Ok (info1, pieces) ->
  dict_get info1 (KBytes (b "piece length")) =
  dict_get info0 (KBytes (b "piece length")).
Proof.
  unfold hash_content.
  destruct (lookup fs filename) as [[content readable|entries]|].
  - destruct (negb readable); [discriminate|].
    destruct (hash_file_loop _ _ _ _) as [[pieces1 fed]| |];
      cbn [bind]; try discriminate.
    intros [= <- _]. destruct (md5sum o); rewrite !dict_get_set; reflexivity.
  - destruct (hash_walk o _ _) as [[[files inc] pieces1]| |];
      cbn [bind]; try discriminate.
    intros [= <- _]. rewrite dict_get_set. reflexivity.
  - intros [= <- _]. reflexivity.
Qed.

Lemma build_info_piece_length fs filename o info1 :
  build_info fs filename o = Ok info1 ->
  dict_get info1 (KBytes (b "piece length")) = Some (Int (piece_length o)).
Proof.
  unfold build_info. cbv zeta.
  destruct (hash_content fs filename o _) as [[info0 pieces]| |] eqn:E;
    cbn [bind]; try discriminate.
  apply hash_content_piece_length in E.
  assert (E0 : dict_get info0 (KBytes (b "piece length")) =
               Some (Int (piece_length o))).
  { rewrite E. destruct (private o); rewrite !dict_get_set; reflexivity. }
  destruct (merkle o).
  - destruct (merkle_root pieces) as [root| |]; cbn [bind]; try discriminate.
    intros [= <-]. rewrite dict_get_set. exact E0.
  - intros [= <-]. rewrite dict_get_set. exact E0.
Qed.

End InfoFacts.

(** ** Nothing in a build runs out of fuel *)

Section Totality.
Context {H : Hashlib}.

Lemma hash_string_nil : hash_string [].
Proof. exists []. split; [reflexivity|constructor]. Qed.

Lemma hash_string_snoc pieces x :
  hash_string pieces -> hash_string (pieces ++ sha1 x).
Proof.
  intros (units & -> & Hu). exists (units ++ [sha1 x]). split.
  - rewrite concat_app. simpl. rewrite app_nil_r. reflexivity.
  - apply Forall_app. split; [exact Hu|].
    constructor; [apply sha1_length|constructor].
Qed.

Lemma hash_file_loop_hashes L f : forall pieces fed,
  hash_string pieces ->
  match hash_file_loop L f pieces fed with
  | Ok (pieces', _) => hash_string pieces'
  | Raise _ => True
  | OutOfFuel => False
  end.
Proof.
  remember (length f) as n eqn:En. revert f En.
  induction n as [n IH] using lt_wf_ind. intros f En pieces fed Hp.
  rewrite hash_file_loop_eq. pose proof (read_outcome L f) as Ho.
  destruct (read L f) as [[chunk rest]| |] eqn:Er; cbn [bind];
    [|exact I|exact Ho].
  destruct (Nat.eqb_spec (length chunk) 0) as [E|E]; [exact Hp|].
  destruct (_ <? L)%Z; [apply hash_string_snoc, Hp|].
  apply (IH (length rest)); [|reflexivity|apply hash_string_snoc, Hp].
  subst n. eapply read_shorter; eassumption.
Qed.

Lemma hash_dir_loop_hashes L f : forall inc pieces fed,
  hash_string pieces ->
  match hash_dir_loop L f inc pieces fed with
  | Ok (_, pieces', _) => hash_string pieces'
  | Raise _ => True
  | OutOfFuel => False
  end.
Proof.
  remember (length f) as n eqn:En. revert f En.
  induction n as [n IH] using lt_wf_ind. intros f En inc pieces fed Hp.
  rewrite hash_dir_loop_eq.
  set (k := (L - Z.of_nat (length inc))%Z).
  pose proof (read_outcome k f) as Ho.
  destruct (read k f) as [[chunk rest]| |] eqn:Er; cbn [bind];
    [|exact I|exact Ho].
  destruct (Nat.eqb_spec (length chunk) 0) as [E|E]; [exact Hp|].
  destruct (_ <? L)%Z; [exact Hp|].
  apply (IH (length rest)); [|reflexivity|apply hash_string_snoc, Hp].
  subst n. eapply read_shorter; eassumption.
Qed.

Lemma hash_walk_hashes o entries : forall files inc pieces,
  hash_string pieces ->
  match hash_walk o (files, inc, pieces) entries with
  | Ok (_, _, pieces') => hash_string pieces'
  | Raise _ => True
  | OutOfFuel => False
  end.
Proof.
  induction entries as [|[relpath [content readable]] entries IH];
    intros files inc pieces Hp; [exact Hp|].
  cbn [hash_walk]. unfold hash_walked_file.
  destruct (negb readable); [exact I|].
  pose proof (hash_dir_loop_hashes (piece_length o) content inc pieces [] Hp)
    as Hd.
  destruct (hash_dir_loop _ _ _ _ _) as [[[inc1 pieces1] fed]| |];
    cbn [bind]; [|exact I|exact Hd].
  apply IH, Hd.
Qed.

Lemma hash_content_hashes fs filename o info0 :
  match hash_content fs filename o info0 with
  | Ok (_, pieces) => hash_string pieces
  | Raise _ => True
  | OutOfFuel => False
  end.
Proof.
  unfold hash_content.
  destruct (lookup fs filename) as [[content readable|entries]|].
  - destruct (negb readable); [exact I|].
    pose proof (hash_file_loop_hashes (piece_length o) content [] []
                  hash_string_nil) as Hf.
    destruct (hash_file_loop _ _ _ _) as [[pieces fed]| |]; cbn [bind];
      [exact Hf|exact I|exact Hf].
  - pose proof (hash_walk_hashes o (walk [] (Dir entries)) [] [] []
                  hash_string_nil) as Hw.
    destruct (hash_walk o _ _) as [[[files inc] pieces]| |]; cbn [bind];
      [|exact I|exact Hw].
    destruct (nonempty inc); [apply hash_string_snoc, Hw|exact Hw].
  - apply hash_string_nil.
Qed.

Lemma merkle_root_total pieces :
  hash_string pieces -> exists root, merkle_root pieces = Ok root.
Proof.
  intros (units & -> & Hu). destruct units as [|u units].
  - exists []. reflexivity.
  - destruct (merkle_root_units (u :: units)) as (_ & _ & root & _ & E & _);
      [discriminate|exact Hu|]. exists root. exact E.
Qed.

Lemma build_info_total fs filename o : build_info fs filename o <> OutOfFuel.
Proof.
  unfold build_info. cbv zeta.
  pose proof (hash_content_hashes fs filename o
                (dict_set
                   (if private o
                    then dict_set (dict_set [] (KBytes (b "piece length"))
                                            (Int (piece_length o)))
                                  (KBytes (b "private")) (Int 1)
                    else dict_set [] (KBytes (b "piece length"))
                                  (Int (piece_length o)))
                   (KBytes (b "name")) (Bytes (basename filename)))) as Hh.
  destruct (hash_content fs filename o _) as [[info0 pieces]| |];
    cbn [bind]; [|discriminate|contradiction].
  destruct (merkle o); [|discriminate].
  destruct (merkle_root_total pieces Hh) as (root & ->). discriminate.
Qed.

Lemma build_self_total o now : build_self o now <> OutOfFuel.
Proof.
  unfold build_self. destruct (announce o) as [|[|tracker tier] tiers];
    cbn [bind]; discriminate.
Qed.

Lemma Metainfo_init_total fs filename o now :
  Metainfo_init fs filename o now <> OutOfFuel.
Proof.
  intros E.
  assert (Hd : build_self o now = OutOfFuel \/
               build_info fs filename o = OutOfFuel).
  { revert E. unfold Metainfo_init, build_self, build_info.
    destruct (match announce o with
              | [] => Ok []
              | [] :: _ => Raise IndexError
              | (tracker :: _) :: _ => _
              end) as [self0| |]; cbn [bind]; try discriminate;
      [|left; reflexivity].
    cbv zeta.
    destruct (hash_content fs filename o _) as [[info1 pieces]| |];
      cbn [bind]; try discriminate; [|right; reflexivity].
    destruct (merkle o); [|discriminate].
    destruct (merkle_root pieces) as [root| |]; cbn [bind]; try discriminate.
    right. reflexivity. }
  destruct Hd as [Hd|Hd].
  - exact (build_self_total o now Hd).
  - exact (build_info_total fs filename o Hd).
Qed.

End Totality.

(** ** Writing a file *)

(** After [put_file] the file is there with the content put, and can be
    written again. *)
Lemma put_file_spec p : forall fs content fs',
  put_file fs p content = Ok fs' ->
  (exists readable, lookup fs' p = Some (File content readable)) /\
  (forall content', exists fs'', put_file fs' p content' = Ok fs'').
Proof.
  induction p as [|name p IH]; intros fs content fs' E.
  - destruct fs as [c r|entries]; simpl in E; [|discriminate].
    injection E as <-. split; [exists r; reflexivity|].
    intros content'. eexists. reflexivity.
  - destruct fs as [c r|entries]; [discriminate|].
    cbn [put_file] in E.
    match type of E with
    | bind ?r _ = _ => destruct r as [entries'| |] eqn:Ep
    end; cbn [bind] in E; try discriminate.
    injection E as <-. cbn [lookup put_file].
    revert entries' Ep.
    induction entries as [|[name' child] entries IHe]; intros entries' Ep.
    + destruct p; [|discriminate]. injection Ep as <-.
      destruct (bytes_eq_dec name name); [|congruence].
      split; [exists true; reflexivity|].
      intros content'. eexists. cbn [bind]. reflexivity.
    + destruct (bytes_eq_dec name name') as [En|En].
      * destruct (put_file child p content) as [child'| |] eqn:Ec;
          cbn [bind] in Ep; try discriminate.
        injection Ep as <-. destruct (IH _ _ _ Ec) as [Hl Hw].
        destruct (bytes_eq_dec name name'); [|contradiction].
        split; [exact Hl|].
        intros content'. destruct (Hw content') as (fs'' & ->).
        eexists. reflexivity.
      * match type of Ep with
        | bind ?r _ = _ => destruct r as [rest'| |] eqn:Er
        end; cbn [bind] in Ep; try discriminate.
        injection Ep as <-. destruct (IHe _ eq_refl) as [Hl Hw].
        destruct (bytes_eq_dec name name'); [contradiction|].
        split; [exact Hl|].
        intros content'. destruct (Hw content') as (fs'' & Ew).
        match type of Ew with
        | bind ?r _ = _ => destruct r as [rest''| |]
        end; cbn [bind] in Ew; try discriminate.
        eexists. reflexivity.
Qed.

Lemma put_file_total fs p content : put_file fs p content <> OutOfFuel.
Proof.
  revert fs. induction p as [|name p IH]; intros [c r|entries]; simpl;
    try discriminate.
  assert (Hp : forall es,
    (fix put (entries : list (bytes * node)) : result (list (bytes * node)) :=
       match entries with
       | [] => match p with
               | [] => Ok [(name, File content true)]
               | _ :: _ => Raise OSError
               end
       | (name', child) :: rest =>
           if bytes_eq_dec name name'
           then child' <- put_file child p content ;; Ok ((name', child') :: rest)
           else rest' <- put rest ;; Ok ((name', child) :: rest')
       end) es <> OutOfFuel).
  { induction es as [|[name' child] es IHe].
    - destruct p; discriminate.
    - destruct (bytes_eq_dec name name').
      + specialize (IH child). destruct (put_file child p content);
          cbn [bind]; congruence.
      + destruct (_ es); cbn [bind]; congruence. }
  specialize (Hp entries). destruct (_ entries); cbn [bind]; congruence.
Qed.

(** ** What a truncated input raises *)

Lemma split_prefix {A} (p q c r : list A) :
  p ++ q = c ++ r ->
  (exists l, l <> [] /\ c = p ++ l /\ q = l ++ r) \/
  (exists l, p = c ++ l /\ r = l ++ q).
Proof.
  intros E. apply app_eq_app in E as (l & [[-> ->]|[-> ->]]).
  - right. exists l. auto.
  - destruct l as [|x l].
    + right. exists []. rewrite !app_nil_r. auto.
    + left. exists (x :: l). split; [discriminate|auto].
Qed.

Lemma digits_loop_eof ds : forall n c,
  is_digit c = true -> Forall (fun x => is_digit x = true) ds ->
  digits_loop n c ds = (digits_value (c :: ds) n, None, []).
Proof.
  induction ds as [|x ds IH]; intros n c Hc Hds; simpl; rewrite Hc.
  - reflexivity.
  - inversion Hds; subst. rewrite IH; auto.
Qed.

(** Cut inside what the digit loop read, the loop runs into the end of the
    input. *)
Lemma digits_loop_trunc d : forall n c v c' rest p q,
  digits_loop n c d = (v, Some c', rest) ->
  d = p ++ q ++ rest -> q <> [] ->
  exists v', digits_loop n c p = (v', None, []).
Proof.
  induction d as [|x d IH]; intros n c v c' rest p q E Ed Hq.
  - destruct p; [|discriminate]. destruct q; [congruence|discriminate].
  - simpl in E. destruct (is_digit c) eqn:Hc.
    + destruct p as [|y p].
      * eexists. simpl. rewrite Hc. reflexivity.
      * simpl in Ed. injection Ed as <- Ed. simpl. rewrite Hc.
        eapply IH; eassumption.
    + injection E as _ _ <-. exfalso.
      assert (Hl : length (x :: d) = length (p ++ q ++ x :: d)) by congruence.
      rewrite !length_app in Hl. destruct q; [congruence|simpl in Hl; lia].
Qed.

Lemma dict_loop_eof fuel acc d v rest c acc' d' :
  dict_loop fuel c acc d = Ok (v, rest) ->
  dict_loop fuel None acc' d' = Raise ValueError.
Proof. destruct fuel; [discriminate|reflexivity]. Qed.

Lemma list_loop_eof fuel acc d v rest c acc' d' :
  list_loop fuel c acc d = Ok (v, rest) ->
  list_loop fuel None acc' d' = Raise ValueError.
Proof. destruct fuel; [discriminate|reflexivity]. Qed.

Lemma aux_read_eof fuel d v rest :
  aux_read fuel d = Ok (v, rest) -> aux_read fuel [] = Raise ValueError.
Proof. destruct fuel; [discriminate|reflexivity]. Qed.

(** A run that succeeds on an input raises [ValueError] on every proper
    prefix of what it read. *)
Lemma decode_trunc fuel :
  (forall m d v rest, aux fuel m d = Ok (v, rest) ->
     forall p q, d = p ++ q ++ rest -> q <> [] ->
                 aux fuel m p = Raise ValueError) /\
  (forall d v rest, aux_read fuel d = Ok (v, rest) ->
     forall p q, d = p ++ q ++ rest -> q <> [] ->
                 aux_read fuel p = Raise ValueError) /\
  (forall c acc d v rest, dict_loop fuel c acc d = Ok (v, rest) ->
     forall p q, d = p ++ q ++ rest -> q <> [] ->
                 dict_loop fuel c acc p = Raise ValueError) /\
  (forall c acc d v rest, list_loop fuel c acc d = Ok (v, rest) ->
     forall p q, d = p ++ q ++ rest -> q <> [] ->
                 list_loop fuel c acc p = Raise ValueError).
Proof.
  induction fuel as [|fuel (IHa & IHr & IHd & IHl)].
  - repeat split; intros; simpl in *; discriminate.
  - destruct (decode_ext fuel) as (Xa & Xr & Xd & Xl).
    repeat split.
    + (* aux *)
      intros m d v rest E p q Ed Hq. rewrite aux_S in E |- *.
      destruct (is_digit m) eqn:Hm.
      { destruct (digits_loop 0 m d) as [[len cur] d1] eqn:Hdl.
        destruct (is_byte cur ":") eqn:Hcur; simpl in E; [|discriminate].
        apply is_byte_true in Hcur. subst cur.
        destruct (Z.of_nat (length (firstn (Z.to_nat len) d1)) =? len)%Z eqn:Hlen;
          simpl in E; [|discriminate].
        injection E as _ <-. apply Z.eqb_eq in Hlen.
        destruct (digits_loop_ext _ _ _ _ _ _ Hdl) as (cs & Ecs & Hs).
        rewrite Ecs in Ed.
        rewrite <- (firstn_skipn (Z.to_nat len) d1) in Ed at 1.
        rewrite !app_assoc in Ed. apply app_inv_tail in Ed.
        symmetry in Ed.
        destruct (split_prefix _ _ _ _ Ed) as [(l & Hl & -> & Eq)|(l & -> & Eq)].
        - destruct (digits_loop_trunc _ _ _ _ _ _ p l Hdl) as (v' & ->); auto.
          rewrite Ecs, <- app_assoc. reflexivity.
        - rewrite Hs, is_byte_refl. simpl negb. cbv iota zeta.
          assert (Hlt : length l < Z.to_nat len).
          { assert (Hx : length (firstn (Z.to_nat len) d1) = length (l ++ q))
              by congruence.
            rewrite length_app in Hx. destruct q; [congruence|simpl in Hx; lia]. }
          rewrite firstn_all2 by lia.
          destruct (Z.eqb_spec (Z.of_nat (length l)) len); [lia|reflexivity]. }
      destruct (byte_eq_dec m "i") as [Hi|Hi].
      { destruct d as [|c0 d0]; simpl in E; [discriminate|].
        destruct (digits_loop 0 c0 d0) as [[i cur] d1] eqn:Hdl.
        destruct (is_byte cur "e") eqn:Hcur; simpl in E; [|discriminate].
        apply is_byte_true in Hcur. subst cur. injection E as _ <-.
        destruct p as [|y p]; [reflexivity|].
        simpl in Ed. injection Ed as <- Ed. simpl.
        destruct (digits_loop_trunc _ _ _ _ _ _ p q Hdl Ed Hq) as (v' & ->).
        reflexivity. }
      destruct (byte_eq_dec m "d") as [Hd|Hd].
      { destruct d as [|c0 d0]; simpl in E.
        - exfalso. eapply dict_loop_None, E.
        - destruct p as [|y p]; simpl.
          + eapply dict_loop_eof, E.
          + simpl in Ed. injection Ed as <- Ed. eapply IHd; eassumption. }
      destruct (byte_eq_dec m "l") as [Hl|Hl]; [|discriminate].
      destruct d as [|c0 d0]; simpl in E.
      * exfalso. eapply list_loop_None, E.
      * destruct p as [|y p]; simpl.
        -- eapply list_loop_eof, E.
        -- simpl in Ed. injection Ed as <- Ed. eapply IHl; eassumption.
    + (* aux_read *)
      intros d v rest E p q Ed Hq. rewrite aux_read_S in E |- *.
      destruct d as [|m d]; [discriminate|].
      destruct p as [|y p]; [reflexivity|].
      simpl in Ed. injection Ed as <- Ed. eapply IHa; eassumption.
    + (* dict_loop *)
      intros c acc d v rest E p q Ed Hq. rewrite dict_loop_S in E |- *.
      destruct c as [c|]; [|discriminate].
      destruct (byte_eq_dec c "e") as [He|He].
      { injection E as _ <-. exfalso.
        apply (f_equal (@length byte)) in Ed. rewrite !length_app in Ed.
        destruct q; [congruence|simpl in Ed; lia]. }
      destruct (aux fuel c d) as [[k d1]| |] eqn:Hk; simpl in E; try discriminate.
      destruct (aux_read fuel d1) as [[v' d2]| |] eqn:Hv; simpl in E;
        try discriminate.
      destruct (hashable k) as [k'| |] eqn:Hh; simpl in E; try discriminate.
      destruct d2 as [|x d3]; simpl in E.
      { exfalso. eapply dict_loop_None, E. }
      destruct (Xa _ _ _ _ Hk) as (c1 & E1 & H1).
      destruct (Xr _ _ _ Hv) as (c2 & E2 & _ & H2).
      destruct (Xd _ _ _ _ _ E) as (c3 & E3 & _).
      rewrite E1 in Ed. symmetry in Ed.
      destruct (split_prefix _ _ _ _ Ed) as [(l & Hl & -> & Eq)|(l & -> & Eq)].
      { rewrite (IHa _ _ _ _ Hk p l);
          [reflexivity|rewrite E1, <- app_assoc; reflexivity|exact Hl]. }
      rewrite H1. cbn [bind].
      rewrite E2 in Eq. symmetry in Eq.
      destruct (split_prefix _ _ _ _ Eq) as [(l' & Hl' & -> & Eq')|(l' & -> & Eq')].
      { rewrite (IHr _ _ _ Hv l l');
          [reflexivity|rewrite E2, <- app_assoc; reflexivity|exact Hl']. }
      rewrite H2. cbn [bind]. rewrite Hh. cbn [bind].
      destruct l' as [|y l']; simpl.
      { eapply dict_loop_eof, E. }
      simpl in Eq'. injection Eq' as <- Eq'.
      eapply IHd; [exact E| |exact Hq]. exact Eq'.
    + (* list_loop *)
      intros c acc d v rest E p q Ed Hq. rewrite list_loop_S in E |- *.
      destruct c as [c|]; [|discriminate].
      destruct (byte_eq_dec c "e") as [He|He].
      { injection E as _ <-. exfalso.
        apply (f_equal (@length byte)) in Ed. rewrite !length_app in Ed.
        destruct q; [congruence|simpl in Ed; lia]. }
      destruct (aux fuel c d) as [[v' d1]| |] eqn:Hk; simpl in E; try discriminate.
      destruct d1 as [|x d2]; simpl in E.
      { exfalso. eapply list_loop_None, E. }
      destruct (Xa _ _ _ _ Hk) as (c1 & E1 & H1).
      rewrite E1 in Ed. symmetry in Ed.
      destruct (split_prefix _ _ _ _ Ed) as [(l & Hl & -> & Eq)|(l & -> & Eq)].
      { rewrite (IHa _ _ _ _ Hk p l);
          [reflexivity|rewrite E1, <- app_assoc; reflexivity|exact Hl]. }
      rewrite H1. cbn [bind].
      destruct l as [|y l]; simpl.
      { eapply list_loop_eof, E. }
      simpl in Eq. injection Eq as <- Eq.
      eapply IHl; [exact E| |exact Hq]. exact Eq.
Qed.

(** No proper prefix of an input that [aux] reads entirely is decoded:
    [bdecode] raises [ValueError] on it. *)
Lemma truncated_raises data v p q offset :
  decodes_exactly data v -> data = p ++ q -> q <> [] ->
  bdecode p offset = Raise ValueError.
Proof.
  unfold decodes_exactly. intros Hd E Hq.
  destruct (decode_trunc (decode_fuel data)) as (_ & Tr & _).
  assert (Ep : aux_read (decode_fuel data) p = Raise ValueError).
  { apply (Tr _ _ _ Hd p q); [rewrite app_nil_r; exact E|exact Hq]. }
  unfold bdecode.
  rewrite <- (aux_read_fuel_mono (decode_fuel p) (decode_fuel data)).
  - rewrite Ep. reflexivity.
  - unfold decode_fuel. rewrite E, length_app. lia.
  - apply aux_read_enough.
Qed.

(** * Further facts about the codec *)

(** ** The decoder on inputs that no encoder writes *)

Lemma bdecode_of_aux_read_raise fuel data offset e :
  aux_read fuel data = Raise e -> bdecode data offset = Raise e.
Proof.
  intros H. unfold bdecode.
  pose proof (aux_read_enough data) as Hn.
  assert (E : aux_read (Nat.max fuel (decode_fuel data)) data = Raise e).
  { rewrite (aux_read_fuel_mono fuel); [exact H|lia|congruence]. }
  rewrite (aux_read_fuel_mono (decode_fuel data)) in E; [|lia|exact Hn].
  rewrite E. reflexivity.
Qed.

Lemma forallb_is_digit ds :
  forallb is_digit ds = true -> Forall (fun c => is_digit c = true) ds.
Proof. intros H. apply Forall_forall. apply forallb_forall. exact H. Qed.

Lemma aux_read_int_digits ds rest fuel :
  Forall (fun c => is_digit c = true) ds ->
  aux_read (S (S fuel)) (b "i" ++ ds ++ b "e" ++ rest) =
  Ok (Int (digits_value ds 0), rest).
Proof.
  intros Hd.
  change (b "i" ++ ds ++ b "e" ++ rest) with ("i"%byte :: ds ++ "e"%byte :: rest).
  rewrite aux_read_S, aux_S. change (is_digit "i") with false. cbv iota.
  destruct (byte_eq_dec "i" "i"); [|congruence].
  destruct ds as [|c ds].
  - cbn [app read1]. cbv iota. unfold digits_loop_opt.
    rewrite digits_loop_stop by reflexivity. reflexivity.
  - cbn [app read1]. cbv iota. unfold digits_loop_opt.
    inversion Hd as [|? ? Hc Hds]; subst.
    rewrite (digits_loop_app ds 0%Z c "e"%byte rest Hc Hds eq_refl).
    cbv iota. rewrite is_byte_refl. reflexivity.
Qed.

Lemma aux_read_string_digits c ds s rest fuel :
  Forall (fun x => is_digit x = true) (c :: ds) ->
  digits_value (c :: ds) 0 = Z.of_nat (length s) ->
  aux_read (S (S fuel)) ((c :: ds) ++ b ":" ++ s ++ rest) = Ok (Bytes s, rest).
Proof.
  intros Hd Hv. inversion Hd as [|? ? Hc Hds]; subst.
  change ((c :: ds) ++ b ":" ++ s ++ rest)
    with (c :: ds ++ ":"%byte :: s ++ rest).
  rewrite aux_read_S, aux_S, Hc.
  rewrite (digits_loop_app ds 0%Z c ":"%byte (s ++ rest) Hc Hds eq_refl).
  cbv iota. rewrite is_byte_refl. cbn [negb]. cbv zeta.
  rewrite Hv, Nat2Z.id.
  rewrite firstn_app, Nat.sub_diag, firstn_all, firstn_O, app_nil_r.
  rewrite Z.eqb_refl. cbn [negb].
  rewrite skipn_app, Nat.sub_diag, skipn_all. reflexivity.
Qed.

Lemma hashable_canon v : hashable v = Raise TypeError ->
  hashable (canon v) = Raise TypeError.
Proof. destruct v; simpl; congruence. Qed.

Lemma encoding_Ok v e : bencode v = Ok e -> encoding v = e.
Proof. unfold encoding. intros ->. reflexivity. Qed.

Lemma aux_read_unhashable_key k v rest :
  plain k -> plain v -> hashable k = Raise TypeError ->
  exists fuel,
    aux_read fuel (b "d" ++ encoding k ++ encoding v ++ rest) = Raise TypeError.
Proof.
  intros [Hkc Hkn] [Hvc Hvn] Hh.
  destruct (roundtrip_main k Hkc Hkn) as (ke & Ek & Hk).
  destruct (roundtrip_main v Hvc Hvn) as (ve & Ev & Hv).
  rewrite (encoding_Ok _ _ Ek), (encoding_Ok _ _ Ev).
  destruct Hk as (m & cs & f0 & -> & Hm & Hk).
  destruct (aux_read_decodes _ _ Hv) as (f1 & Hv').
  exists (S (S (S (Nat.max f0 f1)))).
  change (b "d" ++ (m :: cs) ++ ve ++ rest)
    with ("d"%byte :: m :: cs ++ ve ++ rest).
  rewrite aux_read_S, aux_S. change (is_digit "d") with false. cbv iota.
  destruct (byte_eq_dec "d" "i"); [discriminate|].
  destruct (byte_eq_dec "d" "d"); [|congruence].
  cbn [read1]. cbv iota. rewrite dict_loop_S.
  destruct (byte_eq_dec m "e"); [contradiction|].
  rewrite (Hk (Nat.max f0 f1) (ve ++ rest)) by lia. cbn [bind].
  rewrite (Hv' (Nat.max f0 f1) rest) by lia. cbn [bind].
  rewrite (hashable_canon _ Hh). reflexivity.
Qed.

(** ** Assignments in turn *)

Lemma fold_left_map {A B C} (f : A -> B -> A) (g : C -> B) l : forall a,
  fold_left f (map g l) a = fold_left (fun a x => f a (g x)) l a.
Proof. induction l as [|x l IH]; intros a; simpl; [reflexivity|apply IH]. Qed.

Lemma dict_get_fold_set (items : list (bytes * value)) k : forall acc r,
  dict_get acc (KBytes k) = r ->
  dict_get (fold_left (fun d kv => dict_set d (KBytes (fst kv)) (snd kv))
                      items acc) (KBytes k) =
  fold_left (fun r kv => if bytes_eq_dec k (fst kv) then Some (snd kv) else r)
            items r.
Proof.
  induction items as [|[k0 v0] items IH]; intros acc r Hr; simpl;
    [exact Hr|].
  apply IH. rewrite dict_get_set. unfold key_eqb.
  destruct (key_eq_dec (KBytes k) (KBytes k0)) as [E|E];
    destruct (bytes_eq_dec k k0) as [E'|E']; try reflexivity; try exact Hr.
  - injection E as E. contradiction.
  - subst. congruence.
Qed.

Lemma decodes_assignments (items : list (bytes * value)) :
  Forall (fun kv => plain (snd kv)) items ->
  decodes_to
    (b "d" ++
     concat (map (fun kv => bencode_key (KBytes (fst kv)) ++ encoding (snd kv))
                 items) ++ b "e")
    (Dict (assign_all (map (fun kv => (fst kv, canon (snd kv))) items))).
Proof.
  intros Hp.
  pose (items3 := map (fun kv : bytes * value =>
                         (fst kv, (encoding (snd kv), canon (snd kv)))) items).
  assert (H3 : Forall (fun it : bytes * (bytes * value) =>
                         decodes_to (fst (snd it)) (snd (snd it))) items3).
  { unfold items3. apply Forall_map. eapply Forall_impl; [|exact Hp].
    intros [k v] [Hc Hn]. cbn [fst snd].
    destruct (roundtrip_main v Hc Hn) as (e & Ee & Hd).
    rewrite (encoding_Ok _ _ Ee). exact Hd. }
  pose proof (decodes_dict items3 H3) as Hd.
  unfold items3 in Hd. rewrite map_map, fold_left_map in Hd. cbn [fst snd] in Hd.
  unfold assign_all. rewrite fold_left_map. cbn [fst snd]. exact Hd.
Qed.

(** ** Equality of values *)

Lemma dict_get_Some_in {V} (d : list (key * V)) k v :
  dict_get d k = Some v -> In (k, v) d.
Proof.
  induction d as [|[k0 v0] d IH]; simpl; [discriminate|].
  destruct (key_eqb k k0) eqn:E.
  - intros [= ->]. apply key_eqb_eq in E. subst. left. reflexivity.
  - intros Hg. right. apply IH. exact Hg.
Qed.

Lemma canon_eq_py_eq v1 : forall v2,
  constructible v1 = true -> constructible v2 = true ->
  canon v1 = canon v2 -> py_eq v1 v2 = true.
Proof.
  induction v1 as [s|i|l IH|d IH] using value_ind'; intros v2 H1 H2 E.
  - destruct v2; simpl in E; try discriminate. injection E as <-.
    simpl. destruct (bytes_eq_dec s s); congruence.
  - destruct v2; simpl in E; try discriminate. injection E as <-.
    simpl. apply Z.eqb_refl.
  - destruct v2 as [| |l2|]; simpl in E; try discriminate. injection E as E.
    simpl in H1, H2. simpl. revert l2 H2 E.
    induction IH as [|x l Hx _ IHl]; intros [|y l2] H2 E; simpl in E;
      try discriminate; [reflexivity|].
    injection E as Exy E. simpl in H1, H2.
    apply andb_true_iff in H1 as [H1x H1]. apply andb_true_iff in H2 as [H2y H2].
    rewrite (Hx y H1x H2y Exy). simpl. apply (IHl H1 l2 H2 E).
  - destruct v2 as [| | |d2]; simpl in E; try discriminate. injection E as E.
    simpl in H1, H2.
    apply andb_true_iff in H1 as [H1 H1v]. apply andb_true_iff in H1 as [_ H1n].
    apply andb_true_iff in H2 as [H2 H2v]. apply andb_true_iff in H2 as [_ H2n].
    apply nodupb_NoDup in H1n, H2n.
    simpl. apply andb_true_iff. split.
    + apply Nat.eqb_eq.
      apply (f_equal (@length (key * value))) in E.
      rewrite !sorted_items_length, !length_map in E. exact E.
    + apply forallb_forall. intros [k v] Hin. cbn [fst snd].
      assert (Hg : dict_get d k = Some v)
        by (apply dict_get_NoDup_in; assumption).
      assert (Hg2 : option_map canon (dict_get d2 k) = Some (canon v)).
      { rewrite <- (dict_get_map canon d2 k).
        rewrite <- (dict_get_sorted_items _ k)
          by (rewrite dict_keys_map; exact H2n).
        rewrite <- E.
        rewrite dict_get_sorted_items by (rewrite dict_keys_map; exact H1n).
        rewrite (dict_get_map canon d k), Hg. reflexivity. }
      destruct (dict_get d2 k) as [w|] eqn:Ew; simpl in Hg2; [|discriminate].
      injection Hg2 as Hw.
      rewrite Forall_forall in IH. apply (IH (k, v) Hin w).
      * rewrite forallb_forall in H1v. apply (H1v (k, v) Hin).
      * rewrite forallb_forall in H2v.
        apply (H2v (k, w)). apply dict_get_Some_in. exact Ew.
      * symmetry. exact Hw.
Qed.

Lemma aux_read_bencode v e :
  plain v -> bencode v = Ok e ->
  exists fuel0, forall fuel s, fuel0 <= fuel ->
                               aux_read fuel (e ++ s) = Ok (canon v, s).
Proof.
  intros [Hc Hn] Ee. destruct (roundtrip_main v Hc Hn) as (e' & Ee' & Hd).
  rewrite Ee in Ee'. injection Ee' as <-.
  apply aux_read_decodes. exact Hd.
Qed.

(** ** Inputs that are no encoding *)

Lemma aux_read_invalid_marker m rest fuel :
  is_digit m = false -> m <> "i"%byte -> m <> "d"%byte -> m <> "l"%byte ->
  aux_read (S (S fuel)) (m :: rest) = Raise ValueError.
Proof.
  intros Hd Hi Hdd Hl. rewrite aux_read_S, aux_S, Hd.
  destruct (byte_eq_dec m "i"); [contradiction|].
  destruct (byte_eq_dec m "d"); [contradiction|].
  destruct (byte_eq_dec m "l"); [contradiction|].
  reflexivity.
Qed.

(** ** Scalars without their separator *)

Lemma is_byte_false c c' : c <> c' -> is_byte (Some c) c' = false.
Proof.
  intros Hne. unfold is_byte. destruct (byte_eq_dec c c'); congruence.
Qed.

Lemma aux_read_string_no_colon c0 ds c rest fuel :
  Forall (fun x => is_digit x = true) (c0 :: ds) ->
  is_digit c = false -> c <> ":"%byte ->
  aux_read (S (S fuel)) ((c0 :: ds) ++ c :: rest) = Raise ValueError.
Proof.
  intros Hd Hc Hne. inversion Hd as [|? ? Hc0 Hds]; subst.
  cbn [app]. rewrite aux_read_S, aux_S, Hc0.
  rewrite (digits_loop_app ds 0%Z c0 c rest Hc0 Hds Hc).
  cbv iota. rewrite (is_byte_false _ _ Hne). reflexivity.
Qed.

Lemma aux_read_int_no_e ds c rest fuel :
  Forall (fun x => is_digit x = true) ds ->
  is_digit c = false -> c <> "e"%byte ->
  aux_read (S (S fuel)) (b "i" ++ ds ++ c :: rest) = Raise ValueError.
Proof.
  intros Hd Hc Hne.
  change (b "i" ++ ds ++ c :: rest) with ("i"%byte :: ds ++ c :: rest).
  rewrite aux_read_S, aux_S. change (is_digit "i") with false. cbv iota.
  destruct (byte_eq_dec "i" "i"); [|congruence].
  destruct ds as [|c0 ds].
  - cbn [app read1]. cbv iota. unfold digits_loop_opt.
    rewrite (digits_loop_stop _ _ _ Hc). cbv iota.
    rewrite (is_byte_false _ _ Hne). reflexivity.
  - cbn [app read1]. cbv iota. unfold digits_loop_opt.
    inversion Hd as [|? ? Hc0 Hds]; subst.
    rewrite (digits_loop_app ds 0%Z c0 c rest Hc0 Hds Hc).
    cbv iota. rewrite (is_byte_false _ _ Hne). reflexivity.
Qed.

Lemma decodes_exactly_bencode v e :
  plain v -> bencode v = Ok e -> decodes_exactly e (canon v).
Proof.
  intros Hp Ee. destruct (aux_read_bencode _ _ Hp Ee) as (f0 & H0).
  unfold decodes_exactly.
  pose proof (H0 (Nat.max f0 (decode_fuel e)) [] (Nat.le_max_l _ _)) as R.
  rewrite app_nil_r in R.
  rewrite <- (aux_read_fuel_mono (decode_fuel e) (Nat.max f0 (decode_fuel e)));
    [exact R|lia|apply aux_read_enough].
Qed.

(** ** bencode on any object *)

Lemma obj_ind' (P : obj -> Prop) :
  (forall t, P (OStr t)) ->
  (forall raw, P (OBencoded raw)) ->
  (forall s, P (OBytes s)) ->
  (forall i, P (OInt i)) ->
  (forall d, Forall (fun kv => P (snd kv)) d -> P (ODict d)) ->
  (forall l, Forall P l -> P (OList l)) ->
  P OOther ->
  forall o, P o.
Proof.
  intros HS HE HB HI HD HL HO. fix IH 1. intros [t|raw|s|i|d|l|].
  - apply HS.
  - apply HE.
  - apply HB.
  - apply HI.
  - apply HD. induction d as [|[k x] d IHd]; constructor; [apply IH|exact IHd].
  - apply HL. induction l as [|x l IHl]; constructor; [apply IH|exact IHl].
  - apply HO.
Qed.

Lemma bencode_obj_ODict d :
  bencode_obj (ODict d) =
  (keys <- sorted (dict_keys d) ;;
   body <- concat_results
             (map (fun k =>
                     match dict_get (map (fun kv => (fst kv, bencode_obj (snd kv))) d)
                                    k with
                     | Some r => x <- r ;; Ok (bencode_key k ++ x)
                     | None => Raise KeyError
                     end) keys) ;;
   Ok (b "d" ++ body ++ b "e")).
Proof.
  assert (E : (fix enc (d : list (key * obj)) : list (key * result bytes) :=
                 match d with
                 | [] => []
                 | (k, v) :: d' => (k, bencode_obj v) :: enc d'
                 end) d = map (fun kv => (fst kv, bencode_obj (snd kv))) d).
  { induction d as [|[k v] d IH]; simpl; [reflexivity|]. rewrite IH. reflexivity. }
  simpl. rewrite E. reflexivity.
Qed.

Lemma bencode_obj_of_value v : bencode_obj (obj_of_value v) = bencode v.
Proof.
  induction v as [s|i|l IH|d IH] using value_ind'; try reflexivity.
  - simpl. rewrite map_map.
    assert (E : map (fun x => bencode_obj (obj_of_value x)) l = map bencode l).
    { induction IH as [|x l Hx _ IHl]; simpl; [reflexivity|].
      rewrite Hx, IHl. reflexivity. }
    rewrite E. reflexivity.
  - cbn [obj_of_value]. rewrite bencode_obj_ODict, bencode_Dict.
    rewrite (dict_keys_map obj_of_value d), map_map. cbn [fst snd].
    assert (E : map (fun kv : key * value =>
                       (fst kv, bencode_obj (obj_of_value (snd kv)))) d =
                map (fun kv => (fst kv, bencode (snd kv))) d).
    { induction IH as [|[k x] d Hx _ IHd]; simpl; [reflexivity|].
      simpl in Hx. rewrite Hx, IHd. reflexivity. }
    rewrite E. reflexivity.
Qed.

Lemma concat_results_all_ok l :
  Forall (fun r => exists e, r = Ok e) l -> exists e, concat_results l = Ok e.
Proof.
  induction 1 as [|r l (e & ->) _ (e' & IH)]; simpl.
  - eexists. reflexivity.
  - rewrite IH. simpl. eexists. reflexivity.
Qed.

Lemma concat_results_type_error l :
  Forall ok_or_type_error l ->
  Exists (fun r => r = Raise TypeError) l ->
  concat_results l = Raise TypeError.
Proof.
  intros Hall Hex. induction Hall as [|r l Hr Hall IH]; [inversion Hex|].
  simpl. destruct Hr as [(e & ->)| ->]; [|reflexivity].
  cbn [bind]. inversion Hex as [? ? Hr|? ? Hl]; subst; [discriminate|].
  rewrite (IH Hl). reflexivity.
Qed.

Lemma forallb_false_exists {A} (p : A -> bool) l :
  forallb p l = false -> exists x, In x l /\ p x = false.
Proof.
  induction l as [|x l IH]; simpl; [discriminate|].
  destruct (p x) eqn:E; simpl.
  - intros Hf. destruct (IH Hf) as (y & Hin & Hy). exists y. auto.
  - intros _. exists x. auto.
Qed.

Lemma bencode_obj_outcome o :
  distinct_keys o = true ->
  if supported o then exists e, bencode_obj o = Ok e
  else bencode_obj o = Raise TypeError.
Proof.
  induction o as [t|raw|s|i|d IH|l IH|] using obj_ind'; intros Hd;
    try (simpl; try reflexivity; eexists; reflexivity).
  - (* a mapping *)
    cbn [distinct_keys] in Hd. apply andb_true_iff in Hd as [Hn Hd].
    apply nodupb_NoDup in Hn.
    rewrite bencode_obj_ODict. cbn [supported]. unfold sorted.
    destruct (forallb is_kbytes (dict_keys d) ||
              forallb (fun k => negb (is_kbytes k)) (dict_keys d));
      [|reflexivity].
    cbn [bind andb].
    set (enc := map (fun kv => (fst kv, bencode_obj (snd kv))) d).
    set (f := fun k => match dict_get enc k with
                       | Some r => x <- r ;; Ok (bencode_key k ++ x)
                       | None => Raise KeyError
                       end).
    assert (Hget : forall k v, In (k, v) d ->
                               dict_get enc k = Some (bencode_obj v)).
    { intros k v Hin. unfold enc.
      rewrite (dict_get_map bencode_obj d k).
      rewrite (dict_get_NoDup_in d k v Hn Hin). reflexivity. }
    assert (Hout : forall k v, In (k, v) d ->
                   if supported v then exists e, bencode_obj v = Ok e
                   else bencode_obj v = Raise TypeError).
    { intros k v Hin. rewrite Forall_forall in IH.
      apply (IH (k, v) Hin). rewrite forallb_forall in Hd.
      apply (Hd (k, v) Hin). }
    assert (Hf : forall k, In k (insertion_sort (dict_keys d)) ->
                           exists v, In (k, v) d /\
                                     f k = (x <- bencode_obj v ;;
                                            Ok (bencode_key k ++ x))).
    { intros k Hin.
      apply (Permutation_in _ (insertion_sort_perm (dict_keys d))) in Hin.
      destruct (dict_get_in d k Hin) as (v & _ & Hv).
      exists v. split; [exact Hv|]. unfold f. rewrite (Hget k v Hv).
      reflexivity. }
    assert (Hall : Forall ok_or_type_error
                          (map f (insertion_sort (dict_keys d)))).
    { apply Forall_map. apply Forall_forall. intros k Hin.
      destruct (Hf k Hin) as (v & Hv & ->).
      pose proof (Hout k v Hv) as Ho.
      destruct (supported v).
      - destruct Ho as (e & ->). left. eexists. reflexivity.
      - rewrite Ho. right. reflexivity. }
    destruct (forallb (fun kv => supported (snd kv)) d) eqn:Es.
    + assert (Hok : Forall (fun r : result bytes => exists e, r = Ok e)
                           (map f (insertion_sort (dict_keys d)))).
      { apply Forall_map. apply Forall_forall. intros k Hin.
        destruct (Hf k Hin) as (v & Hv & ->).
        pose proof (Hout k v Hv) as Ho.
        rewrite forallb_forall in Es. pose proof (Es (k, v) Hv) as Es'.
        cbn [snd] in Es'. rewrite Es' in Ho.
        destruct Ho as (e & ->). eexists. reflexivity. }
      destruct (concat_results_all_ok _ Hok) as (body & ->).
      cbn [bind]. eexists. reflexivity.
    + destruct (forallb_false_exists _ _ Es) as ([k v] & Hin & Hs).
      cbn [snd] in Hs.
      rewrite (concat_results_type_error _ Hall); [reflexivity|].
      apply Exists_exists. exists (f k). split.
      * apply in_map.
        apply (Permutation_in _ (Permutation_sym
                                   (insertion_sort_perm (dict_keys d)))).
        apply (in_map fst d (k, v) Hin).
      * unfold f. rewrite (Hget k v Hin).
        pose proof (Hout k v Hin) as Ho. rewrite Hs in Ho. rewrite Ho.
        reflexivity.
  - (* an iterable *)
    cbn [distinct_keys] in Hd. cbn [supported bencode_obj].
    assert (Hout : forall x, In x l ->
                   if supported x then exists e, bencode_obj x = Ok e
                   else bencode_obj x = Raise TypeError).
    { intros x Hin. rewrite Forall_forall in IH. apply (IH x Hin).
      rewrite forallb_forall in Hd. apply (Hd x Hin). }
    assert (Hall : Forall ok_or_type_error (map bencode_obj l)).
    { apply Forall_map. apply Forall_forall. intros x Hin.
      pose proof (Hout x Hin) as Ho. destruct (supported x).
      - left. exact Ho.
      - right. exact Ho. }
    destruct (forallb supported l) eqn:Es.
    + assert (Hok : Forall (fun r : result bytes => exists e, r = Ok e)
                           (map bencode_obj l)).
      { apply Forall_map. apply Forall_forall. intros x Hin.
        pose proof (Hout x Hin) as Ho.
        rewrite forallb_forall in Es. rewrite (Es x Hin) in Ho. exact Ho. }
      destruct (concat_results_all_ok _ Hok) as (body & ->).
      cbn [bind]. eexists. reflexivity.
    + destruct (forallb_false_exists _ _ Es) as (x & Hin & Hs).
      rewrite (concat_results_type_error _ Hall); [reflexivity|].
      apply Exists_exists. exists (bencode_obj x). split.
      * apply in_map. exact Hin.
      * pose proof (Hout x Hin) as Ho. rewrite Hs in Ho. exact Ho.
Qed.

Lemma bencode_obj_pre_encoded o : bencode_obj (pre_encoded o) = bencode_obj o.
Proof.
  unfold pre_encoded. destruct (bencode_obj o) as [e| |] eqn:E;
    [reflexivity|exact E|exact E].
Qed.

(** * Further facts about the constructor *)

(** ** The constructor, case by case *)

Ltac key_eval :=
  repeat match goal with
  | |- context [key_eqb (KBytes (b ?x)) (KBytes (b ?y))] =>
      let r := eval vm_compute in (key_eqb (KBytes (b x)) (KBytes (b y))) in
      change (key_eqb (KBytes (b x)) (KBytes (b y))) with r
  end.

Ltac dict_eval := repeat (rewrite dict_get_set; key_eval; cbv iota).

Lemma info_header_get filename o k :
  key_eqb k (KBytes (b "piece length")) = false ->
  key_eqb k (KBytes (b "private")) = false ->
  key_eqb k (KBytes (b "name")) = false ->
  dict_get (info_header filename o) k = None.
Proof.
  intros H1 H2 H3. unfold info_header. cbv zeta.
  rewrite dict_get_set, H3. destruct (private o).
  - rewrite !dict_get_set, H2, H1. reflexivity.
  - rewrite dict_get_set, H1. reflexivity.
Qed.

Section MetainfoCases.
Context {H : Hashlib}.

Lemma Metainfo_init_eq fs filename o now :
  Metainfo_init fs filename o now =
  (self <- build_self o now ;;
   info <- build_info fs filename o ;;
   Ok {| as_dict := dict_set self (KBytes (b "info")) (Dict info);
         info := info;
         mi_announce := announce o;
         mi_url_list := url_list o;
         mi_name := basename filename;
         mi_length := match dict_get info (KBytes (b "length")) with
                      | Some (Int n) => Some n
                      | _ => None
                      end |}).
Proof.
  unfold Metainfo_init, build_self, build_info.
  destruct (match announce o with
            | [] => Ok []
            | [] :: _ => Raise IndexError
            | (tracker :: _) :: _ => _
            end) as [self0| |]; cbn [bind]; try reflexivity.
  cbv zeta.
  destruct (hash_content fs filename o _) as [[info1 pieces]| |];
    cbn [bind]; reflexivity.
Qed.

Lemma Metainfo_init_Ok fs filename o now m :
  Metainfo_init fs filename o now = Ok m ->
  exists self,
    build_self o now = Ok self /\
    build_info fs filename o = Ok (info m) /\
    as_dict m = dict_set self (KBytes (b "info")) (Dict (info m)) /\
    mi_announce m = announce o /\
    mi_url_list m = url_list o /\
    mi_name m = basename filename /\
    mi_length m = match dict_get (info m) (KBytes (b "length")) with
                  | Some (Int n) => Some n
                  | _ => None
                  end.
Proof.
  rewrite Metainfo_init_eq.
  destruct (build_self o now) as [self| |]; cbn [bind]; try discriminate.
  destruct (build_info fs filename o) as [info1| |]; cbn [bind];
    try discriminate.
  intros [= <-]. exists self. cbn. auto 10.
Qed.

Lemma build_self_outcome o now :
  if first_tracker_exists o
  then exists self, build_self o now = Ok self
  else build_self o now = Raise IndexError.
Proof.
  unfold first_tracker_exists, build_self.
  destruct (announce o) as [|[|t tl] rest]; cbn [bind];
    try reflexivity; eexists; reflexivity.
Qed.


(** Between two reads of the directory branch [incomplete_chunk] is
    empty or shorter than a piece, so that the size asked for is never
    below -1 when the piece length is not. *)
Lemma hash_dir_loop_Ok L f : (-1 <= L)%Z -> forall inc pieces fed,
  inc = [] \/ (Z.of_nat (length inc) < L)%Z ->
  exists inc' pieces' fed',
    hash_dir_loop L f inc pieces fed = Ok (inc', pieces', fed') /\
    (inc' = [] \/ (Z.of_nat (length inc') < L)%Z).
Proof.
  intros HL. remember (length f) as n eqn:En. revert f En.
  induction n as [n IH] using lt_wf_ind. intros f En inc pieces fed Hinc.
  rewrite hash_dir_loop_eq.
  pose proof (read_outcome (L - Z.of_nat (length inc)) f) as Ho.
  destruct (read _ f) as [[chunk rest]|e|] eqn:Er; cbn [bind];
    [| |contradiction].
  - destruct (Nat.eqb_spec (length chunk) 0) as [E|E].
    { do 3 eexists. split; [reflexivity|exact Hinc]. }
    destruct (Z.ltb_spec (Z.of_nat (length inc + length chunk)) L) as [Hlt|Hge].
    { do 3 eexists. split; [reflexivity|]. right. rewrite length_app. lia. }
    apply (IH (length rest)); [|reflexivity|left; reflexivity].
    subst n. eapply read_shorter; eassumption.
  - destruct Ho as [_ Ho]. destruct Hinc as [->|Hinc]; simpl in Ho; lia.
Qed.

Lemma hash_walk_outcome o : (-1 <= piece_length o)%Z ->
  forall entries files inc pieces,
  inc = [] \/ (Z.of_nat (length inc) < piece_length o)%Z ->
  if all_readable entries
  then exists st', hash_walk o (files, inc, pieces) entries = Ok st'
  else hash_walk o (files, inc, pieces) entries = Raise OSError.
Proof.
  intros HL.
  induction entries as [|[relpath [content readable]] entries IH];
    intros files inc pieces Hinc.
  - simpl. eexists. reflexivity.
  - unfold all_readable. cbn [forallb snd]. fold (all_readable entries).
    cbn [hash_walk hash_walked_file].
    destruct readable; cbn [negb andb]; [|reflexivity].
    destruct (hash_dir_loop_Ok (piece_length o) content HL inc pieces [] Hinc)
      as (inc' & pieces' & fed & -> & Hinc').
    cbn [bind]. apply IH, Hinc'.
Qed.


(** Below -1 the first read raises: the outcome is that of the first
    file opened. *)
Lemma hash_file_loop_below L f pieces fed :
  (L < -1)%Z -> hash_file_loop L f pieces fed = Raise ValueError.
Proof.
  intros HL. rewrite hash_file_loop_eq. unfold read.
  destruct (Z.ltb_spec L (-1)); [reflexivity|lia].
Qed.

Lemma hash_dir_loop_below L f inc pieces fed :
  (L < -1)%Z -> hash_dir_loop L f inc pieces fed = Raise ValueError.
Proof.
  intros HL. rewrite hash_dir_loop_eq. unfold read.
  destruct (Z.ltb_spec (L - Z.of_nat (length inc)) (-1)); [reflexivity|lia].
Qed.

Lemma hash_content_below fs filename o info0 :
  (piece_length o < -1)%Z ->
  match first_opened fs filename with
  | Some true => hash_content fs filename o info0 = Raise ValueError
  | Some false => hash_content fs filename o info0 = Raise OSError
  | None => exists info1, hash_content fs filename o info0 = Ok (info1, [])
  end.
Proof.
  intros HL. unfold first_opened, hash_content.
  destruct (lookup fs filename) as [[c r|es]|].
  - destruct r; cbn [negb]; [|reflexivity].
    rewrite (hash_file_loop_below _ _ _ _ HL). reflexivity.
  - destruct (walk [] (Dir es)) as [|[relpath [content readable]] entries].
    + cbn [hash_walk bind nonempty]. eexists. reflexivity.
    + cbn [hash_walk hash_walked_file snd].
      destruct readable; cbn [negb]; [|reflexivity].
      rewrite (hash_dir_loop_below _ _ _ _ _ HL). reflexivity.
  - eexists. reflexivity.
Qed.

Lemma build_info_eq fs filename o :
  build_info fs filename o =
  ('(info, pieces) <- hash_content fs filename o (info_header filename o) ;;
   if merkle o
   then root <- merkle_root pieces ;;
        Ok (dict_set info (KBytes (b "root hash")) (Bytes root))
   else Ok (dict_set info (KBytes (b "pieces")) (Bytes pieces))).
Proof. reflexivity. Qed.



(** A finished [info] is what the content added to the header, plus the
    hashes. *)
Lemma build_info_Ok fs filename o info1 :
  build_info fs filename o = Ok info1 ->
  exists info' pieces final,
    hash_content fs filename o (info_header filename o) = Ok (info', pieces) /\
    hash_string pieces /\
    (if merkle o then merkle_root pieces = Ok final else final = pieces) /\
    info1 = dict_set info' (hashes_key o) (Bytes final).
Proof.
  rewrite build_info_eq.
  pose proof (hash_content_hashes fs filename o (info_header filename o)) as Hh.
  destruct (hash_content fs filename o _) as [[info' pieces]| |];
    cbn [bind]; try discriminate.
  unfold hashes_key. destruct (merkle o) eqn:Em.
  - destruct (merkle_root pieces) as [root| |] eqn:Er; cbn [bind];
      try discriminate.
    intros [= <-]. exists info', pieces, root. auto.
  - intros [= <-]. exists info', pieces, pieces. auto.
Qed.

Lemma hash_content_get_other fs filename o info0 info1 pieces k :
  key_eqb k (KBytes (b "length")) = false ->
  key_eqb k (KBytes (b "md5sum")) = false ->
  key_eqb k (KBytes (b "files")) = false ->
  hash_content fs filename o info0 = Ok (info1, pieces) ->
  dict_get info1 k = dict_get info0 k.
Proof.
  intros H1 H2 H3. unfold hash_content.
  destruct (lookup fs filename) as [[c r|es]|].
  - destruct r; cbn [negb]; [|discriminate].
    destruct (hash_file_loop _ _ _ _) as [[p fed]| |]; cbn [bind];
      try discriminate.
    destruct (md5sum o); intros [= <- <-];
      rewrite ?dict_get_set, ?H2, ?H1; reflexivity.
  - destruct (hash_walk _ _ _) as [[[files inc] p]| |]; cbn [bind];
      try discriminate.
    intros [= <- <-]. rewrite dict_get_set, H3. reflexivity.
  - intros [= <- <-]. reflexivity.
Qed.

Lemma hash_file_loop_nil L pieces fed :
  hash_file_loop L [] pieces fed =
  if (L <? -1)%Z then Raise ValueError else Ok (pieces, fed).
Proof.
  rewrite hash_file_loop_eq. unfold read.
  destruct (L <? -1)%Z; [reflexivity|].
  destruct (L <? 0)%Z; cbn [bind]; [reflexivity|].
  rewrite firstn_nil. reflexivity.
Qed.

Lemma merkle_root_nil : merkle_root [] = Ok [].
Proof. reflexivity. Qed.

Lemma merkle_root_length pieces root :
  hash_string pieces -> merkle_root pieces = Ok root ->
  (pieces = [] /\ root = []) \/ (pieces <> [] /\ length root = 20).
Proof.
  intros (units & -> & Hu) E. destruct units as [|u units].
  - left. simpl in E. rewrite merkle_root_nil in E. injection E as <-.
    split; reflexivity.
  - right. split.
    + inversion Hu; subst. simpl. destruct u; [discriminate|discriminate].
    + destruct (merkle_root_units (u :: units)) as (p & r & root' & _ & E' & _ & Hl & _);
        [discriminate|exact Hu|].
      rewrite E in E'. injection E' as ->. exact Hl.
Qed.

Lemma hash_walk_files o :
  (0 < piece_length o)%Z ->
  forall entries files inc pieces,
  all_readable entries = true ->
  length inc < Z.to_nat (piece_length o) ->
  exists inc' pieces',
    hash_walk o (files, inc, pieces) entries =
    Ok (files ++ map (file_entry o) entries, inc', pieces').
Proof.
  intros HL. assert (HL' : 0 < Z.to_nat (piece_length o)) by lia.
  induction entries as [|[relpath [content readable]] entries IH];
    intros files inc pieces Hr Hinc.
  - exists inc, pieces. simpl. rewrite app_nil_r. reflexivity.
  - unfold all_readable in Hr. simpl in Hr.
    apply andb_true_iff in Hr as [Hre Hr]. subst readable.
    cbn [hash_walk hash_walked_file negb].
    rewrite (hash_dir_loop_spec _ HL) by exact Hinc. cbn [bind].
    match goal with
    | |- context [hash_walk o (?fs, ?i, ?p) entries] =>
        destruct (IH fs i p Hr (remainder_length _ _ HL')) as (inc' & pieces' & E)
    end.
    exists inc', pieces'. etransitivity; [apply E|].
    rewrite <- app_assoc. reflexivity.
Qed.

End MetainfoCases.

(** ** A piece length that is not positive *)

Section NonPositive.
Context {H : Hashlib}.

Lemma hash_file_loop_zero f pieces fed :
  hash_file_loop 0 f pieces fed = Ok (pieces, fed).
Proof. rewrite hash_file_loop_eq. reflexivity. Qed.

Lemma hash_file_loop_all f :
  hash_file_loop (-1) f [] [] = Ok (whole_file_digest f, f).
Proof.
  rewrite hash_file_loop_eq.
  change (read (-1) f) with (@Ok (bytes * bytes) (f, [])). cbn [bind].
  destruct f as [|c f]; [reflexivity|].
  cbn [length Nat.eqb]. cbv iota.
  destruct (Z.ltb_spec (Z.of_nat (S (length f))) (-1)); [lia|].
  rewrite hash_file_loop_nil. reflexivity.
Qed.

Lemma hash_dir_loop_zero f pieces fed :
  hash_dir_loop 0 f [] pieces fed = Ok ([], pieces, fed).
Proof. rewrite hash_dir_loop_eq. reflexivity. Qed.

Lemma hash_dir_loop_all f pieces fed :
  hash_dir_loop (-1) f [] pieces fed =
  Ok ([], pieces ++ whole_file_digest f, fed ++ f).
Proof.
  rewrite hash_dir_loop_eq.
  change (read (-1 - Z.of_nat (length (@nil byte))) f)
    with (@Ok (bytes * bytes) (f, [])).
  cbn [bind].
  destruct f as [|c f].
  - cbn. rewrite !app_nil_r. reflexivity.
  - cbn [length Nat.eqb]. cbv iota.
    destruct (Z.ltb_spec (Z.of_nat (0 + S (length f))) (-1)); [lia|].
    rewrite hash_dir_loop_eq. reflexivity.
Qed.

Lemma hash_walk_zero o : piece_length o = 0%Z ->
  forall entries files pieces st',
  hash_walk o (files, [], pieces) entries = Ok st' ->
  exists files', st' = (files', [], pieces).
Proof.
  intros HL.
  induction entries as [|[relpath [content readable]] entries IH];
    intros files pieces st' E.
  - simpl in E. injection E as <-. eexists. reflexivity.
  - cbn [hash_walk hash_walked_file] in E.
    destruct readable; cbn [negb] in E; [|discriminate].
    rewrite HL, hash_dir_loop_zero in E. cbn [bind] in E.
    apply (IH _ _ _ E).
Qed.

Lemma hash_walk_all o : piece_length o = (-1)%Z ->
  forall entries files pieces st',
  hash_walk o (files, [], pieces) entries = Ok st' ->
  exists files',
    st' = (files', [],
           pieces ++ concat (map (fun e => whole_file_digest (fst (snd e)))
                                 entries)).
Proof.
  intros HL.
  induction entries as [|[relpath [content readable]] entries IH];
    intros files pieces st' E.
  - simpl in E. injection E as <-. eexists. simpl. rewrite app_nil_r.
    reflexivity.
  - cbn [hash_walk hash_walked_file] in E.
    destruct readable; cbn [negb] in E; [|discriminate].
    rewrite HL, hash_dir_loop_all in E. cbn [bind] in E.
    destruct (IH _ _ _ E) as (files' & ->). exists files'.
    cbn [map concat fst snd]. rewrite app_assoc. reflexivity.
Qed.

Lemma hash_content_zero fs filename o info0 info1 pieces :
  piece_length o = 0%Z ->
  hash_content fs filename o info0 = Ok (info1, pieces) -> pieces = [].
Proof.
  intros HL. unfold hash_content.
  destruct (lookup fs filename) as [[c r|es]|].
  - destruct r; cbn [negb]; [|discriminate].
    rewrite HL, hash_file_loop_zero. cbn [bind].
    destruct (md5sum o); intros [= _ <-]; reflexivity.
  - destruct (hash_walk _ _ _) as [[[files inc] p]| |] eqn:E; cbn [bind];
      try discriminate.
    destruct (hash_walk_zero o HL _ _ _ _ E) as (files' & [= _ -> ->]).
    intros [= _ <-]. reflexivity.
  - intros [= _ <-]. reflexivity.
Qed.

Lemma hash_content_all fs filename o info0 info1 pieces :
  piece_length o = (-1)%Z ->
  hash_content fs filename o info0 = Ok (info1, pieces) ->
  pieces =
  match lookup fs filename with
  | Some (File content _) => whole_file_digest content
  | Some (Dir entries) =>
      concat (map (fun e => whole_file_digest (fst (snd e)))
                  (walk [] (Dir entries)))
  | None => []
  end.
Proof.
  intros HL. unfold hash_content.
  destruct (lookup fs filename) as [[c r|es]|].
  - destruct r; cbn [negb]; [|discriminate].
    rewrite HL, hash_file_loop_all. cbn [bind].
    destruct (md5sum o); intros [= _ <-]; reflexivity.
  - destruct (hash_walk _ _ _) as [[[files inc] p]| |] eqn:E; cbn [bind];
      try discriminate.
    destruct (hash_walk_all o HL _ _ _ _ E) as (files' & [= _ -> ->]).
    intros [= _ <-]. reflexivity.
  - intros [= _ <-]. reflexivity.
Qed.

(** Below -1 a build that returns has read nothing. *)
Lemma hash_content_below_Ok fs filename o info0 info1 pieces :
  (piece_length o < -1)%Z ->
  hash_content fs filename o info0 = Ok (info1, pieces) ->
  first_opened fs filename = None /\ pieces = [].
Proof.
  intros HL E. pose proof (hash_content_below fs filename o info0 HL) as Ho.
  destruct (first_opened fs filename) as [[|]|];
    try (rewrite Ho in E; discriminate).
  destruct Ho as (info' & Ho). rewrite Ho in E. injection E as _ <-.
  split; reflexivity.
Qed.

End NonPositive.

(** ** The entries of the metainfo around [info] *)

Section TopLevel.
Context {H : Hashlib}.

Lemma build_self_entries o now self :
  build_self o now = Ok self ->
  dict_get self (KBytes (b "creation date")) = Some (Int now) /\
  dict_get self (KBytes (b "created by")) = Some (Bytes fullname) /\
  dict_get self (KBytes (b "comment")) =
    (if nonempty (comment o) then Some (Bytes (comment o)) else None) /\
  dict_get self (KBytes (b "nodes")) =
    (if nonempty (nodes o) then Some (nodes_value (nodes o)) else None) /\
  dict_get self (KBytes (b "httpseeds")) =
    (if nonempty (httpseeds o) then Some (bytes_list (httpseeds o)) else None) /\
  dict_get self (KBytes (b "url-list")) =
    (if nonempty (url_list o) then Some (bytes_list (url_list o)) else None) /\
  dict_get self (KBytes (b "announce")) =
    match announce o with
    | (tracker :: _) :: _ => Some (Bytes tracker)
    | _ => None
    end /\
  dict_get self (KBytes (b "announce-list")) =
    match announce o with
    | (_ :: more) :: tiers =>
        if nonempty more || nonempty tiers
        then Some (announce_value (announce o))
        else None
    | _ => None
    end.
Proof.
  unfold build_self.
  destruct (announce o) as [|[|t tl] rest]; cbn [bind]; try discriminate.
  - intros [= <-].
    destruct (nonempty (nodes o)), (nonempty (httpseeds o)),
      (nonempty (url_list o)), (nonempty (comment o));
      repeat split; dict_eval; reflexivity.
  - intros [= <-]. cbn [hd length].
    assert (Eb : (1 <? S (length tl)) || (1 <? S (length rest)) =
                 nonempty tl || nonempty rest).
    { destruct tl, rest; reflexivity. }
    rewrite Eb.
    destruct (nonempty tl || nonempty rest),
      (nonempty (nodes o)), (nonempty (httpseeds o)),
      (nonempty (url_list o)), (nonempty (comment o));
      repeat split; dict_eval; reflexivity.
Qed.

End TopLevel.

(** ** The pieces of a single file *)

Section FilePieces.
Context {H : Hashlib}.

Lemma Metainfo_file_pieces fs filename o now m content readable :
  lookup fs filename = Some (File content readable) ->
  (0 < piece_length o)%Z -> merkle o = false ->
  Metainfo_init fs filename o now = Ok m ->
  dict_get (info m) (KBytes (b "length")) = Some (Int (getsize content)) /\
  dict_get (info m) (KBytes (b "pieces")) =
    Some (Bytes (concat (map sha1 (chunks (Z.to_nat (piece_length o)) content)))).
Proof.
  intros Hl HL Hm E.
  destruct (Metainfo_init_Ok _ _ _ _ _ E) as (self & _ & Ei & _).
  destruct (build_info_Ok _ _ _ _ Ei)
    as (info' & pieces & final & Eh & _ & Hf & Einfo).
  unfold hash_content in Eh. rewrite Hl in Eh.
  destruct readable; cbn [negb] in Eh; [|discriminate].
  rewrite (hash_file_loop_spec _ HL) in Eh. cbn [app] in Eh.
  injection Eh as Einfo' Ep. rewrite Hm in Hf. subst final.
  rewrite Einfo, <- Einfo', <- Ep. unfold hashes_key. rewrite Hm.
  split; destruct (md5sum o); dict_eval; reflexivity.
Qed.

End FilePieces.

Lemma length_pos_ne {A} (l : list A) : 0 < length l -> l <> [].
Proof. destruct l; simpl; [lia|discriminate]. Qed.

(** Content of twice [L] bytes and a shorter rest makes three chunks. *)
Lemma chunks_two_and_rest L (data : bytes) :
  0 < L -> 2 * L < length data -> length data < 3 * L ->
  exists c1 c2 c3,
    data = c1 ++ c2 ++ c3 /\ chunks L data = [c1; c2; c3] /\
    length c1 = L /\ length c2 = L /\ length c3 = length data - 2 * L.
Proof.
  intros HL Hlo Hhi.
  exists (firstn L data), (firstn L (skipn L data)), (skipn L (skipn L data)).
  split; [rewrite !firstn_skipn; reflexivity|].
  split.
  - rewrite (chunks_cons L data HL) by (apply length_pos_ne; lia).
    rewrite (chunks_cons L (skipn L data) HL)
      by (apply length_pos_ne; rewrite length_skipn; lia).
    rewrite (chunks_cons L (skipn L (skipn L data)) HL)
      by (apply length_pos_ne; rewrite !length_skipn; lia).
    rewrite (firstn_all2 (n := L) (skipn L (skipn L data)))
      by (rewrite !length_skipn; lia).
    rewrite (skipn_all2 (n := L) (skipn L (skipn L data)))
      by (rewrite !length_skipn; lia).
    rewrite (chunks_nil L HL). reflexivity.
  - rewrite !length_firstn, !length_skipn. lia.
Qed.

(** ** The files of a directory, and the header of [info] *)

Section DirFiles.
Context {H : Hashlib}.


Lemma Metainfo_header_entries fs filename o now m :
  Metainfo_init fs filename o now = Ok m ->
  dict_get (info m) (KBytes (b "piece length")) = Some (Int (piece_length o)) /\
  dict_get (info m) (KBytes (b "name")) = Some (Bytes (basename filename)) /\
  dict_get (info m) (KBytes (b "private")) =
    (if private o then Some (Int 1) else None).
Proof.
  intros E.
  destruct (Metainfo_init_Ok _ _ _ _ _ E) as (self & _ & Ei & _).
  destruct (build_info_Ok _ _ _ _ Ei)
    as (info' & pieces & final & Eh & _ & _ & ->).
  unfold hashes_key.
  repeat split; rewrite dict_get_set;
    (destruct (merkle o); key_eval; cbv iota);
    (erewrite hash_content_get_other;
     [|reflexivity|reflexivity|reflexivity|exact Eh]);
    unfold info_header; cbv zeta; destruct (private o); dict_eval;
    reflexivity.
Qed.

End DirFiles.

(** * Further facts about the Merkle loop *)

(** ** The number of rounds of the Merkle loop *)

Lemma log2_up_half n : 2 <= n -> Nat.log2_up n = S (Nat.log2_up ((n + 1) / 2)).
Proof.
  intros Hn.
  pose proof (Nat.div_mod_eq (n + 1) 2) as Hd.
  pose proof (Nat.mod_upper_bound (n + 1) 2) as Hm.
  set (h := (n + 1) / 2) in *.
  assert (Hh : 1 <= h) by lia.
  apply Nat.log2_up_unique; [lia|]. cbn [Nat.pred].
  destruct (Nat.eq_dec h 1) as [E1|E1].
  - rewrite E1. simpl. lia.
  - pose proof (Nat.log2_up_spec h ltac:(lia)) as [Hlo Hhi].
    assert (Hk : 0 < Nat.log2_up h) by (apply Nat.log2_up_pos; lia).
    destruct (Nat.log2_up h) as [|k]; [lia|]. cbn [Nat.pred] in Hlo.
    rewrite !Nat.pow_succ_r' in *. lia.
Qed.

Section MerkleRounds.
Context {H : Hashlib}.

Lemma merkle_loop_rounds n : forall units padding fuel,
  length units <= n -> n <= fuel ->
  units <> [] -> hashes units -> length padding = 20 ->
  exists st,
    while_loop merkle_cond merkle_round fuel (concat units, padding) =
    Ok (st, Nat.log2_up (length units)).
Proof.
  induction n as [|n IH]; intros units padding fuel Hn Hf Hne Hu Hp.
  - destruct units; [congruence|simpl in Hn; lia].
  - rewrite while_loop_eq. unfold merkle_cond at 1. cbn [fst].
    rewrite (length_concat_hashes units Hu).
    destruct (Nat.ltb_spec 20 (20 * length units)) as [Hgt|Hle].
    + destruct fuel as [|fuel]; [lia|].
      rewrite (merkle_round_units units padding Hu Hp).
      destruct (pad_units_even units padding) as (k & Hk & Hk').
      assert (Hlen : length (pair_up (pad_units units padding)) = k).
      { rewrite pair_up_length, Hk.
        apply eq_sym, (Nat.div_unique _ _ k 0); lia. }
      assert (Hk2 : k <= n /\ 1 <= k).
      { pose proof (Nat.div_mod_eq (length units + 1) 2).
        pose proof (Nat.mod_upper_bound (length units + 1) 2). lia. }
      destruct (IH (pair_up (pad_units units padding))
                   (sha1 (padding ++ padding)) fuel) as (st & E); try lia.
      * intros E. rewrite E in Hlen. simpl in Hlen. lia.
      * apply pair_up_hashes.
      * apply sha1_length.
      * exists st. rewrite E. cbn [bind]. rewrite Hlen, Hk'.
        rewrite (log2_up_half (length units)) by lia. reflexivity.
    + destruct units as [|u [|u' units]]; [congruence| |simpl in Hle; lia].
      eexists. reflexivity.
Qed.

End MerkleRounds.

(** * Further facts about the file system and main *)

(** ** Files that a write leaves alone *)

Lemma put_file_lookup_file q : forall fs content fs' p c r,
  put_file fs q content = Ok fs' ->
  lookup fs p = Some (File c r) ->
  (p = q -> lookup fs' p = Some (File content r)) /\
  (p <> q -> lookup fs' p = Some (File c r)).
Proof.
  induction q as [|name q IH]; intros fs content fs' p c r E Hl.
  - destruct fs as [c0 r0|entries]; simpl in E; [|discriminate].
    injection E as <-. destruct p as [|n p]; [|discriminate].
    simpl in Hl. injection Hl as <- <-. split; [reflexivity|congruence].
  - destruct fs as [c0 r0|entries]; [discriminate|].
    cbn [put_file] in E.
    match type of E with
    | bind ?r _ = _ => destruct r as [entries'| |] eqn:Ep
    end; cbn [bind] in E; try discriminate.
    injection E as <-.
    destruct p as [|n p]; [discriminate|].
    cbn [lookup] in Hl |- *.
    revert entries' Ep Hl.
    induction entries as [|[name' child] entries IHe]; intros entries' Ep Hl.
    + discriminate.
    + destruct (bytes_eq_dec name name') as [En|En].
      * destruct (put_file child q content) as [child'| |] eqn:Ec;
          cbn [bind] in Ep; try discriminate.
        injection Ep as <-.
        destruct (bytes_eq_dec n name') as [En'|En'].
        -- destruct (IH _ _ _ _ _ _ Ec Hl) as [H1 H2].
           split; intros Hpq.
           ++ apply H1. congruence.
           ++ apply H2. intros ->. apply Hpq. congruence.
        -- split; intros Hpq; [congruence|exact Hl].
      * match type of Ep with
        | bind ?r _ = _ => destruct r as [rest'| |] eqn:Er
        end; cbn [bind] in Ep; try discriminate.
        injection Ep as <-.
        destruct (bytes_eq_dec n name') as [En'|En'].
        -- split; intros Hpq; [congruence|exact Hl].
        -- apply (IHe _ eq_refl Hl).
Qed.


(** ** Paths that a write leaves missing *)

Lemma put_file_lookup_none q : forall fs content fs' p,
  put_file fs q content = Ok fs' ->
  lookup fs p = None -> p <> q -> lookup fs' p = None.
Proof.
  induction q as [|name q IH]; intros fs content fs' p E Hl Hp.
  - destruct fs as [c0 r0|entries]; simpl in E; [|discriminate].
    injection E as <-. destruct p as [|n p]; [congruence|reflexivity].
  - destruct fs as [c0 r0|entries]; [discriminate|].
    cbn [put_file] in E.
    match type of E with
    | bind ?r _ = _ => destruct r as [entries'| |] eqn:Ep
    end; cbn [bind] in E; try discriminate.
    injection E as <-.
    destruct p as [|n p]; [discriminate|].
    cbn [lookup] in Hl |- *.
    revert entries' Ep Hl.
    induction entries as [|[name' child] entries IHe]; intros entries' Ep Hl.
    + destruct q; [|discriminate]. injection Ep as <-.
      destruct (bytes_eq_dec n name) as [En|En]; [|reflexivity].
      destruct p as [|n' p]; [congruence|reflexivity].
    + destruct (bytes_eq_dec name name') as [En|En].
      * destruct (put_file child q content) as [child'| |] eqn:Ec;
          cbn [bind] in Ep; try discriminate.
        injection Ep as <-.
        destruct (bytes_eq_dec n name') as [En'|En'].
        -- apply (IH _ _ _ _ Ec Hl). intros ->. apply Hp. congruence.
        -- exact Hl.
      * match type of Ep with
        | bind ?r _ = _ => destruct r as [rest'| |] eqn:Er
        end; cbn [bind] in Ep; try discriminate.
        injection Ep as <-.
        destruct (bytes_eq_dec n name') as [En'|En'].
        -- exact Hl.
        -- apply (IHe _ eq_refl Hl).
Qed.

(** ** A destination inside the input directory *)



(** ** main *)

Section MainFacts.
Context {H : Hashlib}.

Lemma main_eq fs a now :
  main fs a now =
  match open_wb fs (infoname a) with
  | Ok fs1 =>
      match Metainfo_init fs1 (cli_filename a) (func_args a) now with
      | Ok m =>
          match bencode (Dict (as_dict m)) with
          | Ok data =>
              match put_file fs1 (infoname a) data with
              | Ok fs2 => (fs2, Ok tt)
              | Raise e => (fs1, Raise e)
              | OutOfFuel => (fs1, OutOfFuel)
              end
          | Raise e => (fs1, Raise e)
          | OutOfFuel => (fs1, OutOfFuel)
          end
      | Raise e => (fs1, Raise e)
      | OutOfFuel => (fs1, OutOfFuel)
      end
  | Raise e => (fs, Raise e)
  | OutOfFuel => (fs, OutOfFuel)
  end.
Proof.
  unfold main. destruct (open_wb fs (infoname a)); try reflexivity.
  destruct (Metainfo_init _ _ _ _); reflexivity.
Qed.

Lemma main_built fs a now fs1 m :
  open_wb fs (infoname a) = Ok fs1 ->
  Metainfo_init fs1 (cli_filename a) (func_args a) now = Ok m ->
  exists data fs2,
    bencode (Dict (as_dict m)) = Ok data /\
    put_file fs1 (infoname a) data = Ok fs2 /\
    main fs a now = (fs2, Ok tt).
Proof.
  intros Eo Em. rewrite main_eq, Eo, Em.
  destruct (Metainfo_constructible _ _ _ _ _ Em) as [_ Hc].
  destruct (bencode_ok _ Hc) as (data & Eb). rewrite Eb.
  destruct (put_file_spec _ _ _ _ Eo) as [_ Hw].
  destruct (Hw data) as (fs2 & Ew). rewrite Ew. eauto.
Qed.

Lemma Metainfo_init_length fs filename o now m :
  Metainfo_init fs filename o now = Ok m ->
  mi_length m =
  match lookup fs filename with
  | Some (File content _) => Some (getsize content)
  | _ => None
  end.
Proof.
  intros E.
  destruct (Metainfo_init_Ok _ _ _ _ _ E) as (self & _ & Ei & _ & _ & _ & _ & ->).
  destruct (build_info_Ok _ _ _ _ Ei) as (info' & pieces & final & Eh & _ & _ & ->).
  unfold hash_content in Eh. unfold hashes_key.
  destruct (lookup fs filename) as [[c r|es]|].
  - destruct r; cbn [negb] in Eh; [|discriminate].
    destruct (hash_file_loop _ _ _ _) as [[p fed]| |]; cbn [bind] in Eh;
      try discriminate.
    destruct (md5sum o), (merkle o); injection Eh as <- _; dict_eval;
      reflexivity.
  - destruct (hash_walk _ _ _) as [[[files inc] p]| |]; cbn [bind] in Eh;
      try discriminate.
    injection Eh as <- _.
    destruct (merkle o); dict_eval; rewrite info_header_get by reflexivity;
      reflexivity.
  - injection Eh as <- _.
    destruct (merkle o); dict_eval; rewrite info_header_get by reflexivity;
      reflexivity.
Qed.


End MainFacts.

(** * Properties of the codec *)

(** C1: the round trip [bdecode(bencode(v)) == v] is claimed for every
    constructible tree, negative integers included.  [bencode] writes
    [-3] as [i-3e], and [bdecode] raises [ValueError] on it: the integer
    loop of [aux] accepts digits only. *)
Theorem roundtrip_negative_int_raises :
  constructible (Int (-3)) = true /\
  bencode (Int (-3)) = Ok (b "i-3e") /\
  bdecode (b "i-3e") 0 = Raise ValueError.
Proof. repeat split; vm_compute; reflexivity. Qed.

(** C5: [bdecode] does not begin at [offset]: its body never reads it,
    so the call is the same at every offset and returns the object at
    the start of the buffer.  [i2e], the encoding of 2, stands at offset
    3 of [i1ei2e]; [bdecode] called with offset 3 returns 1, and not 2 as
    decoding from the offset would. *)
Theorem bdecode_ignores_offset :
  (forall data offset, bdecode data offset = bdecode data 0) /\
  bencode (Int 1) = Ok (b "i1e") /\
  bencode (Int 2) = Ok (b "i2e") /\
  bdecode (b "i1e" ++ b "i2e") (Z.of_nat (length (b "i1e"))) = Ok (Int 1) /\
  bdecode (b "i1e" ++ b "i2e") (Z.of_nat (length (b "i1e"))) <> Ok (Int 2).
Proof.
  split; [reflexivity|]. split; [reflexivity|]. split; [reflexivity|].
  split; [reflexivity|]. vm_compute. discriminate.
Qed.

(** C7: the encoding of a mapping lists its entries by ascending key, and
    is the same for any two insertion orders of the same entries. *)
Theorem bencode_map_canonical (d d' : dict) :
  constructible (Dict d) = true -> Permutation d d' ->
  (exists items : list (key * bytes),
     bencode (Dict d) =
       Ok (b "d" ++ concat (map (fun it => bencode_key (fst it) ++ snd it) items)
             ++ b "e") /\
     ascending (map fst items) /\
     Permutation (map fst items) (dict_keys d) /\
     forall k e, In (k, e) items ->
                 exists v, dict_get d k = Some v /\ bencode v = Ok e) /\
  bencode (Dict d') = bencode (Dict d).
Proof.
  intros Hc P. pose proof Hc as Hc'. simpl in Hc.
  apply andb_true_iff in Hc as [Hc Hcv]. apply andb_true_iff in Hc as [Hkb Hnd].
  apply nodupb_NoDup in Hnd. split.
  - assert (Hd : Forall (fun kv => encodable (snd kv)) d).
    { rewrite forallb_forall in Hcv. apply Forall_forall.
      intros x Hx. apply bencode_ok. auto. }
    destruct (bencode_dict_items d Hd (insertion_sort (dict_keys d)))
      as (items & Hks & Hcr & Hin).
    { intros x Hx. eapply Permutation_in; [apply insertion_sort_perm|exact Hx]. }
    exists items. split; [|split; [|split]].
    + rewrite bencode_Dict, (sorted_kbytes _ Hkb). simpl bind.
      rewrite Hcr. reflexivity.
    + rewrite Hks. apply insertion_sort_ascending, Hkb.
    + rewrite Hks. apply insertion_sort_perm.
    + exact Hin.
  - symmetry. apply bencode_Dict_perm; assumption.
Qed.

Lemma bencode_map_canonical_witness :
  constructible (Dict sample_dict_sorted) = true /\
  Permutation sample_dict_sorted (rev sample_dict_sorted) /\
  bencode (Dict (rev sample_dict_sorted)) = bencode (Dict sample_dict_sorted).
Proof.
  split; [reflexivity|]. split; [apply perm_swap|].
  apply (bencode_map_canonical sample_dict_sorted (rev sample_dict_sorted));
    [reflexivity|apply perm_swap].
Defined.

(** C8: [bdecode] raises on a string shorter than its declared length, on
    an integer without its [e], on a dictionary key without a value, and
    on a [d] or [l] container whose input ends before its [e]: the loop
    that finds the end of the input where an element or [e] should be
    raises [ValueError], and so does [bdecode] on every proper prefix of
    a complete container. *)
Theorem bdecode_rejects_malformed :
  bdecode (b "3:ab") 0 = Raise ValueError /\
  bdecode (b "i3x") 0 = Raise ValueError /\
  bdecode (b "d3:keye") 0 = Raise ValueError /\
  (forall fuel d data, dict_loop (S fuel) None d data = Raise ValueError) /\
  (forall fuel l data, list_loop (S fuel) None l data = Raise ValueError) /\
  forall (m : byte) (body : bytes) (v : value) (p q : bytes),
    m = "d"%byte \/ m = "l"%byte ->
    decodes_exactly (m :: body) v ->
    m :: body = p ++ q -> q <> [] ->
    bdecode p 0 = Raise ValueError.
Proof.
  split; [vm_compute; reflexivity|].
  split; [vm_compute; reflexivity|].
  split; [vm_compute; reflexivity|].
  split; [reflexivity|]. split; [reflexivity|].
  intros m body v p q _ Hd E Hq. eapply truncated_raises; eassumption.
Qed.

Lemma bdecode_rejects_malformed_witness :
  decodes_exactly (b "l1:ae") (List [Bytes (b "a")]) /\
  bdecode (b "l1:a") 0 = Raise ValueError.
Proof.
  split; [reflexivity|].
  apply (proj2 (proj2 (proj2 (proj2 (proj2 bdecode_rejects_malformed))))
           "l"%byte (b "1:ae") (List [Bytes (b "a")]) (b "l1:a") (b "e")).
  - right. reflexivity.
  - reflexivity.
  - reflexivity.
  - discriminate.
Defined.

(** C10: [bdecode] stops after one complete object: bytes that follow an
    input it decodes change neither the success nor the value. *)
Theorem bdecode_ignores_trailing_bytes (e s : bytes) (v : value) :
  bdecode e 0 = Ok v -> bdecode (e ++ s) 0 = Ok v.
Proof. apply bdecode_app. Qed.

Lemma bdecode_ignores_trailing_bytes_witness :
  bdecode (b "i3e") 0 = Ok (Int 3) /\
  bdecode (b "i3e" ++ b "junk") 0 = Ok (Int 3).
Proof.
  split; [reflexivity|].
  apply (bdecode_ignores_trailing_bytes (b "i3e") (b "junk") (Int 3)).
  reflexivity.
Defined.

(** * Properties of the piece hasher *)

(** C3: with a positive piece length [L], the pieces are the digests of
    the [L]-byte windows of the concatenation of the files in walk order,
    the last window shorter when the total is not a multiple of [L]:
    [3*L] bytes give 3 digests of full windows, [3*L + 1] bytes give 4,
    the last over 1 byte, and two files of [L/2] bytes give one digest,
    over both files. *)
Theorem chunk_hasher_windows {H : Hashlib} (fs : node) (filename : path)
        (o : options) (info0 : dict) :
  (0 < piece_length o)%Z ->
  let L := Z.to_nat (piece_length o) in
  (forall content,
     lookup fs filename = Some (File content true) ->
     exists info',
       hash_content fs filename o info0 =
       Ok (info', concat (map sha1 (chunks L content)))) /\
  (forall entries,
     lookup fs filename = Some (Dir entries) ->
     all_readable (walk [] (Dir entries)) = true ->
     exists info',
       hash_content fs filename o info0 =
       Ok (info',
           concat (map sha1 (chunks L (walk_content (walk [] (Dir entries))))))) /\
  (forall data,
     chunks L data = map (window L data) (seq 0 ((length data + L - 1) / L)) /\
     concat (chunks L data) = data) /\
  (forall content,
     lookup fs filename = Some (File content true) ->
     length content = 3 * L ->
     (exists info',
        hash_content fs filename o info0 =
        Ok (info', sha1 (window L content 0) ++ sha1 (window L content 1) ++
                   sha1 (window L content 2))) /\
     length (window L content 0) = L /\ length (window L content 1) = L /\
     length (window L content 2) = L) /\
  (forall content,
     lookup fs filename = Some (File content true) ->
     length content = 3 * L + 1 ->
     (exists info',
        hash_content fs filename o info0 =
        Ok (info', sha1 (window L content 0) ++ sha1 (window L content 1) ++
                   sha1 (window L content 2) ++ sha1 (window L content 3))) /\
     length (window L content 0) = L /\ length (window L content 1) = L /\
     length (window L content 2) = L /\ length (window L content 3) = 1) /\
  (forall entries p1 p2 f1 f2,
     lookup fs filename = Some (Dir entries) ->
     walk [] (Dir entries) = [(p1, (f1, true)); (p2, (f2, true))] ->
     2 <= L -> length f1 = L / 2 -> length f2 = L / 2 ->
     exists info',
       hash_content fs filename o info0 = Ok (info', sha1 (f1 ++ f2))).
Proof.
  intros HL L. assert (HL' : 0 < L) by (unfold L; lia).
  split; [|split; [|split; [|split; [|split]]]].
  - intros content E. apply hash_content_file; assumption.
  - intros entries E Hr. apply hash_content_dir; assumption.
  - intros data. split; [reflexivity|apply concat_chunks, HL'].
  - intros content E Hn.
    destruct (chunks_three L content HL' Hn) as (Ec & Hw).
    split; [|exact Hw].
    destruct (hash_content_file fs filename o info0 content HL E) as (info' & ->).
    exists info'. fold L. rewrite Ec. simpl. rewrite app_nil_r. reflexivity.
  - intros content E Hn.
    destruct (chunks_three_and_one L content HL' Hn) as (Ec & Hw).
    split; [|exact Hw].
    destruct (hash_content_file fs filename o info0 content HL E) as (info' & ->).
    exists info'. fold L. rewrite Ec. simpl. rewrite app_nil_r. reflexivity.
  - intros entries p1 p2 f1 f2 E Ew HL2 H1 H2.
    destruct (hash_content_dir fs filename o info0 entries HL E) as (info' & ->).
    { rewrite Ew. reflexivity. }
    exists info'. fold L. rewrite Ew. unfold walk_content. simpl.
    rewrite app_nil_r, (chunks_two_halves L f1 f2 HL2 H1 H2). simpl.
    rewrite app_nil_r. reflexivity.
Qed.

Lemma chunk_hasher_windows_witness :
  (0 < piece_length sample_options)%Z /\
  exists info',
    @hash_content sample_hashlib sample_fs [b "album"] sample_options [] =
    Ok (info',
        concat (map (@sha1 sample_hashlib)
                    (chunks 4 (walk_content (walk [] (Dir sample_album)))))).
Proof.
  split; [reflexivity|].
  apply (proj1 (proj2 (@chunk_hasher_windows sample_hashlib sample_fs [b "album"]
                         sample_options [] eq_refl)) sample_album);
    reflexivity.
Defined.

(** * Properties of the Merkle root *)

(** C2: in tree mode the root is the pairwise reduction of the hash
    sequence: each round pads an odd number of units with the level's
    padding value (first 20 zero bytes, then [digest(padding ||
    padding)]) and replaces each pair by its digest; [[h1]] gives [h1],
    [[h1, h2]] gives [digest(h1 || h2)], and [[h1, h2, h3]] gives
    [digest(digest(h1 || h2) || digest(h3 || 20 zero bytes))]. *)
Theorem merkle_root_pairwise_reduction {H : Hashlib} :
  (forall units,
     nonempty units = true -> hashesb units = true ->
     exists root,
       merkle_root (concat units) = Ok root /\ tree_root units = [root]) /\
  (forall units padding,
     hashesb units = true -> length padding = 20 ->
     merkle_round (concat units, padding) =
     (concat (pair_up (if Nat.odd (length units)
                       then units ++ [padding] else units)),
      sha1 (padding ++ padding))) /\
  (forall h1, length h1 = 20 -> merkle_root h1 = Ok h1) /\
  (forall h1 h2,
     length h1 = 20 -> length h2 = 20 ->
     merkle_root (h1 ++ h2) = Ok (sha1 (h1 ++ h2))) /\
  (forall h1 h2 h3,
     length h1 = 20 -> length h2 = 20 -> length h3 = 20 ->
     merkle_root (h1 ++ h2 ++ h3) =
     Ok (sha1 (sha1 (h1 ++ h2) ++ sha1 (h3 ++ zero_padding)))).
Proof.
  split; [|split; [|split; [|split]]].
  - intros units Hne Hu.
    destruct (merkle_root_units units (nonempty_ne _ Hne) (hashesb_hashes _ Hu))
      as (_ & _ & root & _ & E & Et & _).
    exists root. auto.
  - intros units padding Hu Hp.
    apply (merkle_round_units units padding (hashesb_hashes _ Hu) Hp).
  - intros h1 H1.
    destruct (merkle_root_units [h1]) as (_ & _ & root & _ & E & Et & _).
    + discriminate.
    + repeat constructor. exact H1.
    + simpl in E. rewrite app_nil_r in E. rewrite E. f_equal.
      unfold tree_root in Et. simpl in Et. congruence.
  - intros h1 h2 H1 H2.
    destruct (merkle_root_units [h1; h2]) as (_ & _ & root & _ & E & Et & _).
    + discriminate.
    + repeat constructor; assumption.
    + cbn [concat] in E. rewrite app_nil_r in E. rewrite E. f_equal.
      unfold tree_root in Et.
      cbn [tree_reduce length Nat.ltb Nat.leb Nat.odd Nat.even negb pair_up]
        in Et.
      congruence.
  - intros h1 h2 h3 H1 H2 H3.
    destruct (merkle_root_units [h1; h2; h3])
      as (_ & _ & root & _ & E & Et & _).
    + discriminate.
    + repeat constructor; assumption.
    + cbn [concat] in E. rewrite app_nil_r in E. rewrite E. f_equal.
      unfold tree_root in Et.
      cbn [tree_reduce length Nat.ltb Nat.leb Nat.odd Nat.even negb pair_up app]
        in Et.
      congruence.
Qed.

Lemma merkle_root_pairwise_reduction_witness :
  length sample_h1 = 20 /\ length sample_h2 = 20 /\ length sample_h3 = 20 /\
  @merkle_root sample_hashlib (sample_h1 ++ sample_h2 ++ sample_h3) =
  Ok (@sha1 sample_hashlib
        (@sha1 sample_hashlib (sample_h1 ++ sample_h2) ++
         @sha1 sample_hashlib (sample_h3 ++ zero_padding))).
Proof.
  split; [reflexivity|]. split; [reflexivity|]. split; [reflexivity|].
  apply (proj2 (proj2 (proj2 (proj2
           (@merkle_root_pairwise_reduction sample_hashlib))))
           sample_h1 sample_h2 sample_h3); reflexivity.
Defined.

(** C9: on a non-empty sequence of 20-byte hashes the reduction loop
    terminates with one 20-byte root; every round leaves half the units,
    rounded up, which is fewer; on a single hash the body never runs. *)
Theorem merkle_loop_terminates {H : Hashlib} (units : list bytes) :
  nonempty units = true -> hashesb units = true ->
  (exists root padding rounds,
     merkle_loop (length (concat units)) (concat units) =
       Ok ((root, padding), rounds) /\
     merkle_root (concat units) = Ok root /\
     length root = 20 /\
     (length units = 1 -> rounds = 0 /\ root = concat units)) /\
  (forall us padding,
     hashesb us = true -> length padding = 20 -> 2 <= length us ->
     length (fst (merkle_round (concat us, padding))) =
       20 * ((length us + 1) / 2) /\
     length (fst (merkle_round (concat us, padding))) < length (concat us)).
Proof.
  intros Hne Hu. split.
  - destruct (merkle_root_units units (nonempty_ne _ Hne) (hashesb_hashes _ Hu))
      as (padding & rounds & root & E & Er & _ & Hl & H1).
    exists root, padding, rounds. repeat split; auto.
    + apply H1. assumption.
    + destruct (H1 H0) as [_ ->]. simpl. rewrite app_nil_r. reflexivity.
  - intros us padding Hus Hp H2. apply hashesb_hashes in Hus.
    rewrite (merkle_round_units us padding Hus Hp). cbn [fst].
    rewrite length_concat_hashes by apply pair_up_hashes.
    destruct (pad_units_even us padding) as (k & Hk & Hk').
    rewrite pair_up_length, Hk.
    replace (2 * k / 2) with k by (apply (Nat.div_unique _ _ k 0); lia).
    rewrite (length_concat_hashes us Hus). subst k. split; [reflexivity|].
    pose proof (Nat.div_mod_eq (length us + 1) 2).
    pose proof (Nat.mod_upper_bound (length us + 1) 2). lia.
Qed.

Lemma merkle_loop_terminates_witness :
  nonempty [sample_h1; sample_h2; sample_h3] = true /\
  hashesb [sample_h1; sample_h2; sample_h3] = true /\
  exists root padding rounds,
    @merkle_loop sample_hashlib
      (length (concat [sample_h1; sample_h2; sample_h3]))
      (concat [sample_h1; sample_h2; sample_h3]) =
      Ok ((root, padding), rounds) /\
    @merkle_root sample_hashlib (concat [sample_h1; sample_h2; sample_h3]) =
      Ok root /\
    length root = 20 /\
    (length [sample_h1; sample_h2; sample_h3] = 1 ->
     rounds = 0 /\ root = concat [sample_h1; sample_h2; sample_h3]).
Proof.
  split; [reflexivity|]. split; [reflexivity|].
  apply (proj1 (@merkle_loop_terminates sample_hashlib
                  [sample_h1; sample_h2; sample_h3] eq_refl eq_refl)).
Defined.

(** * Properties of the identifier *)

(** C4: the identifier is the hexadecimal SHA-1 digest of the encoding
    of [info] alone.  Two metainfos of the same content built with the
    same descriptor options have the same [info], hence the same
    identifier, whatever their trackers, nodes, seeds, comment and date;
    with another piece length the encoding that is hashed is another
    one, so the identifier changes unless the digest collides on these
    two encodings. *)
Theorem infohash_of_info_only {H : Hashlib} (fs : node) (filename : path)
        (o1 o2 o3 : options) (now1 now2 now3 : Z) (m1 m2 m3 : metainfo) :
  same_descriptor_options o1 o2 ->
  (0 <= piece_length o1)%Z -> (0 <= piece_length o3)%Z ->
  piece_length o1 <> piece_length o3 ->
  Metainfo_init fs filename o1 now1 = Ok m1 ->
  Metainfo_init fs filename o2 now2 = Ok m2 ->
  Metainfo_init fs filename o3 now3 = Ok m3 ->
  info m1 = info m2 /\
  infohash m1 = infohash m2 /\
  exists e1 e3,
    bencode (Dict (info m1)) = Ok e1 /\
    bencode (Dict (info m3)) = Ok e3 /\
    infohash m1 = Ok (hexlify (sha1 e1)) /\
    infohash m3 = Ok (hexlify (sha1 e3)) /\
    e1 <> e3 /\
    ((sha1 e1 = sha1 e3 -> e1 = e3) -> infohash m1 <> infohash m3).
Proof.
  intros Hsame HL1 HL3 Hne E1 E2 E3.
  destruct (Metainfo_init_inv _ _ _ _ _ E1) as (_ & _ & I1 & _).
  destruct (Metainfo_init_inv _ _ _ _ _ E2) as (_ & _ & I2 & _).
  destruct (Metainfo_init_inv _ _ _ _ _ E3) as (_ & _ & I3 & _).
  assert (Ei : info m1 = info m2).
  { rewrite (build_info_options fs filename o1 o2 Hsame) in I1. congruence. }
  split; [exact Ei|]. split; [unfold infohash; rewrite Ei; reflexivity|].
  pose proof (build_info_plain _ _ _ _ HL1 I1) as P1.
  pose proof (build_info_plain _ _ _ _ HL3 I3) as P3.
  destruct (bencode_ok _ (proj1 P1)) as (e1 & B1).
  destruct (bencode_ok _ (proj1 P3)) as (e3 & B3).
  assert (Hd : e1 <> e3).
  { apply (bencode_Dict_differs (info m1) (info m3)
             (KBytes (b "piece length")) e1 e3 P1 P3); [|exact B1|exact B3].
    rewrite (build_info_piece_length _ _ _ _ I1).
    rewrite (build_info_piece_length _ _ _ _ I3). simpl. congruence. }
  exists e1, e3. unfold infohash. rewrite B1, B3. cbn [bind].
  split; [reflexivity|]. split; [reflexivity|]. split; [reflexivity|].
  split; [reflexivity|]. split; [exact Hd|].
  intros Hcol [= E]. apply Hd, Hcol, hexlify_inj, E.
Qed.

Lemma infohash_of_info_only_witness :
  same_descriptor_options sample_options sample_options_2 /\
  (0 <= piece_length sample_options)%Z /\
  (0 <= piece_length sample_options_3)%Z /\
  piece_length sample_options <> piece_length sample_options_3 /\
  @Metainfo_init sample_hashlib sample_fs [b "video"] sample_options 1000 =
    Ok sample_metainfo /\
  @Metainfo_init sample_hashlib sample_fs [b "video"] sample_options_2 2000 =
    Ok sample_metainfo_2 /\
  @Metainfo_init sample_hashlib sample_fs [b "video"] sample_options_3 1000 =
    Ok sample_metainfo_3 /\
  info sample_metainfo = info sample_metainfo_2 /\
  @infohash sample_hashlib sample_metainfo =
    @infohash sample_hashlib sample_metainfo_2 /\
  @infohash sample_hashlib sample_metainfo <>
    @infohash sample_hashlib sample_metainfo_3.
Proof.
  assert (Hs : same_descriptor_options sample_options sample_options_2)
    by (repeat split; reflexivity).
  assert (Hn : piece_length sample_options <> piece_length sample_options_3)
    by discriminate.
  assert (H0 : (0 <= 4)%Z) by discriminate.
  assert (H3 : (0 <= 5)%Z) by discriminate.
  split; [exact Hs|]. split; [exact H0|]. split; [exact H3|].
  split; [exact Hn|].
  split; [reflexivity|]. split; [reflexivity|]. split; [reflexivity|].
  pose proof (@infohash_of_info_only sample_hashlib sample_fs [b "video"]
                sample_options sample_options_2 sample_options_3
                1000 2000 1000
                sample_metainfo sample_metainfo_2 sample_metainfo_3
                Hs H0 H3 Hn eq_refl eq_refl eq_refl)
    as (Hi & Hh & e1 & e3 & B1 & B3 & _ & _ & _ & Hdiff).
  split; [exact Hi|]. split; [exact Hh|].
  apply Hdiff. intros Hcol. exfalso.
  vm_compute in B1, B3. injection B1 as <-. injection B3 as <-.
  vm_compute in Hcol. discriminate.
Defined.

(** * Properties of main *)

(** C6, as stated, at a concrete run: [locked] cannot be read, so the
    build raises [OSError]; the earlier [locked.torrent] is not left
    unchanged, it is now an empty file. *)
Lemma main_truncates_destination_counterexample :
  lookup sample_fs [b "locked.torrent"] =
    Some (File (b "an earlier torrent") true) /\
  snd (@main sample_hashlib sample_fs (sample_cli (b "locked")) 1000) =
    Raise OSError /\
  lookup (fst (@main sample_hashlib sample_fs (sample_cli (b "locked")) 1000))
         [b "locked.torrent"] = Some (File [] true) /\
  lookup (fst (@main sample_hashlib sample_fs (sample_cli (b "locked")) 1000))
         [b "locked.torrent"] <> lookup sample_fs [b "locked.torrent"].
Proof.
  split; [reflexivity|]. split; [vm_compute; reflexivity|].
  split; [vm_compute; reflexivity|]. vm_compute. discriminate.
Qed.

(** C6, amended: [main] opens the destination, which creates or empties
    it, before it builds the metainfo.  When the build succeeds the
    destination holds the whole encoding, written in one step; when the
    build raises, the destination is left as an empty file, never with a
    part of the encoding; when the destination cannot be opened nothing
    is changed. *)
Theorem main_destination {H : Hashlib} (fs : node) (a : cli) (now : Z) :
  match open_wb fs (infoname a) with
  | Ok fs1 =>
      (exists m data readable,
         Metainfo_init fs1 (cli_filename a) (func_args a) now = Ok m /\
         bencode (Dict (as_dict m)) = Ok data /\
         snd (main fs a now) = Ok tt /\
         lookup (fst (main fs a now)) (infoname a) =
           Some (File data readable)) \/
      (exists e readable,
         Metainfo_init fs1 (cli_filename a) (func_args a) now = Raise e /\
         snd (main fs a now) = Raise e /\
         fst (main fs a now) = fs1 /\
         lookup fs1 (infoname a) = Some (File [] readable))
  | Raise e => main fs a now = (fs, Raise e)
  | OutOfFuel => False
  end.
Proof.
  unfold main.
  pose proof (put_file_total fs (infoname a) []) as Ht.
  unfold open_wb in *.
  destruct (put_file fs (infoname a) []) as [fs1|e|] eqn:Eo;
    [|reflexivity|congruence].
  destruct (put_file_spec _ _ _ _ Eo) as [(readable & Hl) Hw].
  pose proof (Metainfo_init_total fs1 (cli_filename a) (func_args a) now) as Hm.
  destruct (Metainfo_init fs1 (cli_filename a) (func_args a) now)
    as [m|e|] eqn:Em; [| |congruence].
  - left. cbn [bind].
    destruct (Metainfo_constructible _ _ _ _ _ Em) as [_ Hc].
    destruct (bencode_ok _ Hc) as (data & Eb). rewrite Eb.
    destruct (Hw data) as (fs2 & Ew). rewrite Ew. cbn [fst snd].
    destruct (put_file_spec _ _ _ _ Ew) as [(readable' & Hl') _].
    exists m, data, readable'. auto.
  - right. cbn [bind fst snd]. exists e, readable. auto.
Qed.

(** * Further properties of the codec *)

(** X1: encodings are self-delimiting.  When the encodings of two
    constructible trees without negative integers, each followed by any
    bytes, give the same byte string, the two encodings are the same,
    so are the bytes that follow, and the two trees are equal; in
    particular two trees with the same encoding are equal. *)
Theorem bencode_prefix_free (v1 v2 : value) (e1 e2 s1 s2 : bytes) :
  plain v1 -> plain v2 ->
  bencode v1 = Ok e1 -> bencode v2 = Ok e2 ->
  e1 ++ s1 = e2 ++ s2 ->
  e1 = e2 /\ s1 = s2 /\ py_eq v1 v2 = true.
Proof.
  intros P1 P2 E1 E2 E.
  destruct (aux_read_bencode _ _ P1 E1) as (f1 & H1).
  destruct (aux_read_bencode _ _ P2 E2) as (f2 & H2).
  pose proof (H1 (Nat.max f1 f2) s1 (Nat.le_max_l _ _)) as R1.
  pose proof (H2 (Nat.max f1 f2) s2 (Nat.le_max_r _ _)) as R2.
  rewrite E, R2 in R1. injection R1 as Ec Es.
  subst s2. apply app_inv_tail in E.
  split; [exact E|]. split; [reflexivity|].
  apply canon_eq_py_eq; [apply P1|apply P2|symmetry; exact Ec].
Qed.

Lemma bencode_prefix_free_witness :
  plain (Dict sample_dict) /\ plain (Dict sample_dict_sorted) /\
  py_eq (Dict sample_dict) (Dict sample_dict_sorted) = true.
Proof.
  split; [split; reflexivity|]. split; [split; reflexivity|].
  apply (bencode_prefix_free (Dict sample_dict) (Dict sample_dict_sorted)
           (b "d3:cowi30e4:spaml1:a1:bee") (b "d3:cowi30e4:spaml1:a1:bee")
           (b "i1e") (b "i1e")).
  - split; reflexivity.
  - split; reflexivity.
  - reflexivity.
  - reflexivity.
  - reflexivity.
Defined.

(** X2: a truncated encoding never decodes: on every proper prefix of
    the encoding of a constructible tree without negative integers
    [bdecode] raises [ValueError]. *)
Theorem bdecode_truncated_encoding (v : value) (e p q : bytes) :
  plain v -> bencode v = Ok e -> e = p ++ q -> q <> [] ->
  bdecode p 0 = Raise ValueError.
Proof.
  intros Hp Ee E Hq.
  apply (truncated_raises e (canon v) p q 0%Z);
    [apply decodes_exactly_bencode; assumption|exact E|exact Hq].
Qed.

Lemma bdecode_truncated_encoding_witness :
  plain (Dict sample_dict) /\
  bencode (Dict sample_dict) = Ok (b "d3:cowi30e4:spaml1:a1:bee") /\
  bdecode (b "d3:cowi30e4:spa") 0 = Raise ValueError.
Proof.
  split; [split; reflexivity|]. split; [reflexivity|].
  apply (bdecode_truncated_encoding (Dict sample_dict)
           (b "d3:cowi30e4:spaml1:a1:bee") (b "d3:cowi30e4:spa")
           (b "ml1:a1:bee")).
  - split; reflexivity.
  - reflexivity.
  - reflexivity.
  - discriminate.
Defined.

(** X3: [bdecode] reads the entries of a dictionary in any order and
    with repeated keys: the result is the dictionary the assignments
    [d[key] = value] leave when made in input order, so that a repeated
    key holds the value of its last entry. *)
Theorem bdecode_dict_last_write_wins (items : list (bytes * value))
        (rest : bytes) :
  Forall (fun kv => plain (snd kv)) items ->
  let decoded := map (fun kv => (fst kv, canon (snd kv))) items in
  bdecode (b "d" ++
           concat (map (fun kv => bencode_key (KBytes (fst kv)) ++
                                  encoding (snd kv)) items) ++
           b "e" ++ rest) 0 =
    Ok (Dict (assign_all decoded)) /\
  forall k, dict_get (assign_all decoded) (KBytes k) = last_assigned decoded k.
Proof.
  intros Hp decoded. split.
  - destruct (aux_read_decodes _ _ (decodes_assignments items Hp)) as (f0 & H0).
    apply (bdecode_of_aux_read f0 _ _ _ rest).
    pose proof (H0 f0 rest (le_n _)) as R.
    rewrite <- !app_assoc in R. exact R.
  - intros k. unfold assign_all, last_assigned.
    apply dict_get_fold_set. reflexivity.
Qed.

Lemma bdecode_dict_last_write_wins_witness :
  Forall (fun kv : bytes * value => plain (snd kv))
         [(b "b", Int 1); (b "a", Int 2); (b "b", Int 3)] /\
  bdecode (b "d1:bi1e1:ai2e1:bi3ee") 0 =
    Ok (Dict [(KBytes (b "b"), Int 3); (KBytes (b "a"), Int 2)]).
Proof.
  assert (Hp : Forall (fun kv : bytes * value => plain (snd kv))
                      [(b "b", Int 1); (b "a", Int 2); (b "b", Int 3)]).
  { repeat constructor. }
  split; [exact Hp|].
  exact (proj1 (bdecode_dict_last_write_wins
                  [(b "b", Int 1); (b "a", Int 2); (b "b", Int 3)] [] Hp)).
Defined.

(** X4: the integer branch of [bdecode] takes any run of decimal digits
    between [i] and [e], also with leading zeros and also empty: the
    value is the number the digits denote, and [ie] is read as 0. *)
Theorem bdecode_int_any_digits (ds rest : bytes) :
  forallb is_digit ds = true ->
  bdecode (b "i" ++ ds ++ b "e" ++ rest) 0 = Ok (Int (digits_value ds 0)).
Proof.
  intros Hd. apply (bdecode_of_aux_read 2 _ _ _ rest).
  apply aux_read_int_digits. apply forallb_is_digit. exact Hd.
Qed.

Lemma bdecode_int_any_digits_witness :
  forallb is_digit (b "007") = true /\
  bdecode (b "i007e") 0 = Ok (Int 7) /\
  bdecode (b "ie") 0 = Ok (Int 0).
Proof.
  split; [reflexivity|]. split.
  - exact (bdecode_int_any_digits (b "007") [] eq_refl).
  - exact (bdecode_int_any_digits [] [] eq_refl).
Defined.

(** X5: the string branch of [bdecode] takes any non-empty run of
    decimal digits as the length, also with leading zeros: when the
    digits denote the length of [s], the bytes [s] after the colon are
    the result. *)
Theorem bdecode_string_any_digits (ds s rest : bytes) :
  nonempty ds = true -> forallb is_digit ds = true ->
  digits_value ds 0 = Z.of_nat (length s) ->
  bdecode (ds ++ b ":" ++ s ++ rest) 0 = Ok (Bytes s).
Proof.
  intros Hne Hd Hv. destruct ds as [|c ds]; [discriminate|].
  apply (bdecode_of_aux_read 2 _ _ _ rest).
  apply aux_read_string_digits; [apply forallb_is_digit; exact Hd|exact Hv].
Qed.

Lemma bdecode_string_any_digits_witness :
  nonempty (b "003") = true /\ forallb is_digit (b "003") = true /\
  digits_value (b "003") 0 = Z.of_nat (length (b "abc")) /\
  bdecode (b "003:abcde") 0 = Ok (Bytes (b "abc")).
Proof.
  split; [reflexivity|]. split; [reflexivity|]. split; [reflexivity|].
  exact (bdecode_string_any_digits (b "003") (b "abc") (b "de")
           eq_refl eq_refl eq_refl).
Defined.

(** X6: digits that are not followed by their separator are refused,
    whatever comes after: [bdecode] raises [ValueError] when the length
    of a string is followed by a byte other than a colon, and when the
    digits of an integer are followed by a byte other than [e]. *)
Theorem bdecode_missing_separator (ds : bytes) (c : byte) (rest : bytes) :
  forallb is_digit ds = true -> is_digit c = false ->
  (nonempty ds = true -> c <> ":"%byte ->
   bdecode (ds ++ c :: rest) 0 = Raise ValueError) /\
  (c <> "e"%byte ->
   bdecode (b "i" ++ ds ++ c :: rest) 0 = Raise ValueError).
Proof.
  intros Hd Hc. apply forallb_is_digit in Hd. split.
  - intros Hne Hcolon. destruct ds as [|c0 ds]; [discriminate|].
    apply (bdecode_of_aux_read_raise 2).
    apply aux_read_string_no_colon; assumption.
  - intros He. apply (bdecode_of_aux_read_raise 2).
    apply aux_read_int_no_e; assumption.
Qed.

Lemma bdecode_missing_separator_witness :
  forallb is_digit (b "12") = true /\ is_digit "x" = false /\
  bdecode (b "12x34") 0 = Raise ValueError /\
  bdecode (b "i12x34e") 0 = Raise ValueError.
Proof.
  split; [reflexivity|]. split; [reflexivity|].
  pose proof (bdecode_missing_separator (b "12") "x"%byte (b "34")
                eq_refl eq_refl) as [H1 H2].
  split.
  - apply H1; [reflexivity|discriminate].
  - apply (bdecode_missing_separator (b "12") "x"%byte (b "34e")
             eq_refl eq_refl). discriminate.
Defined.

(** X7: an input that starts with no marker is refused: [bdecode]
    raises [ValueError] on the empty input and on every input whose
    first byte is neither a digit nor one of [i], [d], [l]. *)
Theorem bdecode_invalid_marker :
  bdecode [] 0 = Raise ValueError /\
  forall (m : byte) (rest : bytes),
    is_digit m = false -> m <> "i"%byte -> m <> "d"%byte -> m <> "l"%byte ->
    bdecode (m :: rest) 0 = Raise ValueError.
Proof.
  split; [reflexivity|].
  intros m rest Hd Hi Hdd Hl.
  apply (bdecode_of_aux_read_raise 2).
  apply aux_read_invalid_marker; assumption.
Qed.

Lemma bdecode_invalid_marker_witness :
  bdecode (b "e") 0 = Raise ValueError /\
  bdecode (b "x3:abc") 0 = Raise ValueError.
Proof.
  split.
  - apply (proj2 bdecode_invalid_marker "e"%byte []);
      [reflexivity|discriminate|discriminate|discriminate].
  - apply (proj2 bdecode_invalid_marker "x"%byte (b "3:abc"));
      [reflexivity|discriminate|discriminate|discriminate].
Defined.

(** X8: a dictionary entry whose key is a list or a dictionary makes
    [bdecode] raise [TypeError], not [ValueError]: the key and the value
    are decoded, and the assignment [d[key] = value] fails on the
    unhashable key. *)
Theorem bdecode_unhashable_key (k v : value) (rest : bytes) :
  plain k -> plain v -> hashable k = Raise TypeError ->
  bdecode (b "d" ++ encoding k ++ encoding v ++ rest) 0 = Raise TypeError.
Proof.
  intros Hk Hv Hh.
  destruct (aux_read_unhashable_key k v rest Hk Hv Hh) as (fuel & E).
  apply (bdecode_of_aux_read_raise fuel). exact E.
Qed.

Lemma bdecode_unhashable_key_witness :
  plain (List []) /\ plain (Int 1) /\ hashable (List []) = Raise TypeError /\
  bdecode (b "dlei1ee") 0 = Raise TypeError.
Proof.
  split; [split; reflexivity|]. split; [split; reflexivity|].
  split; [reflexivity|].
  apply (bdecode_unhashable_key (List []) (Int 1) (b "e")).
  - split; reflexivity.
  - split; reflexivity.
  - reflexivity.
Defined.

(** X9: no negative integer survives the round trip: [bencode] writes
    every [i < 0] with a minus sign, and [bdecode] raises [ValueError]
    on any input that starts with [i-]. *)
Theorem bdecode_refuses_minus_sign (i : Z) (rest : bytes) :
  (i < 0)%Z ->
  bencode (Int i) = Ok (b "i-" ++ fmt_nat (Z.to_N (- i)) ++ b "e") /\
  bdecode (b "i-" ++ rest) 0 = Raise ValueError.
Proof.
  intros Hi. split.
  - simpl. unfold fmt_int. destruct (Z.ltb_spec i 0); [reflexivity|lia].
  - apply (bdecode_of_aux_read_raise 2). apply aux_read_minus.
Qed.

Lemma bdecode_refuses_minus_sign_witness :
  bencode (Int (-42)) = Ok (b "i-42e") /\
  bdecode (b "i-42e") 0 = Raise ValueError.
Proof.
  exact (bdecode_refuses_minus_sign (-42) (b "42e") eq_refl).
Defined.

(** X10: what [bencode] does on any finite tree of objects.  On a tree
    that holds a [str], or an object that is neither bytes, integer,
    mapping nor iterable, or a mapping with both bytes and integer
    keys, it returns no value.  When moreover the tree is within the
    limits of the interpreter (no integer of more than 4300 digits,
    nesting within the call stack), [bencode] returns or raises
    [TypeError], and it raises exactly on the trees above. *)
Theorem bencode_fails_exactly_on_unsupported (o : obj) :
  distinct_keys o = true ->
  (supported o = false -> forall e, bencode_obj o <> Ok e) /\
  (within_limits o = true ->
   (supported o = true -> exists e, bencode_obj o = Ok e) /\
   (supported o = false -> bencode_obj o = Raise TypeError)).
Proof.
  intros Hd. pose proof (bencode_obj_outcome o Hd) as Ho.
  destruct (supported o).
  - split; [discriminate|]. intros _. split; [intros _; exact Ho|discriminate].
  - split; [intros _ e; rewrite Ho; discriminate|].
    intros _. split; [discriminate|intros _; exact Ho].
Qed.

Lemma bencode_fails_exactly_on_unsupported_witness :
  distinct_keys (ODict [(KBytes (b "name"), OList [OBytes (b "a"); OStr (b "b")])])
    = true /\
  within_limits (ODict [(KBytes (b "name"), OList [OBytes (b "a"); OStr (b "b")])])
    = true /\
  bencode_obj (ODict [(KBytes (b "name"), OList [OBytes (b "a"); OStr (b "b")])])
    = Raise TypeError /\
  within_limits (ODict [(KBytes (b "name"), OList [OBytes (b "a"); OInt 7])])
    = true /\
  exists e,
    bencode_obj (ODict [(KBytes (b "name"), OList [OBytes (b "a"); OInt 7])])
      = Ok e.
Proof.
  split; [reflexivity|]. split; [vm_compute; reflexivity|]. split.
  - apply (bencode_fails_exactly_on_unsupported
             (ODict [(KBytes (b "name"), OList [OBytes (b "a"); OStr (b "b")])]));
      vm_compute; reflexivity.
  - split; [vm_compute; reflexivity|].
    apply (bencode_fails_exactly_on_unsupported
             (ODict [(KBytes (b "name"), OList [OBytes (b "a"); OInt 7])]));
      vm_compute; reflexivity.
Defined.

(** X11: an already encoded string is appended as it is.  Encoding the
    result of an encoding returns it unchanged, and a list or a mapping
    whose members have been replaced by their encodings is encoded to
    the same bytes.  On trees of bytes, integers, lists and mappings
    [bencode_obj] is [bencode]. *)
Theorem bencode_splices_encoded :
  (forall o e, bencode_obj o = Ok e -> bencode_obj (OBencoded e) = Ok e) /\
  (forall l, bencode_obj (OList (map pre_encoded l)) = bencode_obj (OList l)) /\
  (forall d,
     bencode_obj (ODict (map (fun kv => (fst kv, pre_encoded (snd kv))) d)) =
     bencode_obj (ODict d)) /\
  (forall v, bencode_obj (obj_of_value v) = bencode v).
Proof.
  split; [reflexivity|]. split; [|split].
  - intros l. cbn [bencode_obj]. rewrite map_map.
    rewrite (map_ext _ _ bencode_obj_pre_encoded). reflexivity.
  - intros d. rewrite !bencode_obj_ODict.
    rewrite (dict_keys_map pre_encoded d), map_map. cbn [fst snd].
    rewrite (map_ext (fun kv : key * obj =>
                        (fst kv, bencode_obj (pre_encoded (snd kv))))
                     (fun kv => (fst kv, bencode_obj (snd kv))));
      [reflexivity|].
    intros kv. rewrite bencode_obj_pre_encoded. reflexivity.
  - apply bencode_obj_of_value.
Qed.

Lemma bencode_splices_encoded_witness :
  bencode_obj (OList [OBytes (b "spam"); OInt 3]) = Ok (b "l4:spami3ee") /\
  bencode_obj (OBencoded (b "l4:spami3ee")) = Ok (b "l4:spami3ee") /\
  bencode_obj (OList [OBencoded (b "4:spam"); OBencoded (b "i3e")]) =
    Ok (b "l4:spami3ee").
Proof.
  split; [reflexivity|]. split.
  - apply (proj1 bencode_splices_encoded (OList [OBytes (b "spam"); OInt 3])).
    reflexivity.
  - exact (eq_trans
             (proj1 (proj2 bencode_splices_encoded) [OBytes (b "spam"); OInt 3])
             eq_refl).
Defined.

(** * Further properties of the constructor *)



(** X13: a path that is neither a file nor a directory is no error: the
    constructor returns a metainfo whose [info] holds the header entries
    and an empty hash string, and whose [length] is [None]. *)
Theorem Metainfo_init_missing_path {H : Hashlib} (fs : node) (filename : path)
        (o : options) (now : Z) :
  lookup fs filename = None -> first_tracker_exists o = true ->
  exists m,
    Metainfo_init fs filename o now = Ok m /\
    info m = dict_set (info_header filename o) (hashes_key o) (Bytes []) /\
    mi_length m = None.
Proof.
  intros Hl Ht.
  pose proof (build_self_outcome o now) as Hs. rewrite Ht in Hs.
  destruct Hs as (self & Es).
  assert (Ei : build_info fs filename o =
               Ok (dict_set (info_header filename o) (hashes_key o) (Bytes []))).
  { rewrite build_info_eq. unfold hash_content, hashes_key. rewrite Hl.
    cbn [bind]. destruct (merkle o); reflexivity. }
  rewrite Metainfo_init_eq, Es, Ei. cbn [bind].
  eexists. split; [reflexivity|]. cbn [info mi_length].
  split; [reflexivity|].
  rewrite dict_get_set. unfold hashes_key.
  destruct (merkle o); key_eval; cbv iota;
    rewrite info_header_get by reflexivity; reflexivity.
Qed.

Lemma Metainfo_init_missing_path_witness :
  lookup sample_fs [b "nothing"] = None /\
  exists m,
    @Metainfo_init sample_hashlib sample_fs [b "nothing"] sample_options 1000 =
      Ok m /\
    dict_get (info m) (KBytes (b "pieces")) = Some (Bytes []).
Proof.
  split; [reflexivity|].
  destruct (@Metainfo_init_missing_path sample_hashlib sample_fs [b "nothing"]
              sample_options 1000 eq_refl eq_refl) as (m & E & Ei & _).
  exists m. split; [exact E|]. rewrite Ei. reflexivity.
Defined.

(** X14: a directory without any file below it is no error: [files] is
    the empty list and the hash string is empty. *)
Theorem Metainfo_init_empty_directory {H : Hashlib} (fs : node)
        (filename : path) (o : options) (now : Z)
        (entries : list (bytes * node)) :
  lookup fs filename = Some (Dir entries) ->
  walk [] (Dir entries) = [] ->
  first_tracker_exists o = true ->
  exists m,
    Metainfo_init fs filename o now = Ok m /\
    info m = dict_set (dict_set (info_header filename o)
                                (KBytes (b "files")) (List []))
                      (hashes_key o) (Bytes []) /\
    mi_length m = None.
Proof.
  intros Hl Hw Ht.
  pose proof (build_self_outcome o now) as Hs. rewrite Ht in Hs.
  destruct Hs as (self & Es).
  assert (Ei : build_info fs filename o =
               Ok (dict_set (dict_set (info_header filename o)
                                      (KBytes (b "files")) (List []))
                            (hashes_key o) (Bytes []))).
  { rewrite build_info_eq. unfold hash_content, hashes_key. rewrite Hl, Hw.
    cbn [hash_walk bind nonempty]. destruct (merkle o); reflexivity. }
  assert (Em : exists m, Metainfo_init fs filename o now = Ok m /\
                         info m = dict_set (dict_set (info_header filename o)
                                                     (KBytes (b "files")) (List []))
                                           (hashes_key o) (Bytes [])).
  { rewrite Metainfo_init_eq, Es, Ei. cbn [bind]. eexists.
    split; reflexivity. }
  destruct Em as (m & Em & Einfo). exists m.
  split; [exact Em|]. split; [exact Einfo|].
  rewrite (Metainfo_init_length _ _ _ _ _ Em), Hl. reflexivity.
Qed.

Lemma Metainfo_init_empty_directory_witness :
  exists m,
    @Metainfo_init sample_hashlib (Dir [(b "empty", Dir [(b "sub", Dir [])])])
                   [b "empty"] sample_options 1000 = Ok m /\
    dict_get (info m) (KBytes (b "files")) = Some (List []) /\
    dict_get (info m) (KBytes (b "pieces")) = Some (Bytes []).
Proof.
  destruct (@Metainfo_init_empty_directory sample_hashlib
              (Dir [(b "empty", Dir [(b "sub", Dir [])])]) [b "empty"]
              sample_options 1000 [(b "sub", Dir [])] eq_refl eq_refl eq_refl)
    as (m & E & Ei & _).
  exists m. split; [exact E|]. rewrite Ei. split; reflexivity.
Defined.

(** X15: the entries [info] has whatever the content: [piece length] is
    the piece length given, [name] is the base name of the path, and
    [private] is 1 when the flag is set and absent otherwise; reading
    the content and storing the hashes leave them as they are. *)
Theorem info_header_entries {H : Hashlib} (fs : node) (filename : path)
        (o : options) (now : Z) (m : metainfo) :
  Metainfo_init fs filename o now = Ok m ->
  dict_get (info m) (KBytes (b "piece length")) = Some (Int (piece_length o)) /\
  dict_get (info m) (KBytes (b "name")) = Some (Bytes (basename filename)) /\
  dict_get (info m) (KBytes (b "private")) =
    (if private o then Some (Int 1) else None) /\
  mi_name m = basename filename.
Proof.
  intros E.
  destruct (Metainfo_header_entries _ _ _ _ _ E) as (H1 & H2 & H3).
  destruct (Metainfo_init_Ok _ _ _ _ _ E) as (self & _ & _ & _ & _ & _ & En & _).
  auto.
Qed.

Lemma info_header_entries_witness :
  @Metainfo_init sample_hashlib sample_fs [b "album"] sample_options_md5 1000 =
    Ok sample_metainfo_album /\
  dict_get (info sample_metainfo_album) (KBytes (b "private")) = Some (Int 1) /\
  dict_get (info sample_metainfo_album) (KBytes (b "name")) =
    Some (Bytes (b "album")).
Proof.
  split; [reflexivity|].
  destruct (@info_header_entries sample_hashlib sample_fs [b "album"]
              sample_options_md5 1000 sample_metainfo_album eq_refl)
    as (_ & H2 & H3 & _).
  split; [exact H3|exact H2].
Defined.

(** X16: the [info] of every metainfo holds its hashes under exactly one
    of the two keys: [root hash] in Merkle mode, a string of 20 bytes or
    the empty string, and [pieces] otherwise, a string whose length is a
    multiple of 20, whatever the piece length. *)
Theorem info_hashes_entry {H : Hashlib} (fs : node) (filename : path)
        (o : options) (now : Z) (m : metainfo) :
  Metainfo_init fs filename o now = Ok m ->
  exists final,
    dict_get (info m) (KBytes (if merkle o then b "root hash" else b "pieces")) =
      Some (Bytes final) /\
    dict_get (info m) (KBytes (if merkle o then b "pieces" else b "root hash")) =
      None /\
    if merkle o then final = [] \/ length final = 20
    else exists n, length final = 20 * n.
Proof.
  intros E. destruct (Metainfo_init_Ok _ _ _ _ _ E) as (self & _ & Ei & _).
  destruct (build_info_Ok _ _ _ _ Ei) as (info' & pieces & final & Eh & Hs & Hf & ->).
  exists final. unfold hashes_key. split; [|split].
  - rewrite dict_get_set, key_eqb_refl. reflexivity.
  - destruct (merkle o); rewrite dict_get_set; key_eval; cbv iota;
      (erewrite hash_content_get_other;
       [|reflexivity|reflexivity|reflexivity|exact Eh]);
      rewrite info_header_get by reflexivity; reflexivity.
  - destruct (merkle o).
    + destruct (merkle_root_length _ _ Hs Hf) as [[_ ->]|[_ Hl]]; auto.
    + subst final. destruct Hs as (units & -> & Hu).
      exists (length units). apply length_concat_hashes. exact Hu.
Qed.

Lemma info_hashes_entry_witness :
  @Metainfo_init sample_hashlib sample_fs [b "video"] sample_options_merkle 1000 =
    Ok sample_metainfo_merkle /\
  exists final,
    dict_get (info sample_metainfo_merkle) (KBytes (b "root hash")) =
      Some (Bytes final) /\
    dict_get (info sample_metainfo_merkle) (KBytes (b "pieces")) = None /\
    (final = [] \/ length final = 20).
Proof.
  split; [reflexivity|].
  apply (@info_hashes_entry sample_hashlib sample_fs [b "video"]
           sample_options_merkle 1000 sample_metainfo_merkle).
  reflexivity.
Defined.

(** X17: the metainfo of a single file, with a positive piece length
    [L].  [length] is the size of the file and there is no [files]
    entry; [md5sum] is there exactly when asked for, and is the
    hexadecimal MD5 digest of the whole content; [pieces] is the
    concatenation of the digests of the [L]-byte windows, 20 bytes for
    each of the [ceil(size / L)] windows; in Merkle mode [root hash] is
    the root of the tree over these digests, and the empty string for an
    empty file. *)
Theorem Metainfo_single_file {H : Hashlib} (fs : node) (filename : path)
        (o : options) (now : Z) (m : metainfo) (content : bytes)
        (readable : bool) :
  lookup fs filename = Some (File content readable) ->
  (0 < piece_length o)%Z ->
  Metainfo_init fs filename o now = Ok m ->
  let L := Z.to_nat (piece_length o) in
  readable = true /\
  mi_length m = Some (getsize content) /\
  dict_get (info m) (KBytes (b "length")) = Some (Int (getsize content)) /\
  dict_get (info m) (KBytes (b "files")) = None /\
  dict_get (info m) (KBytes (b "md5sum")) =
    (if md5sum o then Some (Bytes (hexlify (md5 content))) else None) /\
  exists final,
    dict_get (info m) (hashes_key o) = Some (Bytes final) /\
    if merkle o
    then (content = [] -> final = []) /\
         (content <> [] -> tree_root (map sha1 (chunks L content)) = [final])
    else final = concat (map sha1 (chunks L content)) /\
         length final = 20 * ((length content + L - 1) / L).
Proof.
  intros Hl HL E L.
  assert (HL' : 0 < L) by (unfold L; lia).
  destruct (Metainfo_init_Ok _ _ _ _ _ E) as (self & _ & Ei & _ & _ & _ & _ & Elen).
  destruct (build_info_Ok _ _ _ _ Ei) as (info' & pieces & final & Eh & Hs & Hf & Einfo).
  unfold hash_content in Eh. rewrite Hl in Eh.
  destruct readable; cbn [negb] in Eh; [|discriminate].
  rewrite (hash_file_loop_spec _ HL) in Eh. cbn [app] in Eh.
  fold L in Eh. injection Eh as Einfo' Ep.
  assert (Eg : dict_get (info m) (KBytes (b "length")) =
               Some (Int (getsize content))).
  { rewrite Einfo, <- Einfo'. unfold hashes_key.
    destruct (md5sum o), (merkle o); dict_eval; reflexivity. }
  split; [reflexivity|]. split; [rewrite Elen, Eg; reflexivity|].
  split; [exact Eg|]. split; [|split].
  - rewrite Einfo, <- Einfo'. unfold hashes_key.
    destruct (md5sum o), (merkle o); dict_eval;
      rewrite info_header_get by reflexivity; reflexivity.
  - rewrite Einfo, <- Einfo'. unfold hashes_key.
    destruct (md5sum o), (merkle o); dict_eval;
      try reflexivity; rewrite info_header_get by reflexivity; reflexivity.
  - exists final. split.
    + rewrite Einfo, dict_get_set, key_eqb_refl. reflexivity.
    + destruct (merkle o).
      * split.
        -- intros ->. rewrite (chunks_nil _ HL') in Ep. simpl in Ep.
           subst pieces. rewrite merkle_root_nil in Hf. congruence.
        -- intros Hne.
           assert (Hu : hashes (map sha1 (chunks L content))).
           { apply Forall_map. apply Forall_forall. intros x _.
             apply sha1_length. }
           destruct (merkle_root_units (map sha1 (chunks L content)))
             as (p & r & root & _ & Er & Et & _); [|exact Hu|].
           { rewrite (chunks_cons _ _ HL' Hne). discriminate. }
           rewrite Ep, Hf in Er. injection Er as ->. exact Et.
      * subst final. split; [symmetry; exact Ep|]. rewrite <- Ep.
        rewrite length_concat_hashes, length_map, length_chunks;
          [reflexivity|].
        apply Forall_map. apply Forall_forall. intros x _. apply sha1_length.
Qed.

Lemma Metainfo_single_file_witness :
  lookup sample_fs [b "video"] = Some (File (b "0123456789") true) /\
  (0 < piece_length sample_options_md5)%Z /\
  @Metainfo_init sample_hashlib sample_fs [b "video"] sample_options_md5 1000 =
    Ok sample_metainfo_md5 /\
  mi_length sample_metainfo_md5 = Some 10%Z /\
  dict_get (info sample_metainfo_md5) (KBytes (b "md5sum")) =
    Some (Bytes (hexlify (@md5 sample_hashlib (b "0123456789")))).
Proof.
  split; [reflexivity|]. split; [reflexivity|]. split; [reflexivity|].
  pose proof (@Metainfo_single_file sample_hashlib sample_fs [b "video"]
                sample_options_md5 1000 sample_metainfo_md5 (b "0123456789")
                true eq_refl eq_refl eq_refl) as (_ & Hlen & _ & _ & Hmd5 & _).
  split; [exact Hlen|exact Hmd5].
Defined.

(** X18: a single file of 600000 bytes with the default piece length of
    262144 gives [length] 600000 and three piece digests, over windows
    of 262144, 262144 and 75712 bytes. *)
Theorem single_file_600000_three_pieces {H : Hashlib} (fs : node)
        (filename : path) (o : options) (now : Z) (m : metainfo)
        (content : bytes) (readable : bool) :
  lookup fs filename = Some (File content readable) ->
  Z.of_nat (length content) = 600000%Z ->
  piece_length o = 262144%Z -> merkle o = false ->
  Metainfo_init fs filename o now = Ok m ->
  dict_get (info m) (KBytes (b "length")) = Some (Int 600000) /\
  exists c1 c2 c3,
    content = c1 ++ c2 ++ c3 /\
    Z.of_nat (length c1) = 262144%Z /\
    Z.of_nat (length c2) = 262144%Z /\
    Z.of_nat (length c3) = 75712%Z /\
    dict_get (info m) (KBytes (b "pieces")) =
      Some (Bytes (sha1 c1 ++ sha1 c2 ++ sha1 c3)).
Proof.
  intros Hl Hlen HL Hm E.
  assert (HL0 : (0 < piece_length o)%Z) by lia.
  destruct (Metainfo_file_pieces _ _ _ _ _ _ _ Hl HL0 Hm E) as [Eg Ep].
  unfold getsize in Eg. rewrite Hlen in Eg. split; [exact Eg|].
  rewrite HL in Ep.
  destruct (chunks_two_and_rest (Z.to_nat 262144) content)
    as (c1 & c2 & c3 & Ec & Ech & H1 & H2 & H3); [lia|lia|lia|].
  exists c1, c2, c3. split; [exact Ec|].
  split; [lia|]. split; [lia|]. split; [lia|].
  rewrite Ep, Ech. cbn [map concat]. rewrite app_nil_r. reflexivity.
Qed.

Lemma single_file_600000_three_pieces_witness :
  lookup sample_fs_big [b "big"] = Some (File sample_big true) /\
  Z.of_nat (length sample_big) = 600000%Z /\
  piece_length sample_options_default = 262144%Z /\
  @Metainfo_init sample_hashlib_light sample_fs_big [b "big"]
                 sample_options_default 1000 = Ok sample_metainfo_big /\
  dict_get (info sample_metainfo_big) (KBytes (b "length")) =
    Some (Int 600000).
Proof.
  assert (Hlen : Z.of_nat (length sample_big) = 600000%Z)
    by (vm_compute; reflexivity).
  assert (E : @Metainfo_init sample_hashlib_light sample_fs_big [b "big"]
                sample_options_default 1000 = Ok sample_metainfo_big)
    by (vm_compute; reflexivity).
  split; [reflexivity|]. split; [exact Hlen|]. split; [reflexivity|].
  split; [exact E|].
  exact (proj1 (@single_file_600000_three_pieces sample_hashlib_light
                  sample_fs_big [b "big"] sample_options_default 1000
                  sample_metainfo_big sample_big true eq_refl Hlen eq_refl
                  eq_refl E)).
Defined.

(** X19: the metainfo of a directory, with a positive piece length.
    [files] lists the files in walk order, each with its path
    components below the directory, its size and, when asked for, the
    hexadecimal MD5 digest of its own content, also when its bytes are
    hashed in pieces shared with its neighbours; [info] has no [length]
    and no [md5sum] of its own, and [length] is [None]. *)
Theorem Metainfo_directory {H : Hashlib} (fs : node) (filename : path)
        (o : options) (now : Z) (m : metainfo) (entries : list (bytes * node)) :
  lookup fs filename = Some (Dir entries) ->
  (0 < piece_length o)%Z ->
  Metainfo_init fs filename o now = Ok m ->
  all_readable (walk [] (Dir entries)) = true /\
  dict_get (info m) (KBytes (b "files")) =
    Some (List (map (file_entry o) (walk [] (Dir entries)))) /\
  dict_get (info m) (KBytes (b "length")) = None /\
  dict_get (info m) (KBytes (b "md5sum")) = None /\
  mi_length m = None.
Proof.
  intros Hl HL E.
  destruct (Metainfo_init_Ok _ _ _ _ _ E) as (self & _ & Ei & _ & _ & _ & _ & Elen).
  destruct (build_info_Ok _ _ _ _ Ei) as (info' & pieces & final & Eh & Hs & Hf & Einfo).
  unfold hash_content in Eh. rewrite Hl in Eh.
  pose proof (hash_walk_outcome o ltac:(lia) (walk [] (Dir entries)) [] [] []
                (or_introl eq_refl)) as Ho.
  destruct (all_readable (walk [] (Dir entries))) eqn:Hr;
    [|rewrite Ho in Eh; discriminate].
  clear Ho.
  destruct (hash_walk_files o HL (walk [] (Dir entries)) [] [] [] Hr)
    as (inc' & pieces' & Ew); [simpl; lia|].
  rewrite Ew in Eh. cbn [bind app] in Eh. injection Eh as Einfo' _.
  assert (Eg : dict_get (info m) (KBytes (b "length")) = None).
  { rewrite Einfo, <- Einfo'. unfold hashes_key.
    destruct (merkle o); dict_eval;
      rewrite info_header_get by reflexivity; reflexivity. }
  split; [reflexivity|]. split; [|split; [exact Eg|split]].
  - rewrite Einfo, <- Einfo'. unfold hashes_key.
    destruct (merkle o); dict_eval; reflexivity.
  - rewrite Einfo, <- Einfo'. unfold hashes_key.
    destruct (merkle o); dict_eval;
      rewrite info_header_get by reflexivity; reflexivity.
  - rewrite Elen, Eg. reflexivity.
Qed.

Lemma Metainfo_directory_witness :
  lookup sample_fs [b "album"] = Some (Dir sample_album) /\
  (0 < piece_length sample_options_md5)%Z /\
  @Metainfo_init sample_hashlib sample_fs [b "album"] sample_options_md5 1000 =
    Ok sample_metainfo_album /\
  dict_get (info sample_metainfo_album) (KBytes (b "files")) =
    Some (List (map (@file_entry sample_hashlib sample_options_md5)
                    [([b "a"], (b "ab", true)); ([b "b"], (b "hi", true));
                     ([b "sub"; b "c"], (b "cdefg", true))])).
Proof.
  split; [reflexivity|]. split; [reflexivity|]. split; [reflexivity|].
  exact (proj1 (proj2 (@Metainfo_directory sample_hashlib sample_fs [b "album"]
                         sample_options_md5 1000 sample_metainfo_album
                         sample_album eq_refl eq_refl eq_refl))).
Defined.

(** X20: the piece length is not checked.  With a piece length of 0
    nothing is read and [pieces] is empty, whatever the content.  With
    -1 every read returns the rest of the file, so that [pieces] holds
    one digest for each file that is not empty, over its whole content.
    Below -1 [f.read] raises, so that the constructor returns only when
    it opens no file, and [pieces] is empty. *)
Theorem Metainfo_nonpositive_piece_length {H : Hashlib} (fs : node)
        (filename : path) (o : options) (now : Z) (m : metainfo) :
  Metainfo_init fs filename o now = Ok m -> merkle o = false ->
  (piece_length o = 0%Z ->
   dict_get (info m) (KBytes (b "pieces")) = Some (Bytes [])) /\
  (piece_length o = (-1)%Z ->
   dict_get (info m) (KBytes (b "pieces")) =
   Some (Bytes
           match lookup fs filename with
           | Some (File content _) => whole_file_digest content
           | Some (Dir entries) =>
               concat (map (fun e => whole_file_digest (fst (snd e)))
                           (walk [] (Dir entries)))
           | None => []
           end)) /\
  ((piece_length o < -1)%Z ->
   first_opened fs filename = None /\
   dict_get (info m) (KBytes (b "pieces")) = Some (Bytes [])).
Proof.
  intros E Hm.
  destruct (Metainfo_init_Ok _ _ _ _ _ E) as (self & _ & Ei & _).
  destruct (build_info_Ok _ _ _ _ Ei) as (info' & pieces & final & Eh & _ & Hf & ->).
  unfold hashes_key. rewrite Hm in *. subst final.
  rewrite dict_get_set, key_eqb_refl.
  split; [|split]; intros HL.
  - rewrite (hash_content_zero _ _ _ _ _ _ HL Eh). reflexivity.
  - rewrite (hash_content_all _ _ _ _ _ _ HL Eh). reflexivity.
  - destruct (hash_content_below_Ok _ _ _ _ _ _ HL Eh) as [Hn ->].
    split; [exact Hn|reflexivity].
Qed.

Lemma Metainfo_nonpositive_piece_length_witness :
  @Metainfo_init sample_hashlib sample_fs [b "album"] sample_options_zero 1000 =
    Ok sample_metainfo_zero /\
  dict_get (info sample_metainfo_zero) (KBytes (b "pieces")) = Some (Bytes []) /\
  @Metainfo_init sample_hashlib sample_fs [b "album"] sample_options_negative
                 1000 = Ok sample_metainfo_negative /\
  dict_get (info sample_metainfo_negative) (KBytes (b "pieces")) =
    Some (Bytes (@sha1 sample_hashlib (b "ab") ++ @sha1 sample_hashlib (b "hi") ++
                 @sha1 sample_hashlib (b "cdefg"))) /\
  @Metainfo_init sample_hashlib sample_fs [b "nothing"] sample_options_below
                 1000 = Ok sample_metainfo_below /\
  dict_get (info sample_metainfo_below) (KBytes (b "pieces")) = Some (Bytes []).
Proof.
  split; [reflexivity|]. split; [|split; [reflexivity|split; [|split]]].
  - apply (proj1 (@Metainfo_nonpositive_piece_length sample_hashlib sample_fs
                    [b "album"] sample_options_zero 1000 sample_metainfo_zero
                    eq_refl eq_refl)).
    reflexivity.
  - pose proof (proj1 (proj2 (@Metainfo_nonpositive_piece_length sample_hashlib
                         sample_fs [b "album"] sample_options_negative 1000
                         sample_metainfo_negative eq_refl eq_refl)) eq_refl)
      as Hp.
    rewrite Hp. reflexivity.
  - reflexivity.
  - apply (proj2 (proj2 (@Metainfo_nonpositive_piece_length sample_hashlib
                           sample_fs [b "nothing"] sample_options_below 1000
                           sample_metainfo_below eq_refl eq_refl))).
    reflexivity.
Defined.

(** X21: the entries of a metainfo around [info].  The date and the
    generator are always there; the comment, the nodes, the HTTP seeds
    and the URL list are there exactly when the argument is not empty;
    [announce] is the first tracker of the first tier, and
    [announce-list] is there exactly when the first tier has a second
    tracker or there is a second tier. *)
Theorem Metainfo_top_level_entries {H : Hashlib} (fs : node) (filename : path)
        (o : options) (now : Z) (m : metainfo) :
  Metainfo_init fs filename o now = Ok m ->
  let d := as_dict m in
  dict_get d (KBytes (b "creation date")) = Some (Int now) /\
  dict_get d (KBytes (b "created by")) = Some (Bytes fullname) /\
  dict_get d (KBytes (b "comment")) =
    (if nonempty (comment o) then Some (Bytes (comment o)) else None) /\
  dict_get d (KBytes (b "nodes")) =
    (if nonempty (nodes o) then Some (nodes_value (nodes o)) else None) /\
  dict_get d (KBytes (b "httpseeds")) =
    (if nonempty (httpseeds o) then Some (bytes_list (httpseeds o)) else None) /\
  dict_get d (KBytes (b "url-list")) =
    (if nonempty (url_list o) then Some (bytes_list (url_list o)) else None) /\
  dict_get d (KBytes (b "announce")) =
    match announce o with
    | (tracker :: _) :: _ => Some (Bytes tracker)
    | _ => None
    end /\
  dict_get d (KBytes (b "announce-list")) =
    match announce o with
    | (_ :: more) :: tiers =>
        if nonempty more || nonempty tiers
        then Some (announce_value (announce o))
        else None
    | _ => None
    end.
Proof.
  intros E d. unfold d.
  destruct (Metainfo_init_Ok _ _ _ _ _ E) as (self & Es & _ & -> & _).
  destruct (build_self_entries o now self Es)
    as (H1 & H2 & H3 & H4 & H5 & H6 & H7 & H8).
  repeat split; dict_eval; assumption.
Qed.

Lemma Metainfo_top_level_entries_witness :
  @Metainfo_init sample_hashlib sample_fs [b "video"] sample_options 1000 =
    Ok sample_metainfo /\
  dict_get (as_dict sample_metainfo) (KBytes (b "announce")) =
    Some (Bytes (b "http://tracker/announce")) /\
  dict_get (as_dict sample_metainfo) (KBytes (b "announce-list")) = None /\
  dict_get (as_dict sample_metainfo) (KBytes (b "comment")) = None.
Proof.
  split; [reflexivity|].
  pose proof (@Metainfo_top_level_entries sample_hashlib sample_fs [b "video"]
                sample_options 1000 sample_metainfo eq_refl)
    as (_ & _ & H3 & _ & _ & _ & H7 & H8).
  split; [exact H7|]. split; [exact H8|exact H3].
Defined.

(** * Further properties of the Merkle loop *)

(** X22: on [n >= 1] hashes the reduction loop runs [ceil(log2 n)]
    rounds, no more and no fewer. *)
Theorem merkle_loop_rounds_log2 {H : Hashlib} (units : list bytes) :
  nonempty units = true -> hashesb units = true ->
  exists root padding,
    merkle_loop (length (concat units)) (concat units) =
    Ok ((root, padding), Nat.log2_up (length units)).
Proof.
  intros Hne Hu. apply nonempty_ne in Hne. apply hashesb_hashes in Hu.
  destruct (merkle_loop_rounds (length units) units zero_padding
              (length (concat units))) as ([root padding] & E);
    [lia|rewrite (length_concat_hashes units Hu); lia|exact Hne|exact Hu
    |apply repeat_length|].
  exists root, padding. exact E.
Qed.

Lemma merkle_loop_rounds_log2_witness :
  nonempty [sample_h1; sample_h2; sample_h3] = true /\
  hashesb [sample_h1; sample_h2; sample_h3] = true /\
  exists root padding,
    @merkle_loop sample_hashlib 60 (sample_h1 ++ sample_h2 ++ sample_h3) =
    Ok ((root, padding), 2).
Proof.
  split; [reflexivity|]. split; [reflexivity|].
  destruct (@merkle_loop_rounds_log2 sample_hashlib
              [sample_h1; sample_h2; sample_h3] eq_refl eq_refl)
    as (root & padding & E).
  exists root, padding. exact E.
Defined.

(** * The metainfo and the codec together *)

(** X23: the [info] entry of every metainfo the constructor returns is
    the finished [info] dictionary.  When the date, the piece length
    and the node ports are not negative and below 2^63, the metainfo can
    be encoded, and decoding the encoding, followed by any bytes, gives
    the metainfo back with its mappings in key order and its nodes as
    lists (in the metainfo a node is a tuple when [main] has built it).
    Without nodes the result is equal to the metainfo, as Python's [==]
    compares them. *)
Theorem Metainfo_roundtrip {H : Hashlib} (fs : node) (filename : path)
        (o : options) (now : Z) (m : metainfo) :
  Metainfo_init fs filename o now = Ok m ->
  dict_get (as_dict m) (KBytes (b "info")) = Some (Dict (info m)) /\
  ((0 <= now < 2 ^ 63)%Z -> (0 <= piece_length o < 2 ^ 63)%Z ->
   forallb (fun hp => (0 <=? snd hp)%Z && (snd hp <? 2 ^ 63)%Z) (nodes o)
     = true ->
   exists data,
     bencode (Dict (as_dict m)) = Ok data /\
     (forall s, bdecode (data ++ s) 0 = Ok (canon (Dict (as_dict m)))) /\
     (nodes o = [] ->
      py_eq (canon (Dict (as_dict m))) (Dict (as_dict m)) = true)).
Proof.
  intros E. split.
  - destruct (Metainfo_init_Ok _ _ _ _ _ E) as (self & _ & _ & -> & _).
    rewrite dict_get_set, key_eqb_refl. reflexivity.
  - intros [Hnow _] [HL _] Hports.
    assert (Hp : plain (Dict (as_dict m))).
    { apply (Metainfo_shape plain plain_Bytes plain_Int plain_List plain_empty
               plain_dict_set fs filename o now m).
      - apply plain_Int. exact Hnow.
      - apply plain_Int. exact HL.
      - apply Forall_forall. intros hp Hin. apply plain_Int.
        rewrite forallb_forall in Hports.
        pose proof (Hports hp Hin) as Hb.
        apply andb_true_iff in Hb as [Hb _]. apply Z.leb_le. exact Hb.
      - exact E. }
    destruct Hp as [Hpc Hpn].
    destruct (bdecode_bencode_ext _ Hpc Hpn) as (data & Eb & Hd).
    exists data. split; [exact Eb|]. split.
    + intros s. apply Hd.
    + intros _. apply py_eq_canon.
Qed.

Lemma Metainfo_roundtrip_witness :
  @Metainfo_init sample_hashlib sample_fs [b "album"] sample_options_md5 1000 =
    Ok sample_metainfo_album /\
  (exists data,
     bencode (Dict (as_dict sample_metainfo_album)) = Ok data /\
     bdecode (data ++ b "tail") 0 =
       Ok (canon (Dict (as_dict sample_metainfo_album)))) /\
  @Metainfo_init sample_hashlib sample_fs [b "video"] sample_options 1000 =
    Ok sample_metainfo /\
  exists data v,
    bencode (Dict (as_dict sample_metainfo)) = Ok data /\
    bdecode (data ++ b "tail") 0 = Ok v /\
    py_eq v (Dict (as_dict sample_metainfo)) = true.
Proof.
  split; [reflexivity|]. split; [|split; [reflexivity|]].
  - destruct (@Metainfo_roundtrip sample_hashlib sample_fs [b "album"]
                sample_options_md5 1000 sample_metainfo_album eq_refl)
      as (_ & Hd).
    destruct Hd as (data & Eb & Hd & _);
      [vm_compute; split; [discriminate|reflexivity]
      |vm_compute; split; [discriminate|reflexivity]
      |reflexivity|].
    exists data. split; [exact Eb|apply Hd].
  - destruct (@Metainfo_roundtrip sample_hashlib sample_fs [b "video"]
                sample_options 1000 sample_metainfo eq_refl)
      as (_ & Hd).
    destruct Hd as (data & Eb & Hd & Hv);
      [vm_compute; split; [discriminate|reflexivity]
      |vm_compute; split; [discriminate|reflexivity]
      |reflexivity|].
    exists data, (canon (Dict (as_dict sample_metainfo))).
    split; [exact Eb|]. split; [apply Hd|apply Hv; reflexivity].
Defined.

(** * The magnet link *)

(** X24: [magnet] succeeds on every metainfo the constructor returns.
    Its parameters are, in this order: [dn], the base name; [xl], the
    size, only for a file that is not empty; [xt], the identifier, that
    is the hexadecimal SHA-1 digest of the encoded [info]; [tr], the
    trackers of all tiers in order; [as], the [url_list]. *)
Theorem magnet_parameters {H : Hashlib} {U : Urllib} (fs : node)
        (filename : path) (o : options) (now : Z) (m : metainfo) :
  Metainfo_init fs filename o now = Ok m ->
  exists e,
    bencode (Dict (info m)) = Ok e /\
    magnet m =
    Ok (b "magnet:?" ++
        urlencode
          ([(b "dn", PBytes (basename filename))] ++
           match lookup fs filename with
           | Some (File content _) =>
               if nonempty content
               then [(b "xl", PBytes (fmt_int (getsize content)))]
               else []
           | _ => []
           end ++
           [(b "xt", PStr (hexlify (sha1 e)));
            (b "tr", PSeq (concat (announce o)));
            (b "as", PSeq (url_list o))])).
Proof.
  intros E.
  destruct (Metainfo_constructible _ _ _ _ _ E) as [Hc _].
  destruct (bencode_ok _ Hc) as (e & Eb).
  exists e. split; [exact Eb|].
  pose proof (Metainfo_init_length _ _ _ _ _ E) as Hlen.
  destruct (Metainfo_init_Ok _ _ _ _ _ E)
    as (self & _ & _ & _ & Ea & Eu & En & _).
  unfold magnet, magnet_params, infohash. cbv zeta.
  rewrite Eb, Hlen, Ea, Eu, En. cbn [bind].
  destruct (lookup fs filename) as [[content r|es]|]; try reflexivity.
  destruct content as [|c content]; [reflexivity|].
  unfold getsize. cbn [nonempty length].
  destruct (Z.eqb_spec (Z.of_nat (S (length content))) 0); [lia|].
  rewrite <- !app_assoc. reflexivity.
Qed.

Lemma magnet_parameters_witness :
  @Metainfo_init sample_hashlib sample_fs [b "video"] sample_options_2 2000 =
    Ok sample_metainfo_2 /\
  exists e,
    bencode (Dict (info sample_metainfo_2)) = Ok e /\
    @magnet sample_hashlib sample_urllib sample_metainfo_2 =
    Ok (b "magnet:?" ++
        @urlencode sample_urllib
          [(b "dn", PBytes (b "video")); (b "xl", PBytes (b "10"));
           (b "xt", PStr (hexlify (@sha1 sample_hashlib e)));
           (b "tr", PSeq [b "http://a/announce"; b "http://b/announce"]);
           (b "as", PSeq [b "http://mirror/"])]).
Proof.
  split; [reflexivity|].
  exact (@magnet_parameters sample_hashlib sample_urllib sample_fs [b "video"]
           sample_options_2 2000 sample_metainfo_2 eq_refl).
Defined.

(** * Further properties of main *)

(** X25: [main] changes no file but the destination: every other file
    keeps its content and its mode, however the run ends. *)
Theorem main_leaves_other_files {H : Hashlib} (fs : node) (a : cli) (now : Z)
        (p : path) (c : bytes) (r : bool) :
  lookup fs p = Some (File c r) -> p <> infoname a ->
  lookup (fst (main fs a now)) p = Some (File c r).
Proof.
  intros Hl Hp. rewrite main_eq.
  destruct (open_wb fs (infoname a)) as [fs1|e|] eqn:Eo; cbn [fst];
    try exact Hl.
  unfold open_wb in Eo.
  assert (H1 : lookup fs1 p = Some (File c r))
    by (apply (proj2 (put_file_lookup_file _ _ _ _ _ _ _ Eo Hl)); exact Hp).
  destruct (Metainfo_init _ _ _ _) as [m|e|]; cbn [fst]; try exact H1.
  destruct (bencode _) as [data|e|]; cbn [fst]; try exact H1.
  destruct (put_file fs1 _ data) as [fs2|e|] eqn:Ew; cbn [fst]; try exact H1.
  apply (proj2 (put_file_lookup_file _ _ _ _ _ _ _ Ew H1)). exact Hp.
Qed.

Lemma main_leaves_other_files_witness :
  lookup sample_fs [b "locked.torrent"] =
    Some (File (b "an earlier torrent") true) /\
  [b "locked.torrent"] <> infoname (sample_cli (b "video")) /\
  lookup (fst (@main sample_hashlib sample_fs (sample_cli (b "video")) 1000))
         [b "locked.torrent"] = Some (File (b "an earlier torrent") true).
Proof.
  assert (Hp : [b "locked.torrent"] <> infoname (sample_cli (b "video")))
    by discriminate.
  split; [reflexivity|]. split; [exact Hp|].
  exact (@main_leaves_other_files sample_hashlib sample_fs
           (sample_cli (b "video")) 1000 [b "locked.torrent"]
           (b "an earlier torrent") true eq_refl Hp).
Defined.





(** X28: [main] on an input path that does not exist.  When the
    destination can be opened the run succeeds: the constructor returns
    a metainfo without content, with neither [length] nor [files] and
    an empty hash string, and the destination holds its encoding. *)
Theorem main_missing_input {H : Hashlib} (fs fs1 : node) (a : cli) (now : Z) :
  lookup fs (cli_filename a) = None ->
  cli_filename a <> infoname a ->
  open_wb fs (infoname a) = Ok fs1 ->
  first_tracker_exists (func_args a) = true ->
  exists m data readable,
    Metainfo_init fs1 (cli_filename a) (func_args a) now = Ok m /\
    bencode (Dict (as_dict m)) = Ok data /\
    snd (main fs a now) = Ok tt /\
    lookup (fst (main fs a now)) (infoname a) = Some (File data readable) /\
    dict_get (as_dict m) (KBytes (b "info")) = Some (Dict (info m)) /\
    info m = dict_set (info_header (cli_filename a) (func_args a))
                      (hashes_key (func_args a)) (Bytes []) /\
    mi_length m = None.
Proof.
  intros Hl Hne Eo Ht.
  assert (Hl1 : lookup fs1 (cli_filename a) = None)
    by (apply (put_file_lookup_none _ _ _ _ _ Eo Hl Hne)).
  pose proof (build_self_outcome (func_args a) now) as Hs. rewrite Ht in Hs.
  destruct Hs as (self & Es).
  assert (Ei : build_info fs1 (cli_filename a) (func_args a) =
               Ok (dict_set (info_header (cli_filename a) (func_args a))
                            (hashes_key (func_args a)) (Bytes []))).
  { rewrite build_info_eq. unfold hash_content, hashes_key. rewrite Hl1.
    cbn [bind]. destruct (merkle (func_args a)); reflexivity. }
  assert (Em : exists m,
             Metainfo_init fs1 (cli_filename a) (func_args a) now = Ok m /\
             info m = dict_set (info_header (cli_filename a) (func_args a))
                               (hashes_key (func_args a)) (Bytes [])).
  { rewrite Metainfo_init_eq, Es, Ei. cbn [bind]. eexists.
    split; reflexivity. }
  destruct Em as (m & Em & Einfo).
  destruct (main_built fs a now fs1 m Eo Em) as (data & fs2 & Eb & Ew & Emain).
  destruct (put_file_spec _ _ _ _ Ew) as [(readable & Hd) _].
  exists m, data, readable. rewrite Emain. cbn [fst snd].
  split; [exact Em|]. split; [exact Eb|]. split; [reflexivity|].
  split; [exact Hd|]. split; [|split; [exact Einfo|]].
  - destruct (Metainfo_init_Ok _ _ _ _ _ Em) as (self' & _ & _ & -> & _).
    rewrite dict_get_set, key_eqb_refl. reflexivity.
  - rewrite (Metainfo_init_length _ _ _ _ _ Em), Hl1. reflexivity.
Qed.

Lemma main_missing_input_witness :
  lookup sample_fs [b "nothing"] = None /\
  exists m data readable,
    @Metainfo_init sample_hashlib sample_fs_opened [b "nothing"]
                   (func_args (sample_cli (b "nothing"))) 1000 = Ok m /\
    bencode (Dict (as_dict m)) = Ok data /\
    snd (@main sample_hashlib sample_fs (sample_cli (b "nothing")) 1000) =
      Ok tt /\
    lookup (fst (@main sample_hashlib sample_fs (sample_cli (b "nothing")) 1000))
           [b "nothing.torrent"] = Some (File data readable) /\
    mi_length m = None.
Proof.
  split; [reflexivity|].
  assert (Hne : cli_filename (sample_cli (b "nothing")) <>
                infoname (sample_cli (b "nothing"))) by discriminate.
  destruct (@main_missing_input sample_hashlib sample_fs sample_fs_opened
              (sample_cli (b "nothing")) 1000 eq_refl Hne eq_refl eq_refl)
    as (m & data & readable & H1 & H2 & H3 & H4 & _ & _ & H5).
  exists m, data, readable. auto 10.
Defined.
